(** * net_packet.c: in- and outgoing VPN packets

    A shallow embedding of [src/net_packet.c] and the statements checked
    against it.

    Conventions of the embedding.

    - Sequence numbers are the 32-bit unsigned integers that [htonl] and
      [ntohl] work on: a [Z] in [0, 2^32), with the wrap-around of every
      32-bit operation written out ([uint32_t]).  [sizeof] expressions have
      type [size_t], taken as 64 bits wide ([size_t]); the loop counter [i]
      of the replay window is a 32-bit [int] ([int32]).
    - Lengths, MTU values, priorities and option words ([length_t], [int])
      are kept as plain [Z]: their declarations live in headers outside this
      file.
    - Bytes are [Z] in [0, 256); a buffer is a [list Z]; reading past the end
      of a list gives 0 where the C code would read stale memory.  Automatic
      packet variables whose stale fields can show are arguments of the
      function that declares them.
    - A [node_t *] is a [node_id]; the nodes live in a heap [node_id -> node_t]
      that the functions thread through.  Calls into the rest of the daemon
      (route, send_tcppacket, sendto, ...) are recorded as a list of [call]s,
      in program order; what the environment answers (the result of sendto,
      of send_tcppacket, of random) is an explicit argument.
    - Of a packet variable the embedding keeps what the code stores in it.
      The scratch packets of send_udppacket and receive_udppacket are
      automatic variables that are never initialised: what lies behind the
      bytes stored in them is stale memory, of which there is no record
      here.  Two places of the code read or send such bytes; the
      theorems do not depend on what they are.  receive_udppacket looks at
      [data[12]] and [data[13]] whatever the length of the payload: the
      statements on probe replies ask for a payload of 14 bytes.  And with
      an active digest send_udppacket stores the MAC at
      [&inpkt->seqno + inpkt->len], which is arithmetic on a [uint32_t *]:
      [4 * len] bytes from the sequence number, while the datagram is the
      [len + digest_length] bytes from the sequence number on, so that it
      ends in the bytes that happen to follow the payload, and the MAC lands
      in the caller's buffer when the frame was neither compressed nor
      encrypted.  [transmit] puts the MAC behind the payload; what the
      theorems say of the bytes that follow the payload, and of the
      caller's data, they say for an inactive digest.
    - [logger] calls are left out. *)

From Stdlib Require Import ZArith Lia.
From stdpp Require Import base list functions.

Local Open Scope Z_scope.

(** ** Machine integers *)

Definition uint32_t (z : Z) : Z := z mod 2 ^ 32.
Definition size_t (z : Z) : Z := z mod 2 ^ 64.
Definition uint8_t (z : Z) : Z := z mod 2 ^ 8.
Definition int32 (z : Z) : Z := (z + 2 ^ 31) mod 2 ^ 32 - 2 ^ 31.

Definition MAX_SEQNO : Z := 1073741824.

(** ** Byte order

    [htonl x] is the 32-bit value whose image in memory is the big-endian
    encoding of [x]; which value that is depends on the byte order of the
    host, a parameter of the embedding. *)

Definition byte_at (x k : Z) : Z := (x / 2 ^ (8 * k)) mod 256.

Definition le32 (x : Z) : list Z := [byte_at x 0; byte_at x 1; byte_at x 2; byte_at x 3].
Definition be32 (x : Z) : list Z := [byte_at x 3; byte_at x 2; byte_at x 1; byte_at x 0].

Definition get (l : list Z) (i : Z) : Z := nth (Z.to_nat i) l 0.

(** [l[i] = v]; a list shorter than [i] is first filled up with the zeros
    that [get] reads there. *)
Definition put (l : list Z) (i : nat) (v : Z) : list Z :=
  <[i := v]> (l ++ repeat 0 (S i - length l)).

Definition of_le32 (l : list Z) : Z :=
  get l 0 + 256 * get l 1 + 65536 * get l 2 + 16777216 * get l 3.
Definition of_be32 (l : list Z) : Z :=
  get l 3 + 256 * get l 2 + 65536 * get l 1 + 16777216 * get l 0.

Class Host := { big_endian : bool }.

Section ByteOrder.
Context `{Host}.

(** The four bytes a 32-bit field occupies in memory, and back. *)
Definition image32 (x : Z) : list Z := if big_endian then be32 x else le32 x.
Definition of_image32 (l : list Z) : Z := if big_endian then of_be32 l else of_le32 l.

Definition htonl (x : Z) : Z := of_image32 (be32 x).
Definition ntohl (x : Z) : Z := of_be32 (image32 x).
End ByteOrder.

(** ** Data model *)

Definition node_id := nat.
Definition connection_id := nat.

(** Opaque handles of the crypto layer. *)
Definition cipher_t := Z.
Definition digest_t := Z.

Record sockaddr_t := mk_sockaddr {
  sa_family : Z;
  sa_host : list Z;
  sa_port : Z
}.

Record vpn_packet_t := mk_packet {
  len : Z;
  priority : Z;
  seqno : Z;
  data : list Z
}.

Record node_status_t := mk_status {
  reachable : bool;
  validkey : bool;
  waitingforkey : bool
}.

Record node_t := mk_node {
  options : Z;
  status : node_status_t;
  address : sockaddr_t;
  incipher : cipher_t;
  outcipher : cipher_t;
  indigest : digest_t;
  outdigest : digest_t;
  inmaclength : Z;
  incompression : Z;
  outcompression : Z;
  nexthop : node_id;
  via : node_id;
  connection : connection_id;
  sent_seqno : Z;
  received_seqno : Z;
  late : list Z;
  mtu : Z;
  minmtu : Z;
  maxmtu : Z;
  mtuprobes : Z
}.

Record connection_t := mk_connection {
  c_options : Z;
  c_node : node_id
}.

Record edge_t := mk_edge {
  e_address : sockaddr_t;
  to : node_id
}.

Record listen_socket_t := mk_listen_socket {
  udp : Z;
  sa : sockaddr_t
}.

(** Field assignments [n->f = v]. *)

Definition set_waitingforkey (v : bool) (n : node_t) : node_t :=
  mk_node (options n) (mk_status (reachable (status n)) (validkey (status n)) v)
    (address n) (incipher n) (outcipher n) (indigest n) (outdigest n)
    (inmaclength n) (incompression n) (outcompression n) (nexthop n) (via n)
    (connection n) (sent_seqno n) (received_seqno n) (late n)
    (mtu n) (minmtu n) (maxmtu n) (mtuprobes n).

Definition set_address (v : sockaddr_t) (n : node_t) : node_t :=
  mk_node (options n) (status n) v (incipher n) (outcipher n) (indigest n)
    (outdigest n) (inmaclength n) (incompression n) (outcompression n)
    (nexthop n) (via n) (connection n) (sent_seqno n) (received_seqno n)
    (late n) (mtu n) (minmtu n) (maxmtu n) (mtuprobes n).

Definition set_sent_seqno (v : Z) (n : node_t) : node_t :=
  mk_node (options n) (status n) (address n) (incipher n) (outcipher n)
    (indigest n) (outdigest n) (inmaclength n) (incompression n)
    (outcompression n) (nexthop n) (via n) (connection n) v (received_seqno n)
    (late n) (mtu n) (minmtu n) (maxmtu n) (mtuprobes n).

Definition set_received_seqno (v : Z) (n : node_t) : node_t :=
  mk_node (options n) (status n) (address n) (incipher n) (outcipher n)
    (indigest n) (outdigest n) (inmaclength n) (incompression n)
    (outcompression n) (nexthop n) (via n) (connection n) (sent_seqno n) v
    (late n) (mtu n) (minmtu n) (maxmtu n) (mtuprobes n).

Definition set_late (v : list Z) (n : node_t) : node_t :=
  mk_node (options n) (status n) (address n) (incipher n) (outcipher n)
    (indigest n) (outdigest n) (inmaclength n) (incompression n)
    (outcompression n) (nexthop n) (via n) (connection n) (sent_seqno n)
    (received_seqno n) v (mtu n) (minmtu n) (maxmtu n) (mtuprobes n).

Definition set_mtu (v : Z) (n : node_t) : node_t :=
  mk_node (options n) (status n) (address n) (incipher n) (outcipher n)
    (indigest n) (outdigest n) (inmaclength n) (incompression n)
    (outcompression n) (nexthop n) (via n) (connection n) (sent_seqno n)
    (received_seqno n) (late n) v (minmtu n) (maxmtu n) (mtuprobes n).

Definition set_minmtu (v : Z) (n : node_t) : node_t :=
  mk_node (options n) (status n) (address n) (incipher n) (outcipher n)
    (indigest n) (outdigest n) (inmaclength n) (incompression n)
    (outcompression n) (nexthop n) (via n) (connection n) (sent_seqno n)
    (received_seqno n) (late n) (mtu n) v (maxmtu n) (mtuprobes n).

Definition set_maxmtu (v : Z) (n : node_t) : node_t :=
  mk_node (options n) (status n) (address n) (incipher n) (outcipher n)
    (indigest n) (outdigest n) (inmaclength n) (incompression n)
    (outcompression n) (nexthop n) (via n) (connection n) (sent_seqno n)
    (received_seqno n) (late n) (mtu n) (minmtu n) v (mtuprobes n).

Definition set_mtuprobes (v : Z) (n : node_t) : node_t :=
  mk_node (options n) (status n) (address n) (incipher n) (outcipher n)
    (indigest n) (outdigest n) (inmaclength n) (incompression n)
    (outcompression n) (nexthop n) (via n) (connection n) (sent_seqno n)
    (received_seqno n) (late n) (mtu n) (minmtu n) (maxmtu n) v.

Definition set_len (v : Z) (p : vpn_packet_t) : vpn_packet_t :=
  mk_packet v (priority p) (seqno p) (data p).
Definition set_priority (v : Z) (p : vpn_packet_t) : vpn_packet_t :=
  mk_packet (len p) v (seqno p) (data p).
Definition set_seqno (v : Z) (p : vpn_packet_t) : vpn_packet_t :=
  mk_packet (len p) (priority p) v (data p).
Definition set_data (v : list Z) (p : vpn_packet_t) : vpn_packet_t :=
  mk_packet (len p) (priority p) (seqno p) v.

(** ** The replay window (receive_udppacket, "Check the sequence number") *)

Module Replay.

(** [sizeof n->late]. *)
Definition sizeof_late (n : node_t) : Z := Z.of_nat (length (late n)).

(** [late[idx] & (1 << k)] as a truth value. *)
Definition late_test (l : list Z) (idx k : Z) : bool :=
  negb (Z.land (get l idx) (Z.shiftl 1 k) =? 0).

(** [late[idx] |= 1 << k]. *)
Definition late_or (l : list Z) (idx k : Z) : list Z :=
  <[Z.to_nat idx := uint8_t (Z.lor (get l idx) (Z.shiftl 1 k))]> l.

(** [late[idx] &= ~(1 << k)]. *)
Definition late_and_not (l : list Z) (idx k : Z) : list Z :=
  <[Z.to_nat idx := uint8_t (Z.land (get l idx) (Z.lnot (Z.shiftl 1 k)))]> l.

(** The values [lo, lo+1, ..., hi-1]. *)
Definition Zrange (lo hi : Z) : list Z :=
  map (fun k => lo + Z.of_nat k) (seq 0 (Z.to_nat (hi - lo))).

(** [for(i = n->received_seqno + 1; i < inpkt->seqno; i++)
      n->late[(i / 8) % sizeof n->late] |= 1 << i % 8;]
    [i] is an [int] compared with an unsigned: [u] below is its unsigned
    value, [int32 u] the [int] itself, whose quotient and remainder
    truncate towards zero.  Past [INT_MAX] the remainder can be negative,
    a shift C leaves undefined and [Z.shiftl] turns into a right shift. *)
Definition mark_late (B : Z) (l : list Z) (from upto : Z) : list Z :=
  fold_left
    (fun l u => let i := int32 u in
                late_or l (size_t (Z.quot i 8) mod B) (Z.rem i 8))
    (Zrange from upto) l.

(** Lines 224-245.  [None] is the [return] of the late-or-replayed arm. *)
Definition check_sequence_number (n : node_t) (seqno : Z) : option node_t :=
  let R := received_seqno n in
  let B := sizeof_late n in
  let checked :=
    if negb (seqno =? uint32_t (R + 1)) then
      if size_t (R + size_t (B * 8)) <=? seqno then
        Some (repeat 0 (length (late n)))
      else if seqno <=? R then
        if (size_t (B * 8) <=? R) && (seqno <=? size_t (R - size_t (B * 8)))
           || negb (late_test (late n) (size_t (seqno / 8) mod B) (seqno mod 8))
        then None
        else Some (late n)
      else Some (mark_late B (late n) (uint32_t (R + 1)) seqno)
    else Some (late n) in
  match checked with
  | None => None
  | Some l =>
      let l' := late_and_not l (size_t (seqno / 8) mod B) (seqno mod 8) in
      Some (set_received_seqno (if R <? seqno then seqno else R) (set_late l' n))
  end.

(** Bit [p] of the bitmap, counting from bit 0 of byte 0. *)
Definition late_bit (l : list Z) (p : Z) : bool :=
  Z.testbit (get l (p / 8)) (p mod 8).

(** The check on a run of sequence numbers: the peer afterwards and, for
    each number, whether it passed. *)
Fixpoint check_all (n : node_t) (seqnos : list Z) : node_t * list bool :=
  match seqnos with
  | [] => (n, [])
  | s :: rest =>
      match check_sequence_number n s with
      | Some n1 => let '(n', passed) := check_all n1 rest in (n', true :: passed)
      | None => let '(n', passed) := check_all n rest in (n', false :: passed)
      end
  end.

End Replay.

(** ** Collaborators

    What net_packet.c takes from its headers and from the rest of the daemon:
    constants, the crypto layer, the two compression libraries and the
    address helpers.  They are parameters of the embedding. *)

Class Constants := {
  MAXSIZE : Z;
  MTU : Z;
  OPTION_TCPONLY : Z;
  OPTION_PMTU_DISCOVERY : Z;
  AF_INET : Z;
  EMSGSIZE : Z;
  (** [#if defined(SOL_IP) && defined(IP_TOS)] *)
  have_IP_TOS : bool
}.

(** The ciphers and digests work on the bytes that start at [&pkt->seqno]:
    [cipher_encrypt] and [cipher_decrypt] give the output bytes ([outlen] is
    their number) or fail; [digest_create] gives the bytes that follow the
    authenticated ones in the datagram; [digest_verify] answers for a packet.
    Where the digest is stored or looked for, the pointer
    [&inpkt->seqno + inpkt->len] of the source, is left to these two. *)
Class Crypto := {
  cipher_active : cipher_t -> bool;
  cipher_encrypt : cipher_t -> list Z -> option (list Z);
  cipher_decrypt : cipher_t -> list Z -> option (list Z);
  digest_active : digest_t -> bool;
  digest_length : digest_t -> Z;
  digest_create : digest_t -> list Z -> list Z;
  digest_verify : digest_t -> vpn_packet_t -> bool
}.

(** A compressor gets the source bytes (and, where it reads it, the room in
    the destination) and gives its return code, the destination bytes and the
    length it stored through the length pointer, an unsigned number. *)
Class Compression := {
  lzo1x_1_compress : list Z -> Z * list Z * N;
  lzo1x_999_compress : list Z -> Z * list Z * N;
  lzo1x_decompress_safe : list Z -> Z -> Z * list Z * N;
  compress2 : Z -> list Z -> Z -> Z * list Z * N;
  uncompress : Z -> list Z -> Z * list Z * N
}.

Definition Z_OK : Z := 0.
Definition LZO_E_OK : Z := 0.
Definition ETH_ALEN : Z := 6.

Class Netutl := {
  sockaddrcmp_noport : sockaddr_t -> sockaddr_t -> Z;
  sockaddrunmap : sockaddr_t -> sockaddr_t;
  lookup_node_udp : sockaddr_t -> option node_id
}.

(** The globals net_packet.c reads. *)
Record globals := mk_globals {
  myself : node_id;
  overwrite_mac : bool;
  mymac : list Z;
  priorityinheritance : bool;
  listen_socket : list listen_socket_t;
  edge_weight_tree : list edge_t
}.

Definition listen_sockets (g : globals) : Z := Z.of_nat (length (listen_socket g)).

(** The state the functions change: the nodes, and the [static int priority]
    of send_udppacket. *)
Record world := mk_world {
  heap : node_id -> node_t;
  static_priority : Z
}.

Definition set_node (n : node_id) (v : node_t) (w : world) : world :=
  mk_world (<[n := v]> (heap w)) (static_priority w).

(** Calls into the rest of the daemon and into the system. *)
Inductive call :=
| send_req_key (n : node_id)
| send_tcppacket (c : connection_id) (p : vpn_packet_t)
| terminate_connection (c : connection_id) (report : bool)
| sendto (fd : Z) (buf : list Z) (buflen : Z) (dest : sockaddr_t)
| setsockopt_IP_TOS (fd : Z) (v : Z)
| route (n : node_id) (p : vpn_packet_t)
| write_packet (p : vpn_packet_t)
| regenerate_key
| update_node_udp (n : node_id) (a : sockaddr_t)
| event_add (n : node_id).

(** What sendto gave back: its return value and [errno]. *)
Record sendto_result := mk_sendto_result {
  ret : Z;
  errno : Z
}.

(** Which [return] send_udppacket left through. *)
Inductive udp_exit :=
| exit_no_valid_key
| exit_no_minmtu
| exit_compress_error
| exit_encrypt_error
| exit_sendto.

Record udp_result := mk_udp_result {
  u_world : world;
  u_origpkt : vpn_packet_t;
  u_calls : list call;
  u_exit : udp_exit
}.

Section NetPacket.
Context `{Host} `{Constants} `{Crypto} `{Compression} `{Netutl}.
Variable g : globals.

(** The [len p] bytes that start at [&p->seqno]: the image of the seqno
    field, then the head of [data]. *)
Definition region (p : vpn_packet_t) : list Z :=
  firstn (Z.to_nat (len p)) (image32 (seqno p) ++ data p).

(** A packet variable after [buf] was stored from [&pkt->seqno] on. *)
Definition stored (stale : vpn_packet_t) (buf : list Z) : vpn_packet_t :=
  mk_packet (len stale) (priority stale) (of_image32 (firstn 4 buf)) (skipn 4 buf).

(** *** Compression *)

Definition compress_packet (source : list Z) (len : Z) (level : Z) : Z * list Z :=
  if level =? 10 then
    let '(_, dest, lzolen) := lzo1x_1_compress (firstn (Z.to_nat len) source) in
    (Z.of_N lzolen, dest)
  else if level <? 10 then
    let '(rc, dest, destlen) := compress2 MAXSIZE (firstn (Z.to_nat len) source) level in
    if rc =? Z_OK then (Z.of_N destlen, dest) else (-1, dest)
  else
    let '(_, dest, lzolen) := lzo1x_999_compress (firstn (Z.to_nat len) source) in
    (Z.of_N lzolen, dest).

Definition uncompress_packet (source : list Z) (len : Z) (level : Z) : Z * list Z :=
  if 9 <? level then
    let '(rc, dest, lzolen) := lzo1x_decompress_safe (firstn (Z.to_nat len) source) MAXSIZE in
    if rc =? LZO_E_OK then (Z.of_N lzolen, dest) else (-1, dest)
  else
    let '(rc, dest, destlen) := uncompress MAXSIZE (firstn (Z.to_nat len) source) in
    if rc =? Z_OK then (Z.of_N destlen, dest) else (-1, dest).

(** *** Egress *)

(** [for(sock = 0; sock < listen_sockets; sock++) if(family matches) break;] *)
Fixpoint matching_socket (family : Z) (socks : list listen_socket_t) (sock : Z) : Z :=
  match socks with
  | [] => sock
  | s :: rest =>
      if family =? sa_family (sa s) then sock
      else matching_socket family rest (sock + 1)
  end.

Definition no_socket : listen_socket_t := mk_listen_socket 0 (mk_sockaddr 0 [] 0).

(** The EMSGSIZE arm of the sendto failure. *)
Definition tighten_mtu (origlen : Z) (n : node_t) : node_t :=
  let n1 := if origlen <=? maxmtu n then set_maxmtu (origlen - 1) n else n in
  if origlen <=? mtu n1 then set_mtu (origlen - 1) n1 else n1.

(** The tail of send_udppacket, from "Add the message authentication
    code" to the sendto and its failure: [bytes] are the [blen] bytes at
    [&inpkt->seqno], [n] has its sequence number advanced already.  For an
    active digest see the note on packet variables at the head of the
    file: the length is that of the code, the bytes behind [bytes] are
    not. *)
Definition transmit (w : world) (n : node_id) (origlen origpriority : Z)
           (bytes : list Z) (blen : Z) (res : sendto_result) : world * list call :=
  let nd := heap w n in
  (* Add the message authentication code *)
  let '(bytes2, blen2) :=
    if digest_active (outdigest nd)
    then (bytes ++ digest_create (outdigest nd) bytes, blen + digest_length (outdigest nd))
    else (bytes, blen) in
  (* Determine which socket we have to use *)
  let found := matching_socket (sa_family (address nd)) (listen_socket g) 0 in
  let sock := if listen_sockets g <=? found then 0 else found in
  let ls := nth (Z.to_nat sock) (listen_socket g) no_socket in
  (* Send the packet *)
  let inherit :=
    have_IP_TOS && priorityinheritance g
    && negb (origpriority =? static_priority w)
    && (sa_family (sa ls) =? AF_INET) in
  let prio := if inherit then origpriority else static_priority w in
  let tos := if inherit then [setsockopt_IP_TOS (udp ls) prio] else [] in
  let nd2 :=
    if ret res <? 0 then
      if errno res =? EMSGSIZE then tighten_mtu origlen nd else nd
    else nd in
  (mk_world (<[n := nd2]> (heap w)) prio,
   tos ++ [sendto (udp ls) bytes2 blen2 (address nd)]).

Definition send_udppacket (w : world) (n : node_id) (origpkt : vpn_packet_t)
           (res : sendto_result) : udp_result :=
  let nd := heap w n in
  (* Make sure we have a valid key *)
  if negb (validkey (status nd)) then
    let w1 := set_node n (set_waitingforkey true nd) w in
    mk_udp_result w1 origpkt
      ((if waitingforkey (status nd) then [] else [send_req_key n]) ++
       [send_tcppacket (connection (heap w1 (nexthop (heap w1 n)))) origpkt])
      exit_no_valid_key
  else if negb (Z.land (options nd) OPTION_PMTU_DISCOVERY =? 0)
          && (minmtu nd =? 0)
          && negb (Z.lor (get (data origpkt) 12) (get (data origpkt) 13) =? 0) then
    mk_udp_result w origpkt
      [send_tcppacket (connection (heap w (nexthop nd))) origpkt]
      exit_no_minmtu
  else
    let origlen := len origpkt in
    let origpriority := priority origpkt in
    (* Compress the packet: afterwards inpkt is origpkt itself ([true]) or
       the scratch packet with the compressed bytes, whose other fields
       are written before they are read. *)
    let compressed :=
      if outcompression nd =? 0 then Some (origpkt, true)
      else
        let '(l, d) := compress_packet (data origpkt) (len origpkt) (outcompression nd) in
        if l <? 0 then None else Some (mk_packet l 0 0 d, false) in
    match compressed with
    | None => mk_udp_result w origpkt [] exit_compress_error
    | Some (inpkt, aliased) =>
        (* Add sequence number *)
        let nd1 := set_sent_seqno (uint32_t (sent_seqno nd + 1)) nd in
        let w1 := set_node n nd1 w in
        let inpkt1 := set_len (len inpkt + 4) (set_seqno (htonl (sent_seqno nd1)) inpkt) in
        (* end: origpkt->len = origlen *)
        let restored := set_len origlen (if aliased then inpkt1 else origpkt) in
        (* Encrypt the packet *)
        let encrypted :=
          if cipher_active (outcipher nd1) then
            match cipher_encrypt (outcipher nd1) (region inpkt1) with
            | None => None
            | Some out => Some (out, Z.of_nat (length out))
            end
          else Some (region inpkt1, len inpkt1) in
        match encrypted with
        | None => mk_udp_result w1 restored [] exit_encrypt_error
        | Some (bytes, blen) =>
            let '(w2, calls) := transmit w1 n origlen origpriority bytes blen res in
            mk_udp_result w2 restored calls exit_sendto
        end
    end.

(** send a packet to the given vpn ip. *)
Definition send_packet (w : world) (n : node_id) (packet : vpn_packet_t)
           (tcp_ok : bool) (res : sendto_result) : world * list call :=
  if Nat.eqb n (myself g) then
    let packet1 :=
      if overwrite_mac g
      then set_data (firstn (Z.to_nat ETH_ALEN) (mymac g)
                       ++ skipn (Z.to_nat ETH_ALEN) (data packet)) packet
      else packet in
    (w, [write_packet packet1])
  else if negb (reachable (status (heap w n))) then (w, [])
  else
    let v :=
      if (priority packet =? -1) || Nat.eqb (via (heap w n)) (myself g)
      then nexthop (heap w n) else via (heap w n) in
    if (priority packet =? -1)
       || negb (Z.land (Z.lor (options (heap w (myself g))) (options (heap w v)))
                       OPTION_TCPONLY =? 0) then
      (w, send_tcppacket (connection (heap w v)) packet
            :: (if tcp_ok then [] else [terminate_connection (connection (heap w v)) true]))
    else
      let r := send_udppacket w v packet res in
      (u_world r, u_calls r).

(** *** MTU probes *)

Definition mtu_probe_h (w : world) (n : node_id) (packet : vpn_packet_t) (len : Z)
           (tcp_ok : bool) (res : sendto_result) : world * list call :=
  if get (data packet) 0 =? 0 then
    send_packet w n (set_data (put (data packet) 0 1) packet) tcp_ok res
  else
    let nd := heap w n in
    (if minmtu nd <? len then set_node n (set_minmtu len nd) w else w, []).

(** The three rounds of the probe loop; [i] counts them, [rnd i] is what
    random() gave in round [i], a number that is not negative, [rbytes i]
    what randomize stored and [res i] what sendto answered. *)
Fixpoint probe_rounds (k : nat) (i : Z) (w : world) (n : node_id) (packet : vpn_packet_t)
         (rnd : Z -> N) (rbytes : Z -> list Z) (res : Z -> sendto_result)
  : world * list call :=
  match k with
  | O => (w, [event_add n])
  | S k' =>
      let nd := heap w n in
      if (30 <=? mtuprobes nd) || (maxmtu nd <=? minmtu nd) then
        (set_node n (set_mtu (minmtu nd) nd) w, [])
      else
        let len0 := minmtu nd + 1 + Z.rem (Z.of_N (rnd i)) (maxmtu nd - minmtu nd) in
        let len1 := if len0 <? 64 then 64 else len0 in
        let packet1 :=
          mk_packet len1 0 (seqno packet)
            (repeat 0 14 ++ firstn (Z.to_nat (len1 - 14)) (rbytes i)) in
        let r := send_udppacket w n packet1 (res i) in
        let '(w', calls) := probe_rounds k' (i + 1) (u_world r) n (u_origpkt r) rnd rbytes res in
        (w', u_calls r ++ calls)
  end.

(** [packet] is the automatic variable as the function finds it. *)
Definition send_mtu_probe_handler (w : world) (n : node_id) (packet : vpn_packet_t)
           (rnd : Z -> N) (rbytes : Z -> list Z) (res : Z -> sendto_result)
  : world * list call :=
  let nd := set_mtuprobes (mtuprobes (heap w n) + 1) (heap w n) in
  let w1 := set_node n nd w in
  if (10 <=? mtuprobes nd) && (minmtu nd =? 0) then (w1, [])
  else probe_rounds 3 0 w1 n packet rnd rbytes res.

(** *** Ingress *)

Definition receive_packet (n : node_id) (packet : vpn_packet_t) : list call :=
  [route n packet].

Definition try_mac (n : node_t) (inpkt : vpn_packet_t) : bool :=
  if negb (digest_active (indigest n)) || (inmaclength n =? 0)
     || (len inpkt <? 4 + inmaclength n)
  then false
  else digest_verify (indigest n) inpkt.

(** The first scratch packet gets its seqno, data and len from the
    decryption and its priority before it is passed on; its data are the
    decrypted bytes and nothing behind them (see the note on packet
    variables at the head of the file).  [pkt2] is the second one as the
    function finds it: its seqno field is never written. *)
Definition receive_udppacket (w : world) (n : node_id) (inpkt pkt2 : vpn_packet_t)
           (tcp_ok : bool) (res : sendto_result) : world * list call :=
  let nd := heap w n in
  if negb (cipher_active (incipher nd)) then (w, [])
  else if len inpkt <? 4 + digest_length (indigest nd) then (w, [])
  else if digest_active (indigest nd) && negb (digest_verify (indigest nd) inpkt) then (w, [])
  else
    (* Decrypt the packet; the cipher is active here. *)
    match cipher_decrypt (incipher nd) (region inpkt) with
    | None => (w, [])
    | Some out =>
        let pkt1 := set_len (Z.of_nat (length out)) (stored inpkt out) in
        (* Check the sequence number *)
        let inpkt1 := set_seqno (ntohl (seqno pkt1)) (set_len (len pkt1 - 4) pkt1) in
        match Replay.check_sequence_number nd (seqno inpkt1) with
        | None => (w, [])
        | Some nd1 =>
            let w1 := set_node n nd1 w in
            let rekey := if MAX_SEQNO <? received_seqno nd1 then [regenerate_key] else [] in
            (* Decompress the packet *)
            let origlen := len inpkt1 in
            let decompressed :=
              if incompression nd1 =? 0 then Some (inpkt1, origlen)
              else
                let '(l, d) := uncompress_packet (data inpkt1) (len inpkt1) (incompression nd1) in
                if l <? 0 then None
                else Some (set_data d (set_len l pkt2), origlen - (MTU / 64 + 20)) in
            match decompressed with
            | None => (w1, rekey)
            | Some (inpkt2, origlen2) =>
                let inpkt3 := set_priority 0 inpkt2 in
                if (get (data inpkt3) 12 =? 0) && (get (data inpkt3) 13 =? 0) then
                  let '(w2, calls) := mtu_probe_h w1 n inpkt3 origlen2 tcp_ok res in
                  (w2, rekey ++ calls)
                else (w1, rekey ++ receive_packet n inpkt3)
            end
        end
    end.

(** [outpkt] is the automatic variable as the function finds it. *)
Definition receive_tcppacket (c : connection_t) (buffer : list Z) (len : Z)
           (outpkt : vpn_packet_t) : list call :=
  let outpkt1 := set_len len outpkt in
  let outpkt2 :=
    if negb (Z.land (c_options c) OPTION_TCPONLY =? 0)
    then set_priority 0 outpkt1
    else set_priority (-1) outpkt1 in
  let outpkt3 :=
    set_data (firstn (Z.to_nat len) buffer ++ skipn (Z.to_nat len) (data outpkt2)) outpkt2 in
  receive_packet (c_node c) outpkt3.

(** The loop of try_harder over the edges, [n] being the candidate so far. *)
Fixpoint try_harder_from (w : world) (edges : list edge_t) (from : sockaddr_t)
         (pkt : vpn_packet_t) (n : option node_id) : option node_id :=
  match edges with
  | [] => n
  | e :: rest =>
      if negb (sockaddrcmp_noport from (e_address e) =? 0) then
        try_harder_from w rest from pkt n
      else
        let n1 := match n with None => Some (to e) | Some _ => n end in
        if negb (try_mac (heap w (to e)) pkt) then try_harder_from w rest from pkt n1
        else Some (to e)
  end.

Definition try_harder (w : world) (from : sockaddr_t) (pkt : vpn_packet_t) : option node_id :=
  try_harder_from w (edge_weight_tree g) from pkt None.

(** Modelled from the spec: update_node_udp is defined outside this file;
    the spec has it "update its address to the observed one". *)
Definition do_update_node_udp (w : world) (n : node_id) (a : sockaddr_t) : world :=
  set_node n (set_address a (heap w n)) w.

(** [rlen], [buf] and [from] are what recvfrom gave; [pkt] and [pkt2] are
    the automatic packet variables as found. *)
Definition handle_incoming_vpn_data (w : world) (pkt pkt2 : vpn_packet_t)
           (rlen : Z) (buf : list Z) (from : sockaddr_t)
           (tcp_ok : bool) (res : sendto_result) : world * list call :=
  let pkt1 := set_len rlen (stored pkt buf) in
  if rlen <? 0 then (w, [])
  else
    let from1 := sockaddrunmap from in
    match lookup_node_udp from1 with
    | Some n => receive_udppacket w n pkt1 pkt2 tcp_ok res
    | None =>
        match try_harder w from1 pkt1 with
        | Some n =>
            let w1 := do_update_node_udp w n from1 in
            let '(w2, calls) := receive_udppacket w1 n pkt1 pkt2 tcp_ok res in
            (w2, update_node_udp n from1 :: calls)
        | None => (w, [])
        end
    end.

(** *** Vocabulary of the statements *)

(** What send_udppacket numbers: the frame as it is, or compressed. *)
Definition udp_payload (n : node_t) (origpkt : vpn_packet_t) : Z * list Z :=
  if outcompression n =? 0 then (len origpkt, data origpkt)
  else compress_packet (data origpkt) (len origpkt) (outcompression n).

(** Sequence number [s] in network byte order, then the payload: the
    [plen + 4] bytes that are encrypted. *)
Definition numbered (s plen : Z) (payload : list Z) : list Z :=
  firstn (Z.to_nat (plen + 4)) (be32 s ++ payload).

(** What [transmit] puts behind the authenticated bytes. *)
Definition mac_tail (n : node_t) (bytes : list Z) : list Z :=
  if digest_active (outdigest n) then digest_create (outdigest n) bytes else [].

(** An edge whose address is [from], whatever the port. *)
Definition matches (from : sockaddr_t) (e : edge_t) : Prop :=
  sockaddrcmp_noport from (e_address e) = 0.

(** *** The MTU estimates as a transition system *)

Definition ordered (n : node_t) : Prop := minmtu n <= mtu n /\ mtu n <= maxmtu n.

Definition all_set (n : node_t) : Prop := minmtu n <> 0 /\ mtu n <> 0 /\ maxmtu n <> 0.

Definition emsgsize (res : sendto_result) : Prop := ret res < 0 /\ errno res = EMSGSIZE.

(** What happens to a peer's MTU estimates: a probe comes in
    (mtu_probe_h), a round of probes goes out (send_mtu_probe_handler), a
    frame is sent to it over UDP (send_udppacket). *)
Inductive mtu_event :=
| probe_received (packet : vpn_packet_t) (len : Z) (tcp_ok : bool) (res : sendto_result)
| probes_emitted (packet : vpn_packet_t) (rnd : Z -> N) (rbytes : Z -> list Z)
                 (res : Z -> sendto_result)
| frame_sent (packet : vpn_packet_t) (res : sendto_result).

Definition mtu_step (n : node_id) (w : world) (ev : mtu_event) : world :=
  match ev with
  | probe_received packet l tcp_ok res => fst (mtu_probe_h w n packet l tcp_ok res)
  | probes_emitted packet rnd rbytes res =>
      fst (send_mtu_probe_handler w n packet rnd rbytes res)
  | frame_sent packet res => u_world (send_udppacket w n packet res)
  end.

Definition mtu_run (n : node_id) (w : world) (evs : list mtu_event) : world :=
  fold_left (mtu_step n) evs w.

(** The events that keep the estimates in order: a reply no longer than
    the current mtu, and no EMSGSIZE for a frame that is not longer than
    minmtu; the probes that go out are longer than minmtu by themselves. *)
Definition admissible (n : node_id) (w : world) (ev : mtu_event) : Prop :=
  match ev with
  | probe_received packet l _ res =>
      if get (data packet) 0 =? 0
      then emsgsize res -> minmtu (heap w n) < len packet
      else l <= mtu (heap w n)
  | probes_emitted _ _ _ _ => True
  | frame_sent packet res => emsgsize res -> minmtu (heap w n) < len packet
  end.

Fixpoint admissible_run (n : node_id) (w : world) (evs : list mtu_event) : Prop :=
  match evs with
  | [] => True
  | ev :: rest => admissible n w ev /\ admissible_run n (mtu_step n w ev) rest
  end.

End NetPacket.

(** Calls that hand a packet to routing or move a peer's address. *)
Definition ingress_call (c : call) : Prop :=
  match c with
  | route _ _ | update_node_udp _ _ => True
  | _ => False
  end.

(** ** A small instance, for the examples *)

Module Sample.

Fixpoint same_bytes (a b : list Z) : bool :=
  match a, b with
  | [], [] => true
  | x :: a', y :: b' => (x =? y) && same_bytes a' b'
  | _, _ => false
  end.

Definition host : Host := {| big_endian := false |}.

Definition constants : Constants :=
  {| MAXSIZE := 1661; MTU := 1518; OPTION_TCPONLY := 2; OPTION_PMTU_DISCOVERY := 4;
     AF_INET := 2; EMSGSIZE := 90; have_IP_TOS := true |}.

(** Handle 0 is inactive.  The cipher copies; digest 1 accepts every
    packet, the other digests accept none. *)
Definition crypto : Crypto :=
  {| cipher_active c := negb (c =? 0);
     cipher_encrypt _ bytes := Some bytes;
     cipher_decrypt _ bytes := Some bytes;
     digest_active d := negb (d =? 0);
     digest_length d := if d =? 0 then 0 else 4;
     digest_create _ _ := [0; 0; 0; 0];
     digest_verify d _ := d =? 1 |}.

(** The compressors copy; the LZO decompressor appends 99 zero bytes. *)
Definition compression : Compression :=
  {| lzo1x_1_compress src := (0, src, N.of_nat (length src));
     lzo1x_999_compress src := (0, src, N.of_nat (length src));
     lzo1x_decompress_safe src _ :=
       (0, src ++ repeat 0 99, N.of_nat (length src + 99));
     compress2 _ src _ := (0, src, N.of_nat (length src));
     uncompress _ src := (0, src, N.of_nat (length src)) |}.

(** No address is known to lookup_node_udp. *)
Definition netutl : Netutl :=
  {| sockaddrcmp_noport a b :=
       if (sa_family a =? sa_family b) && same_bytes (sa_host a) (sa_host b) then 0 else 1;
     sockaddrunmap a := a;
     lookup_node_udp _ := None |}.

Definition old_address : sockaddr_t := mk_sockaddr 2 [192; 0; 2; 1] 655.
Definition new_address : sockaddr_t := mk_sockaddr 2 [192; 0; 2; 1] 40000.

(** A reachable peer with a valid key, cipher 1, no digest, no
    compression, a 16-byte window and an MTU of 1500. *)
Definition peer : node_t :=
  mk_node 0 (mk_status true true false) old_address 1 1 0 0 0 0 0
    1%nat 1%nat 5%nat 7 300 (repeat 255 16) 1500 0 1500 0.

(** The same peer before its key is known. *)
Definition keyless : node_t :=
  mk_node 0 (mk_status true false false) old_address 1 1 0 0 0 0 0
    1%nat 1%nat 5%nat 7 300 (repeat 255 16) 1500 0 1500 0.

(** The same peer with digest 2, which verifies nothing. *)
Definition stranger : node_t :=
  mk_node 0 (mk_status true true false) old_address 1 1 2 2 4 0 0
    1%nat 1%nat 5%nat 7 300 (repeat 255 16) 1500 0 1500 0.

(** The same peer with LZO on the way in and a minimum MTU of 50. *)
Definition squeezed : node_t :=
  mk_node 0 (mk_status true true false) old_address 1 1 0 0 0 10 10
    1%nat 1%nat 5%nat 7 300 (repeat 255 16) 1500 50 1500 0.

Definition g : globals :=
  mk_globals 0%nat false [2; 0; 0; 0; 0; 1] true
    [mk_listen_socket 7 (mk_sockaddr 2 [0; 0; 0; 0] 655)]
    [mk_edge old_address 1%nat].

Definition world_of (n : node_t) : world := mk_world (fun _ => n) 0.

Definition frame (l : Z) : vpn_packet_t :=
  mk_packet l 0 0 (repeat 0 12 ++ [8; 0] ++ repeat 65 (Z.to_nat (l - 14))).

Definition blank : vpn_packet_t := mk_packet 0 0 0 [].

(** A received datagram: sequence number [s] in network byte order, then
    the payload. *)
Definition datagram (s : Z) (payload : list Z) : vpn_packet_t :=
  mk_packet (4 + Z.of_nat (length payload)) 0 (@of_image32 host (be32 s)) payload.

(** The payload of a probe reply of [l] bytes. *)
Definition reply (l : nat) : list Z := 1 :: repeat 0 (l - 1).

Definition sent : sendto_result := mk_sendto_result 0 0.
Definition too_long : sendto_result := mk_sendto_result (-1) 90.

End Sample.

(** ** Further vocabulary

    Runs of the replay check, the kinds of calls, broadcast_packet and
    what the statements about the two directions need. *)

(** The sequence numbers of a run that pass the check, in order. *)
Fixpoint accepted (n : node_t) (seqnos : list Z) : list Z :=
  match seqnos with
  | [] => []
  | s :: rest =>
      match Replay.check_sequence_number n s with
      | Some n1 => s :: accepted n1 rest
      | None => accepted n rest
      end
  end.

(** Every number in [seen] is at or below the last one received, and those
    still inside the window have their bit cleared. *)
Definition seen_once (n : node_t) (seen : list Z) : Prop :=
  forall x, In x seen ->
    0 <= x <= received_seqno n
    /\ (received_seqno n - 8 * Replay.sizeof_late n < x ->
        Replay.late_bit (late n) (x mod (8 * Replay.sizeof_late n)) = false).

(** Calls that send_packet can make. *)
Definition egress_call (c : call) : Prop :=
  match c with
  | send_req_key _ | send_tcppacket _ _ | terminate_connection _ _
  | sendto _ _ _ _ | setsockopt_IP_TOS _ _ | write_packet _ => True
  | _ => False
  end.

(** Calls of the UDP path and of the TCP fallback of send_udppacket. *)
Definition udp_call (c : call) : Prop :=
  match c with
  | sendto _ _ _ _ | setsockopt_IP_TOS _ _ => True
  | _ => False
  end.

Definition tcp_call (c : call) : Prop :=
  match c with
  | send_req_key _ | send_tcppacket _ _ => True
  | _ => False
  end.

Definition is_sendto (c : call) : bool :=
  match c with sendto _ _ _ _ => true | _ => false end.

Definition is_byte (x : Z) : Prop := 0 <= x < 256.

(** The status bits of a connection that broadcast_packet reads. *)
Record connection_status_t := mk_connection_status {
  active : bool;
  mst : bool
}.

Section Broadcast.
Context `{Host} `{Constants} `{Crypto} `{Compression} `{Netutl}.
Variable g : globals.

(** The frame as send_packet hands it to the device. *)
Definition delivered (packet : vpn_packet_t) : vpn_packet_t :=
  if overwrite_mac g
  then set_data (firstn (Z.to_nat ETH_ALEN) (mymac g)
                   ++ skipn (Z.to_nat ETH_ALEN) (data packet)) packet
  else packet.

(** An entry of the connection tree that broadcast_packet passes over. *)
Definition passed_over (w : world) (from : node_id)
           (entry : connection_id * connection_status_t * connection_t) : Prop :=
  active (snd (fst entry)) && mst (snd (fst entry)) = false
  \/ fst (fst entry) = connection (heap w (nexthop (heap w from))).

(** The caller's frame as send_packet leaves it: send_packet gets a pointer,
    stores the local MAC address through it on the way to the device and
    hands it on to send_udppacket.  write_packet and send_tcppacket, which
    are defined elsewhere, are taken to leave the frame as it is. *)
Definition sent_packet (w : world) (n : node_id) (packet : vpn_packet_t)
           (res : sendto_result) : vpn_packet_t :=
  if Nat.eqb n (myself g) then
    if overwrite_mac g
    then set_data (firstn (Z.to_nat ETH_ALEN) (mymac g)
                     ++ skipn (Z.to_nat ETH_ALEN) (data packet)) packet
    else packet
  else if negb (reachable (status (heap w n))) then packet
  else
    let v :=
      if (priority packet =? -1) || Nat.eqb (via (heap w n)) (myself g)
      then nexthop (heap w n) else via (heap w n) in
    if (priority packet =? -1)
       || negb (Z.land (Z.lor (options (heap w (myself g))) (options (heap w v)))
                       OPTION_TCPONLY =? 0)
    then packet
    else u_origpkt (send_udppacket g w v packet res).

(** The loop of broadcast_packet over the connection tree: each entry is
    the connection's address, its status bits and the connection.  [i]
    counts the entries; [tcp_ok i] and [res i] are what send_tcppacket and
    sendto answer for entry [i]. *)
Fixpoint broadcast_loop (tree : list (connection_id * connection_status_t * connection_t))
         (i : nat) (w : world) (from : node_id) (packet : vpn_packet_t)
         (tcp_ok : nat -> bool) (res : nat -> sendto_result) : world * list call :=
  match tree with
  | [] => (w, [])
  | (c, st, conn) :: rest =>
      if active st && mst st
         && negb (Nat.eqb c (connection (heap w (nexthop (heap w from))))) then
        let '(w1, calls1) := send_packet g w (c_node conn) packet (tcp_ok i) (res i) in
        let packet1 := sent_packet w (c_node conn) packet (res i) in
        let '(w2, calls2) := broadcast_loop rest (S i) w1 from packet1 tcp_ok res in
        (w2, calls1 ++ calls2)
      else broadcast_loop rest (S i) w from packet tcp_ok res
  end.

(** Broadcast a packet using the minimum spanning tree.  [tunnelserver] and
    [connection_tree] are the two globals only this function reads; answer 0
    is for the local delivery, answer [i + 1] for entry [i] of the tree. *)
Definition broadcast_packet (tunnelserver : bool)
           (connection_tree : list (connection_id * connection_status_t * connection_t))
           (w : world) (from : node_id) (packet : vpn_packet_t)
           (tcp_ok : nat -> bool) (res : nat -> sendto_result) : world * list call :=
  if negb (Nat.eqb from (myself g)) then
    let '(w1, calls1) := send_packet g w (myself g) packet (tcp_ok O) (res O) in
    let packet1 := sent_packet w (myself g) packet (res O) in
    if tunnelserver then (w1, calls1)
    else
      let '(w2, calls2) := broadcast_loop connection_tree 1 w1 from packet1 tcp_ok res in
      (w2, calls1 ++ calls2)
  else broadcast_loop connection_tree 1 w from packet tcp_ok res.

(** The listen socket send_udppacket sends through for peer [n]. *)
Definition chosen_socket (n : node_t) : listen_socket_t :=
  let found := matching_socket (sa_family (address n)) (listen_socket g) 0 in
  nth (Z.to_nat (if listen_sockets g <=? found then 0 else found)) (listen_socket g) no_socket.

(** Whether send_udppacket sets IP_TOS before it sends a frame of priority
    [origpriority] to peer [n]. *)
Definition inherits (w : world) (n : node_t) (origpriority : Z) : bool :=
  have_IP_TOS && priorityinheritance g
  && negb (origpriority =? static_priority w)
  && (sa_family (sa (chosen_socket n)) =? AF_INET).

(** The gate of send_udppacket in front of the UDP path. *)
Definition passes_gates (n : node_t) (origpkt : vpn_packet_t) : bool :=
  validkey (status n)
  && negb (negb (Z.land (options n) OPTION_PMTU_DISCOVERY =? 0)
           && (minmtu n =? 0)
           && negb (Z.lor (get (data origpkt) 12) (get (data origpkt) 13) =? 0)).

(** The checks of receive_udppacket in front of the decryption. *)
Definition passes_checks (nd : node_t) (inpkt : vpn_packet_t) : Prop :=
  cipher_active (incipher nd) = true
  /\ 4 + digest_length (indigest nd) <= len inpkt
  /\ (digest_active (indigest nd) = true -> digest_verify (indigest nd) inpkt = true).

(** The sequence number receive_udppacket reads from the plaintext. *)
Definition seqno_of (out : list Z) : Z := ntohl (of_image32 (firstn 4 out)).

(** The ciphers of the two ends fit: what one encrypts the other decrypts;
    the ciphertext of bytes is bytes, and no shorter than the plaintext. *)
Definition ciphers_match (out_cipher in_cipher : cipher_t) : Prop :=
  forall plain bytes,
    cipher_encrypt out_cipher plain = Some bytes ->
    cipher_decrypt in_cipher bytes = Some plain
    /\ (length plain <= length bytes)%nat
    /\ (Forall is_byte plain -> Forall is_byte bytes).

End Broadcast.

(** ** More instances, for the examples *)

Module Cases.

Definition big_host : Host := {| big_endian := true |}.

(** A cipher whose encryption fails. *)
Definition jammed : Crypto :=
  {| cipher_active c := negb (c =? 0);
     cipher_encrypt _ _ := None;
     cipher_decrypt _ bytes := Some bytes;
     digest_active d := negb (d =? 0);
     digest_length d := if d =? 0 then 0 else 4;
     digest_create _ _ := [0; 0; 0; 0];
     digest_verify d _ := d =? 1 |}.

(** Decompressors that report an error. *)
Definition broken : Compression :=
  {| lzo1x_1_compress src := (0, src, N.of_nat (length src));
     lzo1x_999_compress src := (0, src, N.of_nat (length src));
     lzo1x_decompress_safe src _ := (-4, [], 0%N);
     compress2 _ src _ := (0, src, N.of_nat (length src));
     uncompress _ src := (-3, [], 0%N) |}.

(** lookup_node_udp knows the address of peer 1. *)
Definition directory : Netutl :=
  {| sockaddrcmp_noport a b :=
       if (sa_family a =? sa_family b) && Sample.same_bytes (sa_host a) (sa_host b)
       then 0 else 1;
     sockaddrunmap a := a;
     lookup_node_udp a :=
       if Sample.same_bytes (sa_host a) [192; 0; 2; 1] && (sa_port a =? 655)
       then Some 1%nat else None |}.

Definition elsewhere : sockaddr_t := mk_sockaddr 2 [198; 51; 100; 7] 655.

(** The sample peer with path MTU discovery on and no probe answered yet. *)
Definition discovering : node_t :=
  mk_node 4 (mk_status true true false) Sample.old_address 1 1 0 0 0 0 0
    1%nat 1%nat 5%nat 7 300 (repeat 255 16) 1500 0 1500 0.

(** The sample peer as the other end has it: nothing received after 7. *)
Definition listening : node_t := set_received_seqno 7 Sample.peer.

(** The sample globals with the local MAC address written into frames for
    the device. *)
Definition g_mac : globals :=
  mk_globals 0%nat true [2; 0; 0; 0; 0; 1] true
    [mk_listen_socket 7 (mk_sockaddr 2 [0; 0; 0; 0] 655)]
    [mk_edge Sample.old_address 1%nat].

(** One active connection of the spanning tree, to peer 1. *)
Definition tree : list (connection_id * connection_status_t * connection_t) :=
  [(9%nat, mk_connection_status true true, mk_connection 0 1%nat)].

End Cases.

(** * Facts *)

Import Replay.

Lemma late_index_window (B s : Z) :
  0 < B -> 0 <= s -> (s / 8) mod B = (s mod (8 * B)) / 8.
Proof.
  intros HB Hs. rewrite Z.rem_mul_r by lia.
  rewrite (Z.mul_comm 8 ((s / 8) mod B)), Z.div_add by lia.
  rewrite (Z.div_small (s mod 8)) by (apply Z.mod_pos_bound; lia). lia.
Qed.

Lemma late_shift_window (B s : Z) :
  0 < B -> 0 <= s -> s mod 8 = (s mod (8 * B)) mod 8.
Proof.
  intros HB Hs. rewrite Z.rem_mul_r by lia.
  rewrite (Z.mul_comm 8 ((s / 8) mod B)), Z.mod_add by lia.
  rewrite Z.mod_mod by lia. reflexivity.
Qed.

Lemma land_bit_zero (b k : Z) :
  0 <= k -> (Z.land b (Z.shiftl 1 k) =? 0) = negb (Z.testbit b k).
Proof.
  intros Hk. destruct (Z.testbit b k) eqn:Hb; simpl.
  - apply Z.eqb_neq. intros E.
    assert (Z.testbit (Z.land b (Z.shiftl 1 k)) k = true).
    { rewrite Z.land_spec, Hb, Z.shiftl_spec by lia. rewrite Z.sub_diag. reflexivity. }
    rewrite E, Z.bits_0 in *. discriminate.
  - apply Z.eqb_eq. apply Z.bits_inj'. intros j Hj.
    rewrite Z.land_spec, Z.bits_0, Z.shiftl_spec by lia.
    destruct (Z.eq_dec j k) as [->|Hne]; [rewrite Hb; reflexivity|].
    destruct (Z.lt_ge_cases j k).
    + rewrite (Z.testbit_neg_r 1 (j - k)) by lia. apply andb_false_r.
    + replace (Z.testbit 1 (j - k)) with false; [apply andb_false_r|].
      symmetry. apply (Z.bits_above_log2 1 (j - k)); simpl; lia.
Qed.

Lemma late_test_bit (l : list Z) (idx k : Z) :
  0 <= k -> late_test l idx k = Z.testbit (get l idx) k.
Proof. intros Hk. unfold late_test. rewrite land_bit_zero by lia. apply negb_involutive. Qed.

Lemma testbit_and_not (b k j : Z) :
  0 <= k -> 0 <= j < 8 ->
  Z.testbit (uint8_t (Z.land b (Z.lnot (Z.shiftl 1 k)))) j
  = if j =? k then false else Z.testbit b j.
Proof.
  intros Hk Hj. unfold uint8_t.
  rewrite Z.mod_pow2_bits_low, Z.land_spec, Z.lnot_spec, Z.shiftl_spec by lia.
  destruct (j =? k) eqn:E.
  - apply Z.eqb_eq in E. subst. rewrite Z.sub_diag. simpl. apply andb_false_r.
  - apply Z.eqb_neq in E. destruct (Z.lt_ge_cases j k).
    + rewrite (Z.testbit_neg_r 1 (j - k)) by lia. apply andb_true_r.
    + rewrite (Z.bits_above_log2 1 (j - k)) by (simpl; lia). apply andb_true_r.
Qed.

Lemma get_insert_eq (l : list Z) (i v : Z) :
  0 <= i < Z.of_nat (length l) -> get (<[Z.to_nat i := v]> l) i = v.
Proof.
  intros Hi. unfold get. rewrite nth_lookup, list_lookup_insert_eq; [reflexivity|lia].
Qed.

Lemma get_insert_ne (l : list Z) (i j v : Z) :
  0 <= i -> 0 <= j -> i <> j -> get (<[Z.to_nat i := v]> l) j = get l j.
Proof.
  intros Hi Hj Hne. unfold get. rewrite !nth_lookup, list_lookup_insert_ne; [reflexivity|lia].
Qed.

Lemma late_bit_and_not (l : list Z) (idx k p : Z) :
  0 <= idx < Z.of_nat (length l) -> 0 <= k < 8 -> 0 <= p ->
  late_bit (late_and_not l idx k) p
  = if (p / 8 =? idx) && (p mod 8 =? k) then false else late_bit l p.
Proof.
  intros Hidx Hk Hp. unfold late_bit, late_and_not.
  assert (0 <= p / 8) by (apply Z.div_pos; lia).
  assert (0 <= p mod 8 < 8) by (apply Z.mod_pos_bound; lia).
  destruct (p / 8 =? idx) eqn:E.
  - apply Z.eqb_eq in E. rewrite E, get_insert_eq, testbit_and_not by lia.
    simpl. reflexivity.
  - apply Z.eqb_neq in E. rewrite get_insert_ne by lia. reflexivity.
Qed.

Lemma get_repeat_zero (k : nat) (i : Z) : get (repeat 0 k) i = 0.
Proof.
  unfold get. generalize (Z.to_nat i). induction k; intros [|m]; simpl; auto.
Qed.

Lemma late_and_not_zero (k : nat) (idx j : Z) :
  late_and_not (repeat 0 k) idx j = repeat 0 k.
Proof.
  unfold late_and_not. rewrite get_repeat_zero. simpl.
  generalize (Z.to_nat idx). induction k; intros [|m]; simpl; auto.
  - f_equal. apply IHk.
Qed.

Lemma size_t_small (z : Z) : 0 <= z < 2 ^ 64 -> size_t z = z.
Proof. intros Hz. unfold size_t. apply Z.mod_small. lia. Qed.

Lemma uint32_t_small (z : Z) : 0 <= z < 2 ^ 32 -> uint32_t z = z.
Proof. intros Hz. unfold uint32_t. apply Z.mod_small. lia. Qed.

Lemma late_test_window (l : list Z) (B s : Z) :
  0 < B -> 0 <= s < 2 ^ 32 ->
  late_test l (size_t (s / 8) mod B) (s mod 8) = late_bit l (s mod (8 * B)).
Proof.
  intros HB Hs.
  assert (0 <= s / 8 < 2 ^ 64).
  { split; [apply Z.div_pos; lia|]. apply Z.div_lt_upper_bound; lia. }
  rewrite size_t_small by lia.
  rewrite late_test_bit by (apply Z.mod_pos_bound; lia).
  unfold late_bit.
  rewrite <- late_index_window, <- late_shift_window by lia. reflexivity.
Qed.

Lemma late_bit_cleared (l : list Z) (B s p : Z) :
  B = Z.of_nat (length l) -> 0 < B -> 0 <= s < 2 ^ 32 -> 0 <= p < 8 * B ->
  late_bit (late_and_not l (size_t (s / 8) mod B) (s mod 8)) p
  = if p =? s mod (8 * B) then false else late_bit l p.
Proof.
  intros HB HB0 Hs Hp.
  assert (0 <= s / 8 < 2 ^ 64).
  { split; [apply Z.div_pos; lia|]. apply Z.div_lt_upper_bound; lia. }
  rewrite size_t_small by lia.
  pose proof (Z.mod_pos_bound (s / 8) B HB0).
  pose proof (Z.mod_pos_bound s 8 ltac:(lia)).
  rewrite late_bit_and_not by lia.
  rewrite (late_index_window B s), (late_shift_window B s) by lia.
  set (q := s mod (8 * B)).
  destruct (p =? q) eqn:E.
  - apply Z.eqb_eq in E. subst p. rewrite !Z.eqb_refl. reflexivity.
  - apply Z.eqb_neq in E.
    destruct ((p / 8 =? q / 8) && (p mod 8 =? q mod 8)) eqn:E2; [|reflexivity].
    apply andb_true_iff in E2 as [E3 E4]. apply Z.eqb_eq in E3, E4.
    exfalso. apply E. rewrite (Z.div_mod p 8), (Z.div_mod q 8) by lia. lia.
Qed.

(** C3 (amended).  A packet with sequence number [s] at or below the last
    one received, [R], where [R + 1] does not wrap ([R < 2^32 - 1]): with
    [W] eight times the size of the late bitmap, the replay check lets it
    pass if and only if [s > R - W] and bit [s mod W] of the bitmap is set.
    When it passes, [R] stays, that bit is cleared and no other bit changes;
    otherwise the packet is dropped. *)
Theorem replay_window_late (n : node_t) (s : Z) :
  0 < sizeof_late n ->
  8 * sizeof_late n < 2 ^ 32 ->
  0 <= s <= received_seqno n ->
  received_seqno n < 2 ^ 32 - 1 ->
  (is_Some (check_sequence_number n s)
   <-> received_seqno n - 8 * sizeof_late n < s
       /\ late_bit (late n) (s mod (8 * sizeof_late n)) = true)
  /\ (forall n', check_sequence_number n s = Some n' ->
        received_seqno n' = received_seqno n
        /\ late_bit (late n') (s mod (8 * sizeof_late n)) = false
        /\ forall p, 0 <= p < 8 * sizeof_late n -> p <> s mod (8 * sizeof_late n) ->
             late_bit (late n') p = late_bit (late n) p).
Proof.
  intros HB HW Hs HR.
  set (R := received_seqno n) in *. set (B := sizeof_late n) in *.
  assert (Hchk : check_sequence_number n s =
    if (B * 8 <=? R) && (s <=? R - B * 8)
       || negb (late_bit (late n) (s mod (8 * B)))
    then None
    else Some (set_received_seqno R
                 (set_late (late_and_not (late n) (size_t (s / 8) mod B) (s mod 8)) n))).
  { unfold check_sequence_number. fold R B.
    rewrite (uint32_t_small (R + 1)) by lia.
    rewrite (size_t_small (B * 8)) by lia.
    rewrite (size_t_small (R + B * 8)) by lia.
    rewrite late_test_window by lia.
    replace (s =? R + 1) with false by (symmetry; apply Z.eqb_neq; lia).
    replace (R + B * 8 <=? s) with false by (symmetry; apply Z.leb_gt; lia).
    replace (s <=? R) with true by (symmetry; apply Z.leb_le; lia).
    replace (R <? s) with false by (symmetry; apply Z.ltb_ge; lia).
    simpl. destruct (B * 8 <=? R) eqn:E; simpl.
    - apply Z.leb_le in E. rewrite (size_t_small (R - B * 8)) by lia.
      destruct ((s <=? R - B * 8) || negb (late_bit (late n) (s mod (8 * B)))); reflexivity.
    - destruct (negb (late_bit (late n) (s mod (8 * B)))); reflexivity. }
  rewrite Hchk. split.
  - destruct (B * 8 <=? R) eqn:E1; destruct (s <=? R - B * 8) eqn:E2;
      destruct (late_bit (late n) (s mod (8 * B))) eqn:E3; simpl;
      try apply Z.leb_le in E1; try apply Z.leb_gt in E1;
      try apply Z.leb_le in E2; try apply Z.leb_gt in E2;
      split; try (intros [x Hx]; discriminate); try (intros [? ?]; congruence);
      try (intros [? ?]; lia); try (intros _; eauto); try (intros _; split; [lia|reflexivity]).
  - intros n' Hn'.
    destruct ((B * 8 <=? R) && (s <=? R - B * 8)
              || negb (late_bit (late n) (s mod (8 * B)))); [discriminate|].
    injection Hn' as <-. simpl. split; [reflexivity|].
    assert (0 <= s mod (8 * B) < 8 * B) by (apply Z.mod_pos_bound; lia).
    split.
    + rewrite late_bit_cleared by (unfold B, sizeof_late in *; lia).
      rewrite Z.eqb_refl. reflexivity.
    + intros p Hp Hne. rewrite late_bit_cleared by (unfold B, sizeof_late in *; lia).
      replace (p =? s mod (8 * B)) with false by (symmetry; apply Z.eqb_neq; lia).
      reflexivity.
Qed.

(** C4.  At the edges of the window: a packet with [s = R + W] passes, the
    whole late bitmap is zero afterwards and [R] has advanced to [s]; and
    when [R >= W], a packet with [s = R - W] is dropped. *)
Theorem replay_window_edges (n : node_t) :
  0 < sizeof_late n ->
  8 * sizeof_late n < 2 ^ 32 ->
  0 <= received_seqno n < 2 ^ 32 ->
  (received_seqno n + 8 * sizeof_late n < 2 ^ 32 ->
   exists n', check_sequence_number n (received_seqno n + 8 * sizeof_late n) = Some n'
     /\ late n' = repeat 0 (length (late n))
     /\ received_seqno n' = received_seqno n + 8 * sizeof_late n)
  /\ (8 * sizeof_late n <= received_seqno n ->
      check_sequence_number n (received_seqno n - 8 * sizeof_late n) = None).
Proof.
  intros HB HW HR.
  set (R := received_seqno n) in *. set (B := sizeof_late n) in *.
  split.
  - intros Hs. eexists. unfold check_sequence_number. fold R B.
    rewrite (uint32_t_small (R + 1)) by lia.
    rewrite (size_t_small (B * 8)) by lia.
    rewrite (size_t_small (R + B * 8)) by lia.
    replace (R + 8 * B =? R + 1) with false by (symmetry; apply Z.eqb_neq; lia).
    replace (R + B * 8 <=? R + 8 * B) with true by (symmetry; apply Z.leb_le; lia).
    replace (R <? R + 8 * B) with true by (symmetry; apply Z.ltb_lt; lia).
    simpl. split; [reflexivity|]. simpl. split; [|reflexivity].
    apply late_and_not_zero.
  - intros Hle.
    assert (Hne : (R - 8 * B =? uint32_t (R + 1)) = false).
    { apply Z.eqb_neq. destruct (Z.eq_dec R (2 ^ 32 - 1)) as [E|E].
      - rewrite E. replace (uint32_t (2 ^ 32 - 1 + 1)) with 0 by reflexivity. lia.
      - rewrite uint32_t_small by lia. lia. }
    unfold check_sequence_number. fold R B. rewrite Hne.
    rewrite (size_t_small (B * 8)) by lia.
    rewrite (size_t_small (R + B * 8)) by lia.
    rewrite (size_t_small (R - B * 8)) by lia.
    replace (R + B * 8 <=? R - 8 * B) with false by (symmetry; apply Z.leb_gt; lia).
    replace (R - 8 * B <=? R) with true by (symmetry; apply Z.leb_le; lia).
    replace (B * 8 <=? R) with true by (symmetry; apply Z.leb_le; lia).
    replace (R - 8 * B <=? R - B * 8) with true by (symmetry; apply Z.leb_le; lia).
    reflexivity.
Qed.

Lemma byte_at_range (x k : Z) : 0 <= byte_at x k < 256.
Proof. unfold byte_at. apply Z.mod_pos_bound. lia. Qed.

Lemma digits_div (r q : Z) : 0 <= r < 256 -> (r + 256 * q) / 256 = q.
Proof.
  intros Hr. rewrite (Z.mul_comm 256 q), Z.div_add by lia.
  rewrite Z.div_small by lia. lia.
Qed.

Lemma digits_mod (r q : Z) : 0 <= r < 256 -> (r + 256 * q) mod 256 = r.
Proof.
  intros Hr. rewrite (Z.mul_comm 256 q), Z.mod_add by lia.
  apply Z.mod_small. lia.
Qed.

Lemma le32_digits (a b c d : Z) :
  0 <= a < 256 -> 0 <= b < 256 -> 0 <= c < 256 -> 0 <= d < 256 ->
  le32 (a + 256 * b + 65536 * c + 16777216 * d) = [a; b; c; d].
Proof.
  intros Ha Hb Hc Hd.
  replace (a + 256 * b + 65536 * c + 16777216 * d)
    with (a + 256 * (b + 256 * (c + 256 * (d + 256 * 0)))) by lia.
  unfold le32, byte_at.
  change (2 ^ (8 * 0)) with 1. change (2 ^ (8 * 1)) with 256.
  change (2 ^ (8 * 2)) with (256 * 256). change (2 ^ (8 * 3)) with (256 * 256 * 256).
  rewrite Z.div_1_r, <- !Z.div_div by lia.
  rewrite !digits_div, !digits_mod by lia. reflexivity.
Qed.

Section ByteOrderFacts.
Context `{Host}.

Lemma image32_htonl (x : Z) : image32 (htonl x) = be32 x.
Proof.
  pose proof (byte_at_range x 0). pose proof (byte_at_range x 1).
  pose proof (byte_at_range x 2). pose proof (byte_at_range x 3).
  unfold htonl, image32, of_image32. destruct big_endian.
  - unfold of_be32, be32 at 2, get. simpl nth.
    generalize (le32_digits (byte_at x 0) (byte_at x 1) (byte_at x 2) (byte_at x 3)
                  ltac:(lia) ltac:(lia) ltac:(lia) ltac:(lia)).
    unfold le32, be32. intros E. injection E as E0 E1 E2 E3.
    rewrite E0, E1, E2, E3. reflexivity.
  - unfold of_le32, be32, get. simpl nth. apply le32_digits; lia.
Qed.
End ByteOrderFacts.

Lemma tighten_mtu_fields (origlen : Z) (n : node_t) :
  maxmtu (tighten_mtu origlen n) = (if origlen <=? maxmtu n then origlen - 1 else maxmtu n)
  /\ mtu (tighten_mtu origlen n) = (if origlen <=? mtu n then origlen - 1 else mtu n)
  /\ minmtu (tighten_mtu origlen n) = minmtu n
  /\ sent_seqno (tighten_mtu origlen n) = sent_seqno n
  /\ set_mtu (mtu n) (set_maxmtu (maxmtu n) (tighten_mtu origlen n)) = n.
Proof.
  unfold tighten_mtu. destruct n as [? ? ? ? ? ? ? ? ? ? ? ? ? ? ? ? m mi ma ?]. simpl.
  destruct (origlen <=? ma); simpl; destruct (origlen <=? m); simpl; auto.
Qed.

Section Egress.
Context `{Host} `{Constants} `{Crypto} `{Compression} `{Netutl}.
Variable g : globals.

Lemma heap_set_node_eq (w : world) (n : node_id) (v : node_t) :
  heap (set_node n v w) n = v.
Proof. unfold set_node. simpl. apply fn_lookup_insert. Qed.

Lemma heap_set_node_ne (w : world) (n m : node_id) (v : node_t) :
  m <> n -> heap (set_node n v w) m = heap w m.
Proof. intros Hne. unfold set_node. simpl. apply fn_lookup_insert_ne. congruence. Qed.

Lemma send_udppacket_no_key (w : world) (n : node_id) (origpkt : vpn_packet_t)
      (res : sendto_result) :
  validkey (status (heap w n)) = false ->
  send_udppacket g w n origpkt res =
  mk_udp_result (set_node n (set_waitingforkey true (heap w n)) w) origpkt
    ((if waitingforkey (status (heap w n)) then [] else [send_req_key n]) ++
     [send_tcppacket (connection (heap w (nexthop (heap w n)))) origpkt])
    exit_no_valid_key.
Proof.
  intros Hkey. unfold send_udppacket. rewrite Hkey. simpl negb. cbv iota.
  f_equal. f_equal. f_equal. f_equal.
  rewrite heap_set_node_eq. simpl nexthop.
  destruct (Nat.eq_dec (nexthop (heap w n)) n) as [E|E].
  - rewrite E, heap_set_node_eq. reflexivity.
  - rewrite heap_set_node_ne by exact E. reflexivity.
Qed.

Lemma transmit_spec (w : world) (n : node_id) (origlen origpriority : Z)
      (bytes : list Z) (blen : Z) (res : sendto_result) :
  exists tos fd blen2,
    snd (transmit g w n origlen origpriority bytes blen res)
    = tos ++ [sendto fd (bytes ++ mac_tail (heap w n) bytes) blen2 (address (heap w n))]
    /\ (tos = [] \/ tos = [setsockopt_IP_TOS fd origpriority])
    /\ heap (fst (transmit g w n origlen origpriority bytes blen res)) n
       = (if (ret res <? 0) && (errno res =? EMSGSIZE)
          then tighten_mtu origlen (heap w n) else heap w n)
    /\ (forall m, m <> n ->
          heap (fst (transmit g w n origlen origpriority bytes blen res)) m = heap w m).
Proof.
  unfold transmit, mac_tail.
  set (ls := nth _ (listen_socket g) no_socket).
  set (inherit := have_IP_TOS && priorityinheritance g && _ && _).
  assert (Hheap : forall prio nd2,
    heap (mk_world (<[n := nd2]> (heap w)) prio) n = nd2
    /\ forall m, m <> n -> heap (mk_world (<[n := nd2]> (heap w)) prio) m = heap w m).
  { intros prio nd2. simpl. split; [apply fn_lookup_insert|].
    intros m Hm. apply fn_lookup_insert_ne. congruence. }
  exists (if inherit then [setsockopt_IP_TOS (udp ls) origpriority] else []), (udp ls).
  destruct (digest_active (outdigest (heap w n))); cbv zeta; simpl fst; simpl snd;
    rewrite ?app_nil_r; eexists;
    (split; [destruct inherit; reflexivity|]; split; [destruct inherit; auto|];
     destruct (Hheap (if inherit then origpriority else static_priority w)
                 (if ret res <? 0
                  then if errno res =? EMSGSIZE then tighten_mtu origlen (heap w n) else heap w n
                  else heap w n)) as [E1 E2];
     split; [rewrite E1; destruct (ret res <? 0); destruct (errno res =? EMSGSIZE); reflexivity
            |exact E2]).
Qed.

Lemma region_numbered (s : Z) (p : vpn_packet_t) :
  region (set_len (len p + 4) (set_seqno (htonl s) p)) = numbered s (len p) (data p).
Proof. unfold region, numbered. simpl. rewrite image32_htonl. reflexivity. Qed.

Lemma send_udppacket_emits (w : world) (n : node_id) (origpkt : vpn_packet_t)
      (res : sendto_result) :
  let r := send_udppacket g w n origpkt res in
  let nd := heap w n in
  let s := uint32_t (sent_seqno nd + 1) in
  let plain := numbered s (fst (udp_payload nd origpkt)) (snd (udp_payload nd origpkt)) in
  u_exit r = exit_sendto ->
  exists bytes tos fd blen,
    (if cipher_active (outcipher nd)
     then cipher_encrypt (outcipher nd) plain = Some bytes
     else bytes = plain)
    /\ u_calls r = tos ++ [sendto fd (bytes ++ mac_tail nd bytes) blen (address nd)]
    /\ (tos = [] \/ tos = [setsockopt_IP_TOS fd (priority origpkt)])
    /\ heap (u_world r) n =
       (if (ret res <? 0) && (errno res =? EMSGSIZE)
        then tighten_mtu (len origpkt) (set_sent_seqno s nd)
        else set_sent_seqno s nd)
    /\ (forall m, m <> n -> heap (u_world r) m = heap w m).
Proof.
  intros r nd s plain. subst r plain. unfold send_udppacket. fold nd.
  destruct (negb (validkey (status nd))); [discriminate|].
  destruct (negb (Z.land (options nd) OPTION_PMTU_DISCOVERY =? 0) && (minmtu nd =? 0)
            && negb (Z.lor (get (data origpkt) 12) (get (data origpkt) 13) =? 0));
    [discriminate|].
  cbv zeta. fold s. simpl sent_seqno. simpl outcipher.
  assert (Hfin : forall (inpkt : vpn_packet_t) (restored : vpn_packet_t),
    let r := match
        (if cipher_active (outcipher nd) then
           match cipher_encrypt (outcipher nd)
                   (region (set_len (len inpkt + 4) (set_seqno (htonl s) inpkt))) with
           | Some out => Some (out, Z.of_nat (length out))
           | None => None
           end
         else Some (region (set_len (len inpkt + 4) (set_seqno (htonl s) inpkt)),
                    len (set_len (len inpkt + 4) (set_seqno (htonl s) inpkt))))
      with
      | Some (bytes, blen) =>
          let '(w2, calls) :=
            transmit g (set_node n (set_sent_seqno s nd) w) n (len origpkt)
              (priority origpkt) bytes blen res in
          mk_udp_result w2 restored calls exit_sendto
      | None => mk_udp_result (set_node n (set_sent_seqno s nd) w) restored [] exit_encrypt_error
      end in
    u_exit r = exit_sendto ->
    exists bytes tos fd blen,
      (if cipher_active (outcipher nd)
       then cipher_encrypt (outcipher nd) (numbered s (len inpkt) (data inpkt)) = Some bytes
       else bytes = numbered s (len inpkt) (data inpkt))
      /\ u_calls r = tos ++ [sendto fd (bytes ++ mac_tail nd bytes) blen (address nd)]
      /\ (tos = [] \/ tos = [setsockopt_IP_TOS fd (priority origpkt)])
      /\ heap (u_world r) n =
         (if (ret res <? 0) && (errno res =? EMSGSIZE)
          then tighten_mtu (len origpkt) (set_sent_seqno s nd)
          else set_sent_seqno s nd)
      /\ (forall m, m <> n -> heap (u_world r) m = heap w m)).
  { intros inpkt restored. rewrite region_numbered. cbv zeta.
    assert (Htr : forall bytes blen,
      let t := transmit g (set_node n (set_sent_seqno s nd) w) n (len origpkt)
                 (priority origpkt) bytes blen res in
      exists tos fd blen2,
        snd t = tos ++ [sendto fd (bytes ++ mac_tail nd bytes) blen2 (address nd)]
        /\ (tos = [] \/ tos = [setsockopt_IP_TOS fd (priority origpkt)])
        /\ heap (fst t) n =
           (if (ret res <? 0) && (errno res =? EMSGSIZE)
            then tighten_mtu (len origpkt) (set_sent_seqno s nd)
            else set_sent_seqno s nd)
        /\ (forall m, m <> n -> heap (fst t) m = heap w m)).
    { intros bytes blen t.
      destruct (transmit_spec (set_node n (set_sent_seqno s nd) w) n (len origpkt)
                  (priority origpkt) bytes blen res) as (tos & fd & blen2 & E1 & E2 & E3 & E4).
      rewrite heap_set_node_eq in *. exists tos, fd, blen2.
      repeat split; auto. intros m Hm. subst t. rewrite E4 by exact Hm.
      apply heap_set_node_ne. exact Hm. }
    destruct (cipher_active (outcipher nd)).
    - destruct (cipher_encrypt (outcipher nd) (numbered s (len inpkt) (data inpkt)))
        as [out|]; [|discriminate].
      intros _. specialize (Htr out (Z.of_nat (length out))). cbv zeta in Htr.
      destruct (transmit g (set_node n (set_sent_seqno s nd) w) n (len origpkt)
                  (priority origpkt) out (Z.of_nat (length out)) res) as [w2 calls].
      destruct Htr as (tos & fd & blen2 & E). exists out, tos, fd, blen2.
      split; [reflexivity|]. exact E.
    - intros _.
      specialize (Htr (numbered s (len inpkt) (data inpkt))
                    (len (set_len (len inpkt + 4) (set_seqno (htonl s) inpkt)))).
      cbv zeta in Htr.
      destruct (transmit g (set_node n (set_sent_seqno s nd) w) n (len origpkt)
                  (priority origpkt) (numbered s (len inpkt) (data inpkt))
                  (len (set_len (len inpkt + 4) (set_seqno (htonl s) inpkt))) res) as [w2 calls].
      destruct Htr as (tos & fd & blen2 & E). exists (numbered s (len inpkt) (data inpkt)), tos, fd, blen2.
      split; [reflexivity|]. exact E. }
  unfold udp_payload. destruct (outcompression nd =? 0).
  - apply Hfin.
  - destruct (compress_packet (data origpkt) (len origpkt) (outcompression nd)) as [l d].
    destruct (l <? 0); [discriminate|]. apply (Hfin (mk_packet l 0 0 d)).
Qed.
(** Every way out of send_udppacket, with what it did to the nodes. *)
Lemma send_udppacket_exits (w : world) (n : node_id) (origpkt : vpn_packet_t)
      (res : sendto_result) :
  let r := send_udppacket g w n origpkt res in
  let nd := heap w n in
  (forall m, m <> n -> heap (u_world r) m = heap w m)
  /\ match u_exit r with
     | exit_no_valid_key => heap (u_world r) n = set_waitingforkey true nd
     | exit_no_minmtu => heap (u_world r) n = nd
     | exit_compress_error =>
         heap (u_world r) n = nd /\ outcompression nd <> 0
         /\ fst (compress_packet (data origpkt) (len origpkt) (outcompression nd)) < 0
     | exit_encrypt_error =>
         heap (u_world r) n = set_sent_seqno (uint32_t (sent_seqno nd + 1)) nd
         /\ u_calls r = []
     | exit_sendto =>
         heap (u_world r) n =
         (if (ret res <? 0) && (errno res =? EMSGSIZE)
          then tighten_mtu (len origpkt) (set_sent_seqno (uint32_t (sent_seqno nd + 1)) nd)
          else set_sent_seqno (uint32_t (sent_seqno nd + 1)) nd)
     end.
Proof.
  intros r nd.
  destruct (u_exit r) eqn:Hexit.
  - subst r. unfold send_udppacket in *. fold nd in Hexit |- *.
    destruct (negb (validkey (status nd))).
    + simpl. split; [intros m Hm; apply fn_lookup_insert_ne; congruence|apply fn_lookup_insert].
    + exfalso. revert Hexit.
      repeat match goal with
             | |- context [if ?c then _ else _] => destruct c
             | |- context [match ?x with Some _ => _ | None => _ end] => destruct x
             | |- context [let '(_, _) := ?x in _] => destruct x
             end; simpl; discriminate.
  - subst r. unfold send_udppacket in *. fold nd in Hexit |- *.
    destruct (negb (validkey (status nd))); [discriminate|].
    destruct (negb (Z.land (options nd) OPTION_PMTU_DISCOVERY =? 0) && (minmtu nd =? 0)
              && negb (Z.lor (get (data origpkt) 12) (get (data origpkt) 13) =? 0)).
    + simpl. auto.
    + exfalso. revert Hexit.
      repeat match goal with
             | |- context [if ?c then _ else _] => destruct c
             | |- context [match ?x with Some _ => _ | None => _ end] => destruct x
             | |- context [let '(_, _) := ?x in _] => destruct x
             end; simpl; discriminate.
  - subst r. unfold send_udppacket in *. fold nd in Hexit |- *.
    destruct (negb (validkey (status nd))); [discriminate|].
    destruct (negb (Z.land (options nd) OPTION_PMTU_DISCOVERY =? 0) && (minmtu nd =? 0)
              && negb (Z.lor (get (data origpkt) 12) (get (data origpkt) 13) =? 0));
      [discriminate|].
    cbv zeta in *.
    destruct (outcompression nd =? 0) eqn:Hc.
    + exfalso. revert Hexit.
      repeat match goal with
             | |- context [if ?c then _ else _] => destruct c
             | |- context [match ?x with Some _ => _ | None => _ end] => destruct x
             | |- context [let '(_, _) := ?x in _] => destruct x
             end; simpl; discriminate.
    + apply Z.eqb_neq in Hc.
      destruct (compress_packet (data origpkt) (len origpkt) (outcompression nd)) as [l d].
      destruct (l <? 0) eqn:Hl.
      * apply Z.ltb_lt in Hl. simpl. auto.
      * exfalso. revert Hexit.
        repeat match goal with
               | |- context [if ?c then _ else _] => destruct c
               | |- context [match ?x with Some _ => _ | None => _ end] => destruct x
               | |- context [let '(_, _) := ?x in _] => destruct x
               end; simpl; discriminate.
  - subst r. unfold send_udppacket in *. fold nd in Hexit |- *.
    destruct (negb (validkey (status nd))); [discriminate|].
    destruct (negb (Z.land (options nd) OPTION_PMTU_DISCOVERY =? 0) && (minmtu nd =? 0)
              && negb (Z.lor (get (data origpkt) 12) (get (data origpkt) 13) =? 0));
      [discriminate|].
    cbv zeta in *.
    match goal with
    | |- context [match ?c with Some _ => _ | None => _ end] => destruct c as [[inpkt aliased]|]
    end; [|discriminate].
    match goal with
    | |- context [match ?c with Some _ => _ | None => _ end] => destruct c as [[bytes blen]|]
    end.
    + exfalso. destruct (transmit _ _ _ _ _ _ _ _). discriminate.
    + simpl. split; [|split; [apply fn_lookup_insert|reflexivity]].
      intros m Hm. apply fn_lookup_insert_ne. congruence.
  - destruct (send_udppacket_emits w n origpkt res Hexit)
      as (bytes & tos & fd & blen & _ & _ & _ & E1 & E2).
    split; assumption.
Qed.

(** C6.  send_udppacket to a peer without a valid key: no sendto; a key
    request exactly when [waitingforkey] was not set, then the unmodified
    frame to send_tcppacket on the connection of the next hop;
    [waitingforkey] is true afterwards and nothing else of the peer changes:
    the peer is the record of its old fields with that one flag, so in
    particular [sent_seqno] and [validkey] are as before; no other peer and
    not the frame changes. *)
Theorem no_valid_key_goes_tcp (w : world) (n : node_id) (origpkt : vpn_packet_t)
        (res : sendto_result) :
  validkey (status (heap w n)) = false ->
  let r := send_udppacket g w n origpkt res in
  let nd := heap w n in
  (forall fd buf blen dest, ~ In (sendto fd buf blen dest) (u_calls r))
  /\ u_calls r =
     (if waitingforkey (status (heap w n)) then [] else [send_req_key n])
     ++ [send_tcppacket (connection (heap w (nexthop (heap w n)))) origpkt]
  /\ heap (u_world r) n = set_waitingforkey true (heap w n)
  /\ (forall m, m <> n -> heap (u_world r) m = heap w m)
  /\ sent_seqno (heap (u_world r) n) = sent_seqno (heap w n)
  /\ u_origpkt r = origpkt
  /\ waitingforkey (status (heap (u_world r) n)) = true
  /\ validkey (status (heap (u_world r) n)) = false
  /\ heap (u_world r) n =
     mk_node (options nd)
       (mk_status (reachable (status nd)) (validkey (status nd)) true)
       (address nd) (incipher nd) (outcipher nd) (indigest nd) (outdigest nd)
       (inmaclength nd) (incompression nd) (outcompression nd)
       (nexthop nd) (via nd) (connection nd)
       (sent_seqno nd) (received_seqno nd) (late nd)
       (mtu nd) (minmtu nd) (maxmtu nd) (mtuprobes nd)
  /\ static_priority (u_world r) = static_priority w.
Proof.
  intros Hkey r nd. subst r. rewrite send_udppacket_no_key by exact Hkey.
  cbn [u_calls u_world u_origpkt].
  assert (Hn : heap (set_node n (set_waitingforkey true (heap w n)) w) n
               = set_waitingforkey true (heap w n)) by apply heap_set_node_eq.
  rewrite Hn.
  split; [|split; [reflexivity|split; [reflexivity|split; [|split; [reflexivity|]]]]].
  - intros fd buf blen dest Hin. apply in_app_or in Hin.
    destruct Hin as [Hin|[Hin|[]]]; [|discriminate].
    destruct (waitingforkey (status (heap w n))); [destruct Hin|].
    destruct Hin as [Hin|[]]. discriminate.
  - intros m Hm. apply heap_set_node_ne. exact Hm.
  - split; [reflexivity|]. split; [reflexivity|]. split; [exact Hkey|].
    split; reflexivity.
Qed.


(** C8 (amended).  A send whose sendto fails with EMSGSIZE, for a frame of
    length [origlen]: [maxmtu] becomes [origlen - 1] if it was at least
    [origlen], and so does [mtu]; [sent_seqno] was advanced by one when the
    frame was numbered; no other field of the peer and no other peer
    changes; the frame went into that one sendto and nowhere else. *)
Theorem emsgsize_tightens_mtu (w : world) (n : node_id) (origpkt : vpn_packet_t)
        (res : sendto_result) :
  let r := send_udppacket g w n origpkt res in
  let nd := heap w n in
  let nd' := heap (u_world r) n in
  let origlen := len origpkt in
  u_exit r = exit_sendto -> ret res < 0 -> errno res = EMSGSIZE ->
  maxmtu nd' = (if origlen <=? maxmtu nd then origlen - 1 else maxmtu nd)
  /\ mtu nd' = (if origlen <=? mtu nd then origlen - 1 else mtu nd)
  /\ sent_seqno nd' = uint32_t (sent_seqno nd + 1)
  /\ set_sent_seqno (sent_seqno nd) (set_mtu (mtu nd) (set_maxmtu (maxmtu nd) nd')) = nd
  /\ (forall m, m <> n -> heap (u_world r) m = heap w m)
  /\ exists tos fd buf blen,
       u_calls r = tos ++ [sendto fd buf blen (address nd)]
       /\ (tos = [] \/ tos = [setsockopt_IP_TOS fd (priority origpkt)]).
Proof.
  intros r nd nd' origlen Hexit Hret Herr.
  destruct (send_udppacket_emits w n origpkt res Hexit)
    as (bytes & tos & fd & blen & _ & E2 & E3 & E4 & E5).
  fold r nd in E2, E4, E5. fold nd' in E4.
  replace (ret res <? 0) with true in E4 by (symmetry; apply Z.ltb_lt; exact Hret).
  replace (errno res =? EMSGSIZE) with true in E4 by (symmetry; apply Z.eqb_eq; exact Herr).
  simpl in E4.
  destruct (tighten_mtu_fields origlen (set_sent_seqno (uint32_t (sent_seqno nd + 1)) nd))
    as (T1 & T2 & _ & T4 & T5).
  rewrite E4. split; [exact T1|]. split; [exact T2|]. split; [exact T4|].
  split; [|split; [exact E5|]].
  - fold origlen. simpl in T5. simpl. rewrite T5. destruct nd; reflexivity.
  - exists tos, fd, (bytes ++ mac_tail nd bytes), blen. split; assumption.
Qed.

(** C10.  compress_packet at level 10 or 11 never gives the failure value:
    its result is not negative.  So a send that leaves through the
    compression error has a level below 10 that is not 0: one of the zlib
    levels, 1 to 9, among the levels 0 to 11. *)
Theorem lzo_compression_never_fails :
  (forall (source : list Z) (len level : Z),
      level = 10 \/ level = 11 -> 0 <= fst (compress_packet source len level))
  /\ (forall w n origpkt res,
        u_exit (send_udppacket g w n origpkt res) = exit_compress_error ->
        outcompression (heap w n) <> 0 /\ outcompression (heap w n) < 10
        /\ (0 <= outcompression (heap w n) -> 1 <= outcompression (heap w n) <= 9)).
Proof.
  assert (Hlzo : forall source len level,
             10 <= level -> 0 <= fst (compress_packet source len level)).
  { intros source len level Hlevel. unfold compress_packet.
    destruct (level =? 10).
    - destruct (lzo1x_1_compress _) as [[rc dest] lzolen]. simpl. lia.
    - replace (level <? 10) with false by (symmetry; apply Z.ltb_ge; lia).
      destruct (lzo1x_999_compress _) as [[rc dest] lzolen]. simpl. lia. }
  split.
  - intros source len level [-> | ->]; apply Hlzo; lia.
  - intros w n origpkt res Hexit.
    pose proof (send_udppacket_exits w n origpkt res) as [_ Hex].
    cbv zeta in Hex. rewrite Hexit in Hex. destruct Hex as (_ & Hne & Hneg).
    destruct (Z.lt_ge_cases (outcompression (heap w n)) 10) as [Hlt|Hge]; [lia|].
    specialize (Hlzo (data origpkt) (len origpkt) _ Hge). lia.
Qed.

(** C2 (amended).  receive_tcppacket makes one call, route for the node of
    the connection, with a frame of the given length whose bytes are the
    buffer's and whose priority is 0 when the connection has
    OPTION_TCPONLY and -1 otherwise; no digest or cipher is involved. *)
Theorem receive_tcppacket_routes (c : connection_t) (buffer : list Z) (len : Z)
        (outpkt : vpn_packet_t) :
  receive_tcppacket c buffer len outpkt =
  [route (c_node c)
     (mk_packet len
        (if Z.land (c_options c) OPTION_TCPONLY =? 0 then -1 else 0)
        (seqno outpkt)
        (firstn (Z.to_nat len) buffer ++ skipn (Z.to_nat len) (data outpkt)))].
Proof.
  unfold receive_tcppacket, receive_packet.
  destruct (Z.land (c_options c) OPTION_TCPONLY =? 0); reflexivity.
Qed.
End Egress.

Section Ingress.
Context `{Host} `{Constants} `{Crypto} `{Compression} `{Netutl}.
Variable g : globals.

Lemma send_udppacket_calls (w : world) (n : node_id) (origpkt : vpn_packet_t)
      (res : sendto_result) :
  forall c, In c (u_calls (send_udppacket g w n origpkt res)) -> ~ ingress_call c.
Proof.
  intros c.
  destruct (u_exit (send_udppacket g w n origpkt res)) eqn:Hexit.
  5: { destruct (send_udppacket_emits g w n origpkt res Hexit)
         as (bytes & tos & fd & blen & _ & E & [-> | ->] & _);
       rewrite E; simpl; intros Hin; repeat destruct Hin as [<-|Hin]; auto. }
  all: revert Hexit; unfold send_udppacket;
    destruct (negb (validkey (status (heap w n))));
    [ simpl; intros _ Hin; destruct (waitingforkey (status (heap w n)));
      simpl in Hin; repeat destruct Hin as [<-|Hin]; auto | ];
    destruct (negb (Z.land (options (heap w n)) OPTION_PMTU_DISCOVERY =? 0)
              && (minmtu (heap w n) =? 0)
              && negb (Z.lor (get (data origpkt) 12) (get (data origpkt) 13) =? 0));
    [ simpl; intros _ Hin; repeat destruct Hin as [<-|Hin]; auto | ];
    cbv zeta;
    repeat match goal with
           | |- context [match ?x with Some _ => _ | None => _ end] =>
               destruct x as [[? ?]|]
           end;
    try (destruct (transmit _ _ _ _ _ _ _ _)); simpl; try discriminate;
    intros _ [].
Qed.

Lemma send_packet_calls (w : world) (n : node_id) (packet : vpn_packet_t)
      (tcp_ok : bool) (res : sendto_result) :
  forall c, In c (snd (send_packet g w n packet tcp_ok res)) -> ~ ingress_call c.
Proof.
  intros c. unfold send_packet.
  destruct (Nat.eqb n (myself g)).
  { simpl. intros Hin. repeat destruct Hin as [<-|Hin]; auto. }
  destruct (negb (reachable (status (heap w n)))); [intros []|].
  cbv zeta.
  match goal with |- context [if ?c then (w, _) else _] => destruct c end.
  - destruct tcp_ok; simpl; intros Hin; repeat destruct Hin as [<-|Hin]; auto.
  - simpl. apply send_udppacket_calls.
Qed.

Lemma mtu_probe_h_calls (w : world) (n : node_id) (packet : vpn_packet_t) (len : Z)
      (tcp_ok : bool) (res : sendto_result) :
  forall c, In c (snd (mtu_probe_h g w n packet len tcp_ok res)) -> ~ ingress_call c.
Proof.
  intros c. unfold mtu_probe_h. destruct (get (data packet) 0 =? 0).
  - apply send_packet_calls.
  - intros [].
Qed.

(** What receive_udppacket can make of a packet: nothing that moves an
    address, and a route call only past the checks on [inpkt]. *)
Lemma receive_udppacket_calls (w : world) (n : node_id) (inpkt pkt2 : vpn_packet_t)
      (tcp_ok : bool) (res : sendto_result) :
  forall c, In c (snd (receive_udppacket g w n inpkt pkt2 tcp_ok res)) ->
    match c with
    | update_node_udp _ _ => False
    | route m _ =>
        m = n
        /\ cipher_active (incipher (heap w n)) = true
        /\ 4 + digest_length (indigest (heap w n)) <= len inpkt
        /\ (digest_active (indigest (heap w n)) = true ->
            digest_verify (indigest (heap w n)) inpkt = true)
    | _ => True
    end.
Proof.
  intros c. unfold receive_udppacket.
  destruct (cipher_active (incipher (heap w n))) eqn:Hc; [|intros []]. simpl negb. cbv iota.
  destruct (len inpkt <? 4 + digest_length (indigest (heap w n))) eqn:Hl; [intros []|].
  apply Z.ltb_ge in Hl.
  destruct (digest_active (indigest (heap w n)) && negb (digest_verify (indigest (heap w n)) inpkt))
    eqn:Hd; [intros []|].
  assert (Hver : digest_active (indigest (heap w n)) = true ->
                 digest_verify (indigest (heap w n)) inpkt = true).
  { intros Ha. rewrite Ha in Hd. simpl in Hd. apply negb_false_iff in Hd. exact Hd. }
  destruct (cipher_decrypt _ _) as [out|]; [|intros []].
  cbv zeta. destruct (check_sequence_number _ _) as [nd1|]; [|intros []].
  set (rekey := if MAX_SEQNO <? received_seqno nd1 then [regenerate_key] else []).
  assert (Hrekey : forall c, In c rekey -> c = regenerate_key).
  { intros c' Hin. subst rekey. destruct (MAX_SEQNO <? received_seqno nd1);
      [destruct Hin as [<-|[]]; reflexivity|destruct Hin]. }
  match goal with
  | |- context [match ?d with Some _ => _ | None => _ end] => destruct d as [[inpkt2 origlen2]|]
  end.
  - match goal with |- context [if ?c then _ else _] => destruct c end.
    + pose proof (mtu_probe_h_calls (set_node n nd1 w) n (set_priority 0 inpkt2)
                    origlen2 tcp_ok res c) as Hp.
      destruct (mtu_probe_h _ _ _ _ _ _ _) as [w2 calls]. simpl in *.
      intros Hin. apply in_app_or in Hin. destruct Hin as [Hin|Hin].
      * rewrite (Hrekey _ Hin). exact I.
      * specialize (Hp Hin). destruct c; simpl in Hp; auto; contradiction.
    + simpl. intros Hin. apply in_app_or in Hin. destruct Hin as [Hin|Hin].
      * rewrite (Hrekey _ Hin). exact I.
      * destruct Hin as [<-|[]]. auto.
  - simpl. intros Hin. rewrite (Hrekey _ Hin). exact I.
Qed.

(** The peer the loop of try_harder ends with: the target of the first
    edge at the address whose MAC check accepts the packet; when there is
    none, the candidate it started with, or without one the target of the
    first edge at the address. *)
Lemma try_harder_from_first (w : world) (from : sockaddr_t) (pkt : vpn_packet_t)
      (edges : list edge_t) (cand : option node_id) (n : node_id) :
  try_harder_from w edges from pkt cand = Some n ->
  (exists pre e post,
      edges = pre ++ e :: post /\ matches from e /\ to e = n
      /\ try_mac (heap w n) pkt = true
      /\ forall e', In e' pre -> matches from e' -> try_mac (heap w (to e')) pkt = false)
  \/ ((forall e', In e' edges -> matches from e' -> try_mac (heap w (to e')) pkt = false)
      /\ (cand = Some n
          \/ cand = None
             /\ exists pre e post,
                  edges = pre ++ e :: post /\ matches from e /\ to e = n
                  /\ forall e', In e' pre -> ~ matches from e')).
Proof.
  revert cand. induction edges as [|e rest IH]; intros cand; simpl.
  - intros ->. right. split; [intros e []|left; reflexivity].
  - destruct (sockaddrcmp_noport from (e_address e) =? 0) eqn:Hm; simpl.
    + apply Z.eqb_eq in Hm.
      destruct (try_mac (heap w (to e)) pkt) eqn:Hmac; simpl.
      * intros [= <-]. left. exists [], e, rest. repeat split; auto. intros e' [].
      * intros Hres.
        destruct (IH _ Hres) as [(pre & e1 & post & -> & Hm1 & Hto & Hok & Hpre)|[Hno Hcand]].
        -- left. exists (e :: pre), e1, post. repeat split; auto.
           intros e' [<-|Hin] Hm'; [exact Hmac|apply Hpre; assumption].
        -- right. split.
           { intros e' [<-|Hin] Hm'; [exact Hmac|apply Hno; assumption]. }
           destruct cand as [c|].
           ++ destruct Hcand as [Hc|[Hc _]]; [left; exact Hc|discriminate].
           ++ destruct Hcand as [[= Hc]|[Hc _]]; [|discriminate].
              right. split; [reflexivity|]. exists [], e, rest. repeat split; auto.
    + apply Z.eqb_neq in Hm. intros Hres.
      destruct (IH _ Hres) as [(pre & e1 & post & -> & Hm1 & Hto & Hok & Hpre)|[Hno Hcand]].
      * left. exists (e :: pre), e1, post. repeat split; auto.
        intros e' [<-|Hin] Hm'; [contradiction|apply Hpre; assumption].
      * right. split.
        { intros e' [<-|Hin] Hm'; [contradiction|apply Hno; assumption]. }
        destruct Hcand as [Hc|[Hc (pre & e1 & post & -> & Hm1 & Hto & Hpre)]];
          [left; exact Hc|].
        right. split; [exact Hc|]. exists (e :: pre), e1, post. repeat split; auto.
        intros e' [<-|Hin]; [exact Hm|apply Hpre; exact Hin].
Qed.
(** The loop stops at the first edge at the address whose MAC check
    accepts the packet, whatever the candidate so far. *)
Lemma try_harder_from_verified (w : world) (from : sockaddr_t) (pkt : vpn_packet_t)
      (pre post : list edge_t) (e : edge_t) (cand : option node_id) :
  matches from e -> try_mac (heap w (to e)) pkt = true ->
  (forall e', In e' pre -> matches from e' -> try_mac (heap w (to e')) pkt = false) ->
  try_harder_from w (pre ++ e :: post) from pkt cand = Some (to e).
Proof.
  intros Hm Hmac. unfold matches in Hm. revert cand.
  induction pre as [|e0 pre IH]; intros cand Hpre; simpl.
  - rewrite Hm. simpl. rewrite Hmac. reflexivity.
  - destruct (sockaddrcmp_noport from (e_address e0) =? 0) eqn:Hcmp; simpl.
    + apply Z.eqb_eq in Hcmp. rewrite (Hpre e0 (or_introl eq_refl) Hcmp). simpl.
      apply IH. intros e' Hin. apply Hpre. right. exact Hin.
    + apply IH. intros e' Hin. apply Hpre. right. exact Hin.
Qed.

(** When no MAC check accepts the packet the loop keeps its candidate. *)
Lemma try_harder_from_keeps (w : world) (from : sockaddr_t) (pkt : vpn_packet_t)
      (edges : list edge_t) (c : node_id) :
  (forall e', In e' edges -> matches from e' -> try_mac (heap w (to e')) pkt = false) ->
  try_harder_from w edges from pkt (Some c) = Some c.
Proof.
  induction edges as [|e0 rest IH]; intros Hall; simpl; [reflexivity|].
  destruct (sockaddrcmp_noport from (e_address e0) =? 0) eqn:Hcmp; simpl.
  - apply Z.eqb_eq in Hcmp. rewrite (Hall e0 (or_introl eq_refl) Hcmp). simpl.
    apply IH. intros e' Hin. apply Hall. right. exact Hin.
  - apply IH. intros e' Hin. apply Hall. right. exact Hin.
Qed.

(** And without a candidate it takes the first edge at the address. *)
Lemma try_harder_from_unverified (w : world) (from : sockaddr_t) (pkt : vpn_packet_t)
      (pre post : list edge_t) (e : edge_t) :
  matches from e ->
  (forall e', In e' (pre ++ e :: post) -> matches from e' ->
     try_mac (heap w (to e')) pkt = false) ->
  (forall e', In e' pre -> ~ matches from e') ->
  try_harder_from w (pre ++ e :: post) from pkt None = Some (to e).
Proof.
  intros Hm. induction pre as [|e0 pre IH]; intros Hall Hpre; simpl.
  - pose proof Hm as Hm'. unfold matches in Hm'. rewrite Hm'. simpl.
    rewrite (Hall e (or_introl eq_refl) Hm). simpl.
    apply try_harder_from_keeps. intros e' Hin. apply Hall. right. exact Hin.
  - replace (sockaddrcmp_noport from (e_address e0) =? 0) with false.
    + simpl. apply IH.
      * intros e' Hin. apply Hall. right. exact Hin.
      * intros e' Hin. apply Hpre. right. exact Hin.
    + symmetry. apply Z.eqb_neq. apply (Hpre e0). left. reflexivity.
Qed.

Lemma try_harder_from_unmatched (w : world) (from : sockaddr_t) (pkt : vpn_packet_t)
      (edges : list edge_t) (cand : option node_id) :
  (forall e', In e' edges -> ~ matches from e') ->
  try_harder_from w edges from pkt cand = cand.
Proof.
  induction edges as [|e0 rest IH]; intros Hall; simpl; [reflexivity|].
  replace (sockaddrcmp_noport from (e_address e0) =? 0) with false.
  - simpl. apply IH. intros e' Hin. apply Hall. right. exact Hin.
  - symmetry. apply Z.eqb_neq. apply (Hall e0). left. reflexivity.
Qed.

(** C1 (amended).  A datagram from an address that lookup_node_udp does not
    know.  try_harder gives the target of the first edge with that address,
    port aside, whose peer's MAC check (try_mac) accepts the packet; when no
    such peer accepts it, the target of the first edge with that address;
    and no peer only when no edge has the address.  These are all the cases,
    and the peer try_harder gives is always one of the two kinds.  For the
    peer it gives, handle_incoming_vpn_data records the observed address
    (update_node_udp, whether the MAC was checked or not) and then does what
    receive_udppacket does for that peer and the datagram, in the state
    with the new address; it does nothing when try_harder gives no peer.  A
    packet reaches route only for that peer, and only if the peer's digest
    is inactive or verifies the packet. *)
Theorem try_harder_resolution (w : world) (pkt pkt2 : vpn_packet_t) (rlen : Z)
        (buf : list Z) (from : sockaddr_t) (tcp_ok : bool) (res : sendto_result) :
  let from1 := sockaddrunmap from in
  let pkt1 := set_len rlen (stored pkt buf) in
  let r := handle_incoming_vpn_data g w pkt pkt2 rlen buf from tcp_ok res in
  let calls := snd r in
  lookup_node_udp from1 = None ->
  (* the peer try_harder gives *)
  (forall pre e post,
     edge_weight_tree g = pre ++ e :: post -> matches from1 e ->
     (try_mac (heap w (to e)) pkt1 = true ->
      (forall e', In e' pre -> matches from1 e' ->
         try_mac (heap w (to e')) pkt1 = false) ->
      try_harder g w from1 pkt1 = Some (to e))
     /\ ((forall e', In e' (edge_weight_tree g) -> matches from1 e' ->
            try_mac (heap w (to e')) pkt1 = false) ->
         (forall e', In e' pre -> ~ matches from1 e') ->
         try_harder g w from1 pkt1 = Some (to e)))
  /\ ((forall e', In e' (edge_weight_tree g) -> ~ matches from1 e') ->
      try_harder g w from1 pkt1 = None)
  /\ (forall n, try_harder g w from1 pkt1 = Some n ->
     exists pre e post,
       edge_weight_tree g = pre ++ e :: post /\ matches from1 e /\ to e = n
       /\ (try_mac (heap w n) pkt1 = true
           /\ (forall e', In e' pre -> matches from1 e' ->
                 try_mac (heap w (to e')) pkt1 = false)
           \/ (forall e', In e' (edge_weight_tree g) -> matches from1 e' ->
                 try_mac (heap w (to e')) pkt1 = false)
              /\ (forall e', In e' pre -> ~ matches from1 e')))
  (* what is done for it *)
  /\ (0 <= rlen -> forall n, try_harder g w from1 pkt1 = Some n ->
        let w1 := do_update_node_udp w n from1 in
        let rr := receive_udppacket g w1 n pkt1 pkt2 tcp_ok res in
        r = (fst rr, update_node_udp n from1 :: snd rr)
        /\ address (heap w1 n) = from1
        /\ set_address (address (heap w n)) (heap w1 n) = heap w n
        /\ (forall m, m <> n -> heap w1 m = heap w m))
  /\ (try_harder g w from1 pkt1 = None -> r = (w, []))
  /\ (forall n a, In (update_node_udp n a) calls ->
        a = from1 /\ try_harder g w from1 pkt1 = Some n)
  /\ (0 <= rlen -> forall n, try_harder g w from1 pkt1 = Some n ->
        exists rest, calls = update_node_udp n from1 :: rest)
  /\ (forall n p, In (route n p) calls ->
        try_harder g w from1 pkt1 = Some n
        /\ (digest_active (indigest (heap w n)) = true ->
            digest_verify (indigest (heap w n)) pkt1 = true)).
Proof.
  intros from1 pkt1 r calls Hlookup.
  split.
  { intros pre e post E Hm. unfold try_harder. rewrite E. split.
    - intros Hmac Hpre. apply try_harder_from_verified; assumption.
    - intros Hall Hpre. apply try_harder_from_unverified; assumption. }
  split.
  { intros Hnone. unfold try_harder. apply try_harder_from_unmatched. exact Hnone. }
  split.
  { intros n Hn. unfold try_harder in Hn.
    destruct (try_harder_from_first _ _ _ _ _ _ Hn)
      as [(pre & e & post & E & Hm & Hto & Hok & Hpre)
         |[Hno [Hc|[_ (pre & e & post & E & Hm & Hto & Hpre)]]]]; [|discriminate|].
    - exists pre, e, post. repeat split; auto.
    - exists pre, e, post. repeat split; auto. }
  subst calls r. unfold handle_incoming_vpn_data. fold from1 pkt1.
  destruct (rlen <? 0) eqn:Hneg.
  { apply Z.ltb_lt in Hneg. cbn [fst snd].
    split; [intros; lia|]. split; [reflexivity|].
    split; [intros n a []|]. split; [intros; lia|]. intros n p []. }
  rewrite Hlookup.
  destruct (try_harder g w from1 pkt1) as [n|] eqn:Hth.
  2: { cbn [fst snd]. split; [intros _ n; discriminate|]. split; [reflexivity|].
       split; [intros n a []|]. split; [intros _ n; discriminate|]. intros n p []. }
  pose proof (receive_udppacket_calls (do_update_node_udp w n from1) n pkt1 pkt2 tcp_ok res)
    as Hcalls.
  assert (Hnode : heap (do_update_node_udp w n from1) n = set_address from1 (heap w n))
    by apply heap_set_node_eq.
  rewrite Hnode in Hcalls. simpl indigest in Hcalls.
  split.
  { intros _ m [= <-]. cbv zeta. rewrite Hnode.
    destruct (receive_udppacket _ _ _ _ _ _ _) as [w2 rcalls]. cbn [fst snd].
    split; [reflexivity|]. split; [reflexivity|].
    split; [destruct (heap w n); reflexivity|].
    intros m Hm. unfold do_update_node_udp. apply heap_set_node_ne. exact Hm. }
  destruct (receive_udppacket _ _ _ _ _ _ _) as [w2 rcalls]. cbn [fst snd] in *.
  split; [discriminate|].
  split; [|split].
  - intros m a [[= <- <-]|Hin]; [auto|]. exfalso. exact (Hcalls _ Hin).
  - intros _ m [= <-]. eexists. reflexivity.
  - intros m p [Hin|Hin]; [discriminate|].
    destruct (Hcalls _ Hin) as (-> & _ & _ & Hver). split; [reflexivity|exact Hver].
Qed.
End Ingress.

Lemma check_sequence_number_fields (n n1 : node_t) (s : Z) :
  check_sequence_number n s = Some n1 ->
  set_received_seqno (received_seqno n) (set_late (late n) n1) = n.
Proof.
  unfold check_sequence_number.
  match goal with |- context [match ?c with Some _ => _ | None => _ end] => destruct c end;
    [|discriminate].
  intros [= <-]. destruct n; reflexivity.
Qed.

Section Probes.
Context `{Host} `{Constants} `{Crypto} `{Compression} `{Netutl}.
Variable g : globals.

(** C9 (amended).  A probe reply that passes the checks of
    receive_udppacket: a payload [d] of [l] bytes, at least 14, so that
    bytes 12 and 13 are bytes of the payload, both of them zero and byte 0
    not zero.  Let [L] be the length received after decryption, less the 4
    bytes of the sequence number, and less [MTU / 64 + 20] when inbound
    compression is on: the length before decompression, not after.  Then
    [minmtu] becomes [L] if [L] is greater and stays otherwise; nothing else
    changes after the sequence number check. *)
Theorem probe_reply_raises_minmtu (w : world) (n : node_id) (inpkt pkt2 : vpn_packet_t)
        (tcp_ok : bool) (res : sendto_result) (out : list Z) (nd1 : node_t)
        (l : Z) (d : list Z) :
  let nd := heap w n in
  let received := Z.of_nat (length out) - 4 in
  let L := if incompression nd =? 0 then received else received - (MTU / 64 + 20) in
  let w' := fst (receive_udppacket g w n inpkt pkt2 tcp_ok res) in
  cipher_active (incipher nd) = true ->
  4 + digest_length (indigest nd) <= len inpkt ->
  (digest_active (indigest nd) = true -> digest_verify (indigest nd) inpkt = true) ->
  cipher_decrypt (incipher nd) (region inpkt) = Some out ->
  check_sequence_number nd (ntohl (of_image32 (firstn 4 out))) = Some nd1 ->
  (if incompression nd =? 0 then (l, d) = (received, skipn 4 out)
   else uncompress_packet (skipn 4 out) received (incompression nd) = (l, d) /\ 0 <= l) ->
  14 <= l <= Z.of_nat (length d) ->
  get d 12 = 0 -> get d 13 = 0 -> get d 0 <> 0 ->
  minmtu (heap w' n) = (if minmtu nd <? L then L else minmtu nd)
  /\ heap w' n = set_minmtu (if minmtu nd <? L then L else minmtu nd) nd1
  /\ (forall m, m <> n -> heap w' m = heap w m).
Proof.
  intros nd received L w' Hc Hlen Hver Hdec Hseq Hpay _ H12 H13 Hreply.
  pose proof (check_sequence_number_fields _ _ _ Hseq) as Hf.
  assert (Hmin : minmtu nd1 = minmtu nd) by (rewrite <- Hf; reflexivity).
  assert (Hcomp : incompression nd1 = incompression nd) by (rewrite <- Hf; reflexivity).
  assert (Hw' : w' = if minmtu nd <? L
                     then set_node n (set_minmtu L nd1) (set_node n nd1 w)
                     else set_node n nd1 w).
  { subst w'. unfold receive_udppacket. fold nd. rewrite Hc. simpl negb. cbv iota.
    replace (len inpkt <? 4 + digest_length (indigest nd)) with false
      by (symmetry; apply Z.ltb_ge; exact Hlen).
    replace (digest_active (indigest nd) && negb (digest_verify (indigest nd) inpkt))
      with false.
    2: { destruct (digest_active (indigest nd)); [|reflexivity].
         rewrite Hver by reflexivity. reflexivity. }
    rewrite Hdec. cbv zeta. simpl seqno. simpl len. simpl data. rewrite Hseq.
    rewrite Hcomp. fold received.
    assert (Hprobe : forall p rekey,
      data p = d -> 
      (let '(w2, calls) :=
         mtu_probe_h g (set_node n nd1 w) n (set_priority 0 p) L tcp_ok res in
       (w2, rekey ++ calls)).1
      = if minmtu nd <? L
        then set_node n (set_minmtu L nd1) (set_node n nd1 w)
        else set_node n nd1 w).
    { intros p rekey Hp. unfold mtu_probe_h. simpl data. rewrite Hp.
      replace (get d 0 =? 0) with false by (symmetry; apply Z.eqb_neq; exact Hreply).
      rewrite heap_set_node_eq, Hmin. destruct (minmtu nd <? L); reflexivity. }
    subst L. destruct (incompression nd =? 0).
    - injection Hpay as -> ->. simpl data. rewrite H12, H13. simpl.
      apply Hprobe. reflexivity.
    - destruct Hpay as [Hun Hl]. rewrite Hun.
      replace (l <? 0) with false by (symmetry; apply Z.ltb_ge; exact Hl).
      simpl data. rewrite H12, H13. simpl. apply Hprobe. reflexivity. }
  rewrite Hw'. destruct (minmtu nd <? L).
  - rewrite heap_set_node_eq. split; [reflexivity|]. split; [reflexivity|].
    intros m Hm. rewrite !heap_set_node_ne by exact Hm. reflexivity.
  - rewrite heap_set_node_eq. split; [exact Hmin|]. split.
    + rewrite <- Hmin. destruct nd1; reflexivity.
    + intros m Hm. apply heap_set_node_ne. exact Hm.
Qed.
End Probes.

Section Mtu.
Context `{Host} `{Constants} `{Crypto} `{Compression} `{Netutl}.
Variable g : globals.

Lemma send_udppacket_ordered (w : world) (v n : node_id) (origpkt : vpn_packet_t)
      (res : sendto_result) :
  ordered (heap w n) ->
  (emsgsize res -> minmtu (heap w n) < len origpkt) ->
  ordered (heap (u_world (send_udppacket g w v origpkt res)) n).
Proof.
  intros Hord Hguard.
  pose proof (send_udppacket_exits g w v origpkt res) as [Hother Hex]. cbv zeta in *.
  destruct (Nat.eq_dec n v) as [->|Hne]; [|rewrite Hother by exact Hne; exact Hord].
  destruct (u_exit _).
  - rewrite Hex. exact Hord.
  - rewrite Hex. exact Hord.
  - destruct Hex as [-> _]. exact Hord.
  - destruct Hex as [-> _]. exact Hord.
  - rewrite Hex. destruct (ret res <? 0) eqn:Hret; [|exact Hord].
    destruct (errno res =? EMSGSIZE) eqn:Herr; [|exact Hord]. simpl.
    apply Z.ltb_lt in Hret. apply Z.eqb_eq in Herr.
    specialize (Hguard (conj Hret Herr)).
    destruct (tighten_mtu_fields (len origpkt)
                (set_sent_seqno (uint32_t (sent_seqno (heap w v) + 1)) (heap w v)))
      as (T1 & T2 & T3 & _).
    unfold ordered in *. rewrite T1, T2, T3. simpl.
    destruct (len origpkt <=? maxmtu (heap w v)) eqn:E1;
      destruct (len origpkt <=? mtu (heap w v)) eqn:E2;
      try apply Z.leb_le in E1; try apply Z.leb_gt in E1;
      try apply Z.leb_le in E2; try apply Z.leb_gt in E2; lia.
Qed.

Lemma send_packet_ordered (w : world) (n m : node_id) (packet : vpn_packet_t)
      (tcp_ok : bool) (res : sendto_result) :
  ordered (heap w n) ->
  (emsgsize res -> minmtu (heap w n) < len packet) ->
  ordered (heap (fst (send_packet g w m packet tcp_ok res)) n).
Proof.
  intros Hord Hguard. unfold send_packet.
  destruct (Nat.eqb m (myself g)); [exact Hord|].
  destruct (negb (reachable (status (heap w m)))); [exact Hord|].
  cbv zeta. match goal with |- context [if ?c then (w, _) else _] => destruct c end;
    [exact Hord|].
  simpl. apply send_udppacket_ordered; assumption.
Qed.

Lemma probe_rounds_ordered (k : nat) (i : Z) (w : world) (n : node_id)
      (packet : vpn_packet_t) (rnd : Z -> N) (rbytes : Z -> list Z)
      (res : Z -> sendto_result) :
  ordered (heap w n) ->
  ordered (heap (fst (probe_rounds g k i w n packet rnd rbytes res)) n).
Proof.
  revert i w packet. induction k as [|k IH]; intros i w packet Hord; simpl.
  - exact Hord.
  - destruct ((30 <=? mtuprobes (heap w n)) || (maxmtu (heap w n) <=? minmtu (heap w n)))
      eqn:Hfix.
    + simpl. rewrite fn_lookup_insert. unfold ordered in *. simpl. lia.
    + apply orb_false_iff in Hfix as [_ Hlt]. apply Z.leb_gt in Hlt.
      match goal with
      | |- context [send_udppacket g w n ?p ?r] =>
          pose proof (send_udppacket_ordered w n n p r Hord) as Hsent;
          set (sent := send_udppacket g w n p r) in *
      end.
      simpl len in Hsent.
      assert (Hord' : ordered (heap (u_world sent) n)).
      { apply Hsent. intros _.
        pose proof (Z.rem_nonneg (Z.of_N (rnd i)) (maxmtu (heap w n) - minmtu (heap w n))
                      ltac:(lia) (N2Z.is_nonneg (rnd i))).
        destruct (_ <? 64) eqn:E; [apply Z.ltb_lt in E|apply Z.ltb_ge in E]; lia. }
      specialize (IH (i + 1) (u_world sent) (u_origpkt sent) Hord').
      destruct (probe_rounds g k (i + 1) (u_world sent) n (u_origpkt sent) rnd rbytes res).
      exact IH.
Qed.

Lemma mtu_step_ordered (n : node_id) (w : world) (ev : mtu_event) :
  ordered (heap w n) -> admissible n w ev -> ordered (heap (mtu_step g n w ev) n).
Proof.
  intros Hord Hadm. destruct ev as [packet l tcp_ok res|packet rnd rbytes res|packet res];
    simpl in *.
  - unfold mtu_probe_h. destruct (get (data packet) 0 =? 0).
    + apply send_packet_ordered; [exact Hord|exact Hadm].
    + simpl. destruct (minmtu (heap w n) <? l) eqn:E; [|exact Hord].
      rewrite heap_set_node_eq. unfold ordered in *. simpl. lia.
  - unfold send_mtu_probe_handler. cbv zeta.
    match goal with |- context [if ?c then _ else _] => destruct c end.
    + simpl. rewrite fn_lookup_insert. exact Hord.
    + apply probe_rounds_ordered. rewrite heap_set_node_eq. exact Hord.
  - apply send_udppacket_ordered; assumption.
Qed.

(** C5 (amended).  If a peer has [minmtu <= mtu <= maxmtu], it still has
    after any sequence of probe receptions, probe emissions and UDP sends
    in which every probe reply is no longer than the current [mtu] and
    every frame whose sendto fails with EMSGSIZE is longer than the current
    [minmtu]. *)
Theorem mtu_order_kept (n : node_id) (w : world) (evs : list mtu_event) :
  ordered (heap w n) ->
  admissible_run g n w evs ->
  ordered (heap (mtu_run g n w evs) n).
Proof.
  revert w. induction evs as [|ev rest IH]; intros w Hord Hadm; simpl.
  - exact Hord.
  - destruct Hadm as [Hev Hrest]. apply IH; [|exact Hrest].
    apply mtu_step_ordered; assumption.
Qed.
End Mtu.

(** * Examples

    The statements above at the sample instance, and the inputs that mark
    their limits. *)

(** Frames 1 to 5 arriving as 1, 2, 4, 5, 3 all pass, 3 from the window;
    a second 3 does not. *)
Example reordered_then_replayed :
  let fresh := set_received_seqno 0 (set_late (repeat 0 16) Sample.peer) in
  let '(n, passed) := check_all fresh [1; 2; 4; 5; 3; 3] in
  passed = [true; true; true; true; true; false]
  /\ received_seqno n = 5 /\ late n = repeat 0 16.
Proof. vm_compute. repeat split; reflexivity. Qed.

(** On a little-endian host htonl swaps the four bytes. *)
Example htonl_little_endian : @htonl Sample.host 1 = 16777216.
Proof. reflexivity. Qed.

Section Examples.
#[local] Existing Instances Sample.host Sample.constants Sample.crypto
  Sample.compression Sample.netutl.

Lemma try_harder_resolution_witness :
  let w := Sample.world_of Sample.stranger in
  let buf := be32 301 ++ Sample.reply 60 in
  let pkt1 := set_len 64 (stored Sample.blank buf) in
  lookup_node_udp (sockaddrunmap Sample.new_address) = None
  /\ try_harder Sample.g w (sockaddrunmap Sample.new_address) pkt1 = Some 1%nat
  /\ exists rest,
       snd (handle_incoming_vpn_data Sample.g w Sample.blank Sample.blank 64 buf
              Sample.new_address true Sample.sent)
       = update_node_udp 1%nat Sample.new_address :: rest.
Proof.
  intros w buf pkt1.
  assert (Hnone : lookup_node_udp (sockaddrunmap Sample.new_address) = None) by reflexivity.
  split; [exact Hnone|].
  destruct (try_harder_resolution Sample.g w Sample.blank Sample.blank 64 buf
              Sample.new_address true Sample.sent Hnone)
    as (Hgives & _ & _ & _ & _ & _ & Hupd & _).
  assert (Hth : try_harder Sample.g w (sockaddrunmap Sample.new_address) pkt1 = Some 1%nat).
  { apply (proj2 (Hgives [] (mk_edge Sample.old_address 1%nat) [] eq_refl eq_refl)).
    - intros e' [<-|[]] _. reflexivity.
    - intros e' []. }
  split; [exact Hth|].
  apply (Hupd ltac:(lia) 1%nat). exact Hth.
Defined.

(** A datagram from a new port of a known host.  The only peer at that
    host has a digest that rejects it: its address is updated all the same.
    And when the peer has no digest, so that try_mac fails, the frame is
    routed. *)
Lemma try_harder_updates_unverified :
  let buf := be32 301 ++ data (Sample.frame 60) in
  let pkt1 := set_len 64 (stored Sample.blank buf) in
  let arrives (n : node_t) :=
    snd (handle_incoming_vpn_data Sample.g (Sample.world_of n) Sample.blank Sample.blank
           64 buf Sample.new_address true Sample.sent) in
  lookup_node_udp (sockaddrunmap Sample.new_address) = None
  /\ try_mac Sample.stranger pkt1 = false
  /\ In (update_node_udp 1%nat Sample.new_address) (arrives Sample.stranger)
  /\ try_mac Sample.peer pkt1 = false
  /\ arrives Sample.peer
     = [update_node_udp 1%nat Sample.new_address;
        route 1%nat (mk_packet 60 0 301 (data (Sample.frame 60)))].
Proof.
  intros buf pkt1 arrives. split; [reflexivity|]. split; [reflexivity|].
  split; [vm_compute; left; reflexivity|]. split; [reflexivity|].
  vm_compute. reflexivity.
Qed.

(** A connection with OPTION_TCPONLY: the frame is routed with priority 0,
    not -1. *)
Lemma receive_tcppacket_tcponly_priority :
  let c := mk_connection 2 1%nat in
  Z.land (c_options c) OPTION_TCPONLY <> 0
  /\ receive_tcppacket c [1; 2; 3] 3 Sample.blank = [route 1%nat (mk_packet 3 0 0 [1; 2; 3])]
  /\ priority (mk_packet 3 0 0 [1; 2; 3]) <> -1.
Proof. intros c. split; [|split]; vm_compute; congruence. Qed.

Lemma replay_window_late_witness :
  is_Some (check_sequence_number Sample.peer 250)
  /\ forall n', check_sequence_number Sample.peer 250 = Some n' ->
       received_seqno n' = 300.
Proof.
  assert (H1 : 0 < sizeof_late Sample.peer) by (vm_compute; reflexivity).
  assert (H2 : 8 * sizeof_late Sample.peer < 2 ^ 32) by (vm_compute; reflexivity).
  assert (H3 : 0 <= 250 <= received_seqno Sample.peer) by (vm_compute; split; discriminate).
  assert (H4 : received_seqno Sample.peer < 2 ^ 32 - 1) by (vm_compute; reflexivity).
  destruct (replay_window_late Sample.peer 250 H1 H2 H3 H4) as [Hiff Hacc].
  split.
  - apply Hiff. vm_compute. split; reflexivity.
  - intros n' Hn'. apply (Hacc n' Hn').
Defined.

(** With [R = 2^32 - 1] the next sequence number is 0: it is below [R], far
    outside the window, and passes. *)
Lemma replay_accepts_zero_after_wrap :
  let n := set_received_seqno (2 ^ 32 - 1) Sample.peer in
  0 <= 0 <= received_seqno n
  /\ is_Some (check_sequence_number n 0)
  /\ ~ (received_seqno n - 8 * sizeof_late n < 0
        /\ late_bit (late n) (0 mod (8 * sizeof_late n)) = true).
Proof.
  intros n. split; [vm_compute; split; discriminate|]. split.
  - vm_compute. eauto.
  - intros [Hlt _]. vm_compute in Hlt. discriminate.
Qed.

Lemma replay_window_edges_witness :
  (exists n', check_sequence_number Sample.peer 428 = Some n'
              /\ late n' = repeat 0 16 /\ received_seqno n' = 428)
  /\ check_sequence_number Sample.peer 172 = None.
Proof.
  assert (H1 : 0 < sizeof_late Sample.peer) by (vm_compute; reflexivity).
  assert (H2 : 8 * sizeof_late Sample.peer < 2 ^ 32) by (vm_compute; reflexivity).
  assert (H3 : 0 <= received_seqno Sample.peer < 2 ^ 32) by (vm_compute; split; congruence).
  destruct (replay_window_edges Sample.peer H1 H2 H3) as [Hhigh Hlow].
  split.
  - apply Hhigh. vm_compute. reflexivity.
  - apply Hlow. vm_compute. discriminate.
Defined.

(** A reply of 600 bytes, an EMSGSIZE for a frame of 1400, then a reply of
    1450 bytes: all three estimates are set and [minmtu] is above the
    others. *)
Lemma mtu_order_broken :
  let evs := [probe_received (Sample.datagram 0 (Sample.reply 600)) 600 true Sample.sent;
              frame_sent (Sample.frame 1400) Sample.too_long;
              probe_received (Sample.datagram 0 (Sample.reply 1450)) 1450 true Sample.sent] in
  let w := Sample.world_of Sample.peer in
  let n' := heap (mtu_run Sample.g 1%nat w evs) 1%nat in
  ordered (heap w 1%nat) /\ all_set n' /\ ~ ordered n'.
Proof.
  intros evs w n'.
  assert (E1 : minmtu n' = 1450) by (vm_compute; reflexivity).
  assert (E2 : mtu n' = 1399) by (vm_compute; reflexivity).
  assert (E3 : maxmtu n' = 1399) by (vm_compute; reflexivity).
  unfold ordered, all_set. rewrite E1, E2, E3.
  split; [vm_compute; split; discriminate|]. split; [lia|lia].
Qed.

Lemma mtu_order_kept_witness :
  let evs := [probe_received (Sample.datagram 0 (Sample.reply 600)) 600 true Sample.sent;
              frame_sent (Sample.frame 1400) Sample.too_long;
              probes_emitted Sample.blank (fun _ => 5%N) (fun _ => []) (fun _ => Sample.sent)] in
  let w := Sample.world_of Sample.peer in
  ordered (heap w 1%nat) /\ ordered (heap (mtu_run Sample.g 1%nat w evs) 1%nat).
Proof.
  intros evs w.
  assert (Hord : ordered (heap w 1%nat)) by (vm_compute; split; discriminate).
  split; [exact Hord|].
  apply (mtu_order_kept Sample.g 1%nat w evs Hord).
  split; [vm_compute; discriminate|]. split; [intros _; vm_compute; reflexivity|].
  split; exact I.
Defined.

Lemma no_valid_key_goes_tcp_witness :
  let w := Sample.world_of Sample.keyless in
  let r := send_udppacket Sample.g w 1%nat (Sample.frame 100) Sample.sent in
  validkey (status (heap w 1%nat)) = false
  /\ waitingforkey (status (heap w 1%nat)) = false
  /\ u_calls r = [send_req_key 1%nat; send_tcppacket 5%nat (Sample.frame 100)]
  /\ waitingforkey (status (heap (u_world r) 1%nat)) = true.
Proof.
  intros w r.
  assert (Hkey : validkey (status (heap w 1%nat)) = false) by reflexivity.
  split; [exact Hkey|]. split; [reflexivity|].
  destruct (no_valid_key_goes_tcp Sample.g w 1%nat (Sample.frame 100) Sample.sent Hkey)
    as (_ & Hcalls & _ & _ & _ & _ & Hflag & _).
  split; [exact Hcalls|exact Hflag].
Defined.



Lemma emsgsize_tightens_mtu_witness :
  let w := Sample.world_of Sample.peer in
  let r := send_udppacket Sample.g w 1%nat (Sample.frame 1400) Sample.too_long in
  (u_exit r = exit_sendto /\ ret Sample.too_long < 0 /\ errno Sample.too_long = EMSGSIZE)
  /\ maxmtu (heap (u_world r) 1%nat) = 1399 /\ mtu (heap (u_world r) 1%nat) = 1399.
Proof.
  intros w r.
  assert (H1 : u_exit r = exit_sendto) by reflexivity.
  assert (H2 : ret Sample.too_long < 0) by reflexivity.
  assert (H3 : errno Sample.too_long = EMSGSIZE) by reflexivity.
  split; [auto|].
  destruct (emsgsize_tightens_mtu Sample.g w 1%nat (Sample.frame 1400) Sample.too_long
              H1 H2 H3) as (Hmax & Hmtu & _).
  split; [exact Hmax|exact Hmtu].
Defined.

(** The send that fails with EMSGSIZE has changed a third field of the
    peer: putting [mtu] and [maxmtu] back does not give the peer as it was. *)
Lemma emsgsize_send_advances_seqno :
  let w := Sample.world_of Sample.peer in
  let r := send_udppacket Sample.g w 1%nat (Sample.frame 1400) Sample.too_long in
  let nd := heap w 1%nat in
  let nd' := heap (u_world r) 1%nat in
  u_exit r = exit_sendto /\ ret Sample.too_long < 0 /\ errno Sample.too_long = EMSGSIZE
  /\ set_mtu (mtu nd) (set_maxmtu (maxmtu nd) nd') <> nd.
Proof.
  intros w r nd nd'. split; [reflexivity|]. split; [reflexivity|]. split; [reflexivity|].
  intros E. apply (f_equal sent_seqno) in E. vm_compute in E. discriminate.
Qed.

Lemma probe_reply_raises_minmtu_witness :
  let w := Sample.world_of Sample.peer in
  let inpkt := Sample.datagram 301 (Sample.reply 60) in
  minmtu (heap w 1%nat) = 0
  /\ minmtu (heap (fst (receive_udppacket Sample.g w 1%nat inpkt Sample.blank
                          true Sample.sent)) 1%nat) = 60.
Proof.
  intros w inpkt. split; [reflexivity|].
  destruct (probe_reply_raises_minmtu Sample.g w 1%nat inpkt Sample.blank true Sample.sent
              (be32 301 ++ Sample.reply 60)
              (default Sample.peer (check_sequence_number Sample.peer 301))
              60 (Sample.reply 60))
    as (Hmin & _).
  - reflexivity.
  - vm_compute. discriminate.
  - vm_compute. discriminate.
  - reflexivity.
  - reflexivity.
  - reflexivity.
  - split; vm_compute; discriminate.
  - reflexivity.
  - reflexivity.
  - vm_compute. discriminate.
  - exact Hmin.
Defined.

(** A compressed probe reply of 60 bytes that decompresses to 159 bytes, for
    a peer with a [minmtu] of 50: [minmtu] does not become 159. *)
Lemma probe_reply_compressed :
  let w := Sample.world_of Sample.squeezed in
  let inpkt := Sample.datagram 301 (Sample.reply 60) in
  let '(l, d) := uncompress_packet (Sample.reply 60) 60 (incompression Sample.squeezed) in
  let w' := fst (receive_udppacket Sample.g w 1%nat inpkt Sample.blank true Sample.sent) in
  l = 159 /\ get d 12 = 0 /\ get d 13 = 0 /\ get d 0 = 1
  /\ minmtu (heap w 1%nat) < l
  /\ minmtu (heap w' 1%nat) <> l.
Proof. vm_compute. repeat split; congruence. Qed.

Lemma lzo_compression_never_fails_witness :
  (10 = 10 \/ 10 = 11) /\ 0 <= fst (compress_packet [1; 2; 3] 3 10).
Proof.
  destruct (lzo_compression_never_fails Sample.g) as [Hlzo _].
  split; [left; reflexivity|]. apply Hlzo. left. reflexivity.
Defined.
End Examples.

(** * Further facts *)

Lemma testbit_or_bit (b k j : Z) :
  0 <= k -> 0 <= j < 8 ->
  Z.testbit (uint8_t (Z.lor b (Z.shiftl 1 k))) j = (j =? k) || Z.testbit b j.
Proof.
  intros Hk Hj. unfold uint8_t.
  rewrite Z.mod_pow2_bits_low, Z.lor_spec, Z.shiftl_spec by lia.
  destruct (j =? k) eqn:E.
  - apply Z.eqb_eq in E. subst. rewrite Z.sub_diag. simpl. apply orb_true_r.
  - apply Z.eqb_neq in E. simpl. destruct (Z.lt_ge_cases j k).
    + rewrite (Z.testbit_neg_r 1 (j - k)) by lia. apply orb_false_r.
    + rewrite (Z.bits_above_log2 1 (j - k)) by (simpl; lia). apply orb_false_r.
Qed.

Lemma late_bit_or (l : list Z) (idx k p : Z) :
  0 <= idx < Z.of_nat (length l) -> 0 <= k < 8 -> 0 <= p ->
  late_bit (late_or l idx k) p
  = (p / 8 =? idx) && (p mod 8 =? k) || late_bit l p.
Proof.
  intros Hidx Hk Hp. unfold late_bit, late_or.
  assert (0 <= p / 8) by (apply Z.div_pos; lia).
  assert (0 <= p mod 8 < 8) by (apply Z.mod_pos_bound; lia).
  destruct (p / 8 =? idx) eqn:E.
  - apply Z.eqb_eq in E. rewrite E, get_insert_eq, testbit_or_bit by lia. reflexivity.
  - apply Z.eqb_neq in E. rewrite get_insert_ne by lia. reflexivity.
Qed.

(** Byte and bit of a sequence number against its position in the window. *)
Lemma window_position (B u p : Z) :
  0 < B -> 0 <= u -> 0 <= p < 8 * B ->
  (p / 8 =? (u / 8) mod B) && (p mod 8 =? u mod 8) = (p =? u mod (8 * B)).
Proof.
  intros HB Hu Hp.
  rewrite (late_index_window B u), (late_shift_window B u) by lia.
  set (q := u mod (8 * B)).
  destruct (p =? q) eqn:E.
  - apply Z.eqb_eq in E. subst p. rewrite !Z.eqb_refl. reflexivity.
  - apply Z.eqb_neq in E.
    destruct ((p / 8 =? q / 8) && (p mod 8 =? q mod 8)) eqn:E2; [|reflexivity].
    apply andb_true_iff in E2 as [E3 E4]. apply Z.eqb_eq in E3, E4.
    exfalso. apply E. rewrite (Z.div_mod p 8), (Z.div_mod q 8) by lia. lia.
Qed.

Lemma int32_small (u : Z) : 0 <= u < 2 ^ 31 -> int32 u = u.
Proof. intros Hu. unfold int32. rewrite Z.mod_small by lia. lia. Qed.

Lemma in_Zrange (lo hi u : Z) : In u (Zrange lo hi) <-> lo <= u < hi.
Proof.
  unfold Zrange. rewrite in_map_iff. split.
  - intros (k & <- & Hk). apply in_seq in Hk. lia.
  - intros Hu. exists (Z.to_nat (u - lo)). split; [lia|]. apply in_seq. lia.
Qed.

Lemma length_late_or (l : list Z) (idx k : Z) : length (late_or l idx k) = length l.
Proof. unfold late_or. apply length_insert. Qed.

Lemma length_late_and_not (l : list Z) (idx k : Z) : length (late_and_not l idx k) = length l.
Proof. unfold late_and_not. apply length_insert. Qed.

(** The marking loop sets the bits of the numbers it runs over and leaves
    the other bits. *)
Lemma mark_late_bits (l : list Z) (us : list Z) (p : Z) :
  let B := Z.of_nat (length l) in
  let l' := fold_left
              (fun l u => let i := int32 u in
                          late_or l (size_t (Z.quot i 8) mod B) (Z.rem i 8)) us l in
  0 < B -> 0 <= p < 8 * B ->
  (forall u, In u us -> 0 <= u < 2 ^ 31) ->
  length l' = length l
  /\ late_bit l' p = late_bit l p || existsb (fun u => p =? u mod (8 * B)) us.
Proof.
  intros B l' HB Hp. subst l'. revert l B HB Hp.
  induction us as [|u us IH]; intros l B HB Hp Hus; simpl.
  - split; [reflexivity|]. rewrite orb_false_r. reflexivity.
  - assert (Hu : 0 <= u < 2 ^ 31) by (apply Hus; left; reflexivity).
    rewrite int32_small by exact Hu.
    rewrite Z.quot_div_nonneg, Z.rem_mod_nonneg by lia.
    assert (0 <= u / 8 < 2 ^ 64).
    { split; [apply Z.div_pos; lia|]. apply Z.div_lt_upper_bound; lia. }
    rewrite size_t_small by lia.
    pose proof (Z.mod_pos_bound (u / 8) B HB).
    pose proof (Z.mod_pos_bound u 8 ltac:(lia)).
    set (l1 := late_or l ((u / 8) mod B) (u mod 8)).
    assert (Hlen : length l1 = length l) by apply length_late_or.
    specialize (IH l1). cbv zeta in IH. rewrite Hlen in IH. fold B in IH.
    assert (Hus' : forall v, In v us -> 0 <= v < 2 ^ 31)
      by (intros v Hv; apply Hus; right; exact Hv).
    destruct (IH HB Hp Hus') as [IH1 IH2].
    split; [exact IH1|].
    rewrite IH2. unfold l1. rewrite late_bit_or by (fold B; lia).
    rewrite window_position by lia.
    destruct (late_bit l p); destruct (p =? u mod (8 * B)); reflexivity.
Qed.

(** The four arms of the check, away from the wrap-around. *)
Lemma check_sequence_number_arms (n : node_t) (s : Z) :
  let R := received_seqno n in
  let B := sizeof_late n in
  let clear l := late_and_not l (size_t (s / 8) mod B) (s mod 8) in
  let upd r l := set_received_seqno r (set_late l n) in
  0 < B -> 8 * B < 2 ^ 31 -> 0 <= R < 2 ^ 31 -> 0 <= s < 2 ^ 31 ->
  check_sequence_number n s =
  if s =? R + 1 then Some (upd s (clear (late n)))
  else if R + 8 * B <=? s then Some (upd s (clear (repeat 0 (length (late n)))))
  else if s <=? R then
    if (8 * B <=? R) && (s <=? R - 8 * B) || negb (late_bit (late n) (s mod (8 * B)))
    then None
    else Some (upd R (clear (late n)))
  else Some (upd s (clear (mark_late B (late n) (R + 1) s))).
Proof.
  intros R B clear upd HB HW HR Hs. unfold check_sequence_number. fold R B.
  rewrite (uint32_t_small (R + 1)) by lia.
  rewrite (size_t_small (B * 8)) by lia.
  rewrite (size_t_small (R + B * 8)) by lia.
  rewrite late_test_window by lia.
  replace (B * 8) with (8 * B) by lia.
  destruct (s =? R + 1) eqn:E1; simpl.
  { apply Z.eqb_eq in E1. replace (R <? s) with true by (symmetry; apply Z.ltb_lt; lia).
    reflexivity. }
  apply Z.eqb_neq in E1.
  destruct (R + 8 * B <=? s) eqn:E2.
  { apply Z.leb_le in E2. replace (R <? s) with true by (symmetry; apply Z.ltb_lt; lia).
    reflexivity. }
  destruct (s <=? R) eqn:E3.
  - apply Z.leb_le in E3.
    replace (R <? s) with false by (symmetry; apply Z.ltb_ge; lia).
    destruct (8 * B <=? R) eqn:E4; simpl.
    + apply Z.leb_le in E4. rewrite (size_t_small (R - 8 * B)) by lia.
      destruct ((s <=? R - 8 * B) || negb (late_bit (late n) (s mod (8 * B)))); reflexivity.
    + destruct (negb (late_bit (late n) (s mod (8 * B)))); reflexivity.
  - apply Z.leb_gt in E3. replace (R <? s) with true by (symmetry; apply Z.ltb_lt; lia).
    reflexivity.
Qed.

Lemma mod_shift_ne (W x d : Z) : 0 < d < W -> (x + d) mod W <> x mod W.
Proof.
  intros Hd E.
  assert (Hz : ((x + d) - x) mod W = 0).
  { rewrite Zminus_mod, E, Z.sub_diag. apply Z.mod_0_l. lia. }
  replace (x + d - x) with d in Hz by lia. rewrite Z.mod_small in Hz by lia. lia.
Qed.

Lemma mark_late_window (l : list Z) (lo hi p : Z) :
  let B := Z.of_nat (length l) in
  0 < B -> 0 <= p < 8 * B -> 0 <= lo -> hi <= 2 ^ 31 ->
  length (mark_late B l lo hi) = length l
  /\ late_bit (mark_late B l lo hi) p
     = late_bit l p || existsb (fun u => p =? u mod (8 * B)) (Zrange lo hi).
Proof.
  intros B HB Hp Hlo Hhi. unfold mark_late.
  apply (mark_late_bits l (Zrange lo hi) p HB Hp).
  intros u Hu. apply in_Zrange in Hu. lia.
Qed.

Lemma check_ahead (n : node_t) (s : Z) :
  let R := received_seqno n in
  let W := 8 * sizeof_late n in
  0 < sizeof_late n -> W < 2 ^ 31 -> 0 <= R ->
  R < s < R + W -> s < 2 ^ 31 ->
  exists n',
    check_sequence_number n s = Some n'
    /\ received_seqno n' = s
    /\ late_bit (late n') (s mod W) = false
    /\ (forall u, R < u < s -> late_bit (late n') (u mod W) = true)
    /\ (forall p, 0 <= p < W -> (forall u, R < u <= s -> u mod W <> p) ->
          late_bit (late n') p = late_bit (late n) p).
Proof.
  intros R W HB HW HR Hs Hs31.
  pose proof (check_sequence_number_arms n s HB HW ltac:(fold R; lia) ltac:(lia)) as Harms.
  cbv zeta in Harms. fold R in Harms.
  replace (R + 8 * sizeof_late n <=? s) with false in Harms
    by (symmetry; apply Z.leb_gt; fold W; lia).
  replace (s <=? R) with false in Harms by (symmetry; apply Z.leb_gt; lia).
  set (B := sizeof_late n) in *.
  assert (HBlen : B = Z.of_nat (length (late n))) by reflexivity.
  assert (Hsw : 0 <= s mod W < W) by (apply Z.mod_pos_bound; lia).
  (* the bitmap before the final clearing *)
  set (l1 := if s =? R + 1 then late n else mark_late B (late n) (R + 1) s).
  assert (Hl1 : length l1 = length (late n)
                /\ forall p, 0 <= p < W ->
                     late_bit l1 p
                     = late_bit (late n) p
                       || existsb (fun u => p =? u mod W) (Zrange (R + 1) s)).
  { subst l1. destruct (s =? R + 1) eqn:E.
    - apply Z.eqb_eq in E. split; [reflexivity|]. intros p Hp.
      replace (Zrange (R + 1) s) with (@nil Z); [simpl; rewrite orb_false_r; reflexivity|].
      unfold Zrange. replace (s - (R + 1)) with 0 by lia. reflexivity.
    - split.
      + apply (mark_late_window (late n) (R + 1) s 0); unfold W in *; fold B; lia.
      + intros p Hp. apply (mark_late_window (late n) (R + 1) s p); unfold W in *; fold B; lia. }
  destruct Hl1 as [Hlen1 Hbits1].
  exists (set_received_seqno s
            (set_late (late_and_not l1 (size_t (s / 8) mod B) (s mod 8)) n)).
  split.
  { rewrite Harms. subst l1. destruct (s =? R + 1); reflexivity. }
  split; [reflexivity|]. simpl late.
  assert (Hclear : forall p, 0 <= p < W ->
            late_bit (late_and_not l1 (size_t (s / 8) mod B) (s mod 8)) p
            = if p =? s mod W then false else late_bit l1 p).
  { intros p Hp. apply late_bit_cleared; unfold W in *; fold B in Hp |- *; try lia. }
  split; [|split].
  - rewrite Hclear by lia. rewrite Z.eqb_refl. reflexivity.
  - intros u Hu. assert (0 <= u mod W < W) by (apply Z.mod_pos_bound; lia).
    rewrite Hclear by lia.
    replace (u mod W =? s mod W) with false.
    2: { symmetry. apply Z.eqb_neq. intros E.
         apply (mod_shift_ne W u (s - u) ltac:(lia)).
         replace (u + (s - u)) with s by lia. symmetry. exact E. }
    rewrite Hbits1 by lia.
    replace (existsb (fun u0 => u mod W =? u0 mod W) (Zrange (R + 1) s)) with true;
      [apply orb_true_r|].
    symmetry. apply existsb_exists. exists u. split; [apply in_Zrange; lia|apply Z.eqb_refl].
  - intros p Hp Hfree. rewrite Hclear by lia.
    replace (p =? s mod W) with false
      by (symmetry; apply Z.eqb_neq; intros E; apply (Hfree s); [lia|auto]).
    rewrite Hbits1 by lia.
    replace (existsb (fun u => p =? u mod W) (Zrange (R + 1) s)) with false;
      [apply orb_false_r|].
    symmetry. apply not_true_iff_false. intros Hex.
    apply existsb_exists in Hex as (u & Hu & E). apply in_Zrange in Hu.
    apply Z.eqb_eq in E. apply (Hfree u); [lia|auto].
Qed.

(** X1.  A sequence number [s] ahead of the last one received, [R], but
    less than a window ahead of it ([R < s < R + W], below 2^31): the check
    accepts it, [s] becomes the last one received, its bit in the late
    bitmap is cleared, the bit of every number skipped between [R] and [s]
    is set, and the bits of no other position change. *)
Theorem replay_window_ahead (n : node_t) (s : Z) :
  let R := received_seqno n in
  let W := 8 * sizeof_late n in
  0 < sizeof_late n -> W < 2 ^ 31 -> 0 <= R ->
  R < s < R + W -> s < 2 ^ 31 ->
  exists n',
    check_sequence_number n s = Some n'
    /\ received_seqno n' = s
    /\ late_bit (late n') (s mod W) = false
    /\ (forall u, R < u < s -> late_bit (late n') (u mod W) = true)
    /\ (forall p, 0 <= p < W -> (forall u, R < u <= s -> u mod W <> p) ->
          late_bit (late n') p = late_bit (late n) p).
Proof. exact (check_ahead n s). Qed.

Lemma late_bit_repeat_zero (k : nat) (p : Z) : late_bit (repeat 0 k) p = false.
Proof. unfold late_bit. rewrite get_repeat_zero. apply Z.bits_0. Qed.

Lemma check_rejects_seen (n : node_t) (seen : list Z) (s : Z) :
  let R := received_seqno n in
  let W := 8 * sizeof_late n in
  0 < sizeof_late n -> W < 2 ^ 31 -> 0 <= R < 2 ^ 31 -> 0 <= s < 2 ^ 31 ->
  seen_once n seen -> In s seen -> check_sequence_number n s = None.
Proof.
  intros R W HB HW HR Hs Hinv Hin.
  destruct (Hinv s Hin) as [Hle Hbit]. fold R W in Hle, Hbit.
  rewrite check_sequence_number_arms by (fold W R; lia). fold R W.
  replace (s =? R + 1) with false by (symmetry; apply Z.eqb_neq; lia).
  replace (R + W <=? s) with false by (symmetry; apply Z.leb_gt; lia).
  replace (s <=? R) with true by (symmetry; apply Z.leb_le; lia).
  destruct ((W <=? R) && (s <=? R - W)) eqn:E; [reflexivity|]. simpl.
  rewrite Hbit; [reflexivity|].
  apply andb_false_iff in E as [E|E]; [apply Z.leb_gt in E|apply Z.leb_gt in E]; lia.
Qed.

Lemma check_keeps_seen (n n' : node_t) (seen : list Z) (s : Z) :
  let R := received_seqno n in
  let W := 8 * sizeof_late n in
  0 < sizeof_late n -> W < 2 ^ 31 -> 0 <= R < 2 ^ 31 -> 0 <= s < 2 ^ 31 ->
  seen_once n seen -> check_sequence_number n s = Some n' ->
  seen_once n' (s :: seen)
  /\ sizeof_late n' = sizeof_late n
  /\ 0 <= received_seqno n' < 2 ^ 31.
Proof.
  intros R W HB HW HR Hs Hinv Hchk.
  assert (Hsw : 0 <= s mod W < W) by (apply Z.mod_pos_bound; lia).
  destruct (Z.lt_ge_cases R s) as [Hahead|Hbehind].
  - destruct (Z.lt_ge_cases s (R + W)) as [Hin|Hout].
    + (* inside the window ahead *)
      destruct (check_ahead n s HB HW ltac:(fold R; lia) ltac:(fold R W; lia) ltac:(lia))
        as (n1 & Hn1 & HR1 & Hbit1 & _ & Hsame).
      fold R W in Hbit1, Hsame. rewrite Hn1 in Hchk. injection Hchk as <-.
      assert (Hsize : sizeof_late n1 = sizeof_late n).
      { pose proof (check_sequence_number_fields _ _ _ Hn1) as Hf.
        rewrite check_sequence_number_arms in Hn1 by (fold W R; lia).
        fold R W in Hn1.
        replace (R + W <=? s) with false in Hn1 by (symmetry; apply Z.leb_gt; lia).
        replace (s <=? R) with false in Hn1 by (symmetry; apply Z.leb_gt; lia).
        unfold sizeof_late. f_equal.
        destruct (s =? R + 1); injection Hn1 as <-; simpl; rewrite length_late_and_not;
          [reflexivity|].
        apply (mark_late_window (late n) (R + 1) s 0); unfold W, sizeof_late in *; lia. }
      split; [|split; [exact Hsize|lia]].
      intros x [<-|Hx]; rewrite HR1, Hsize; fold W.
      * split; [lia|]. intros _. exact Hbit1.
      * destruct (Hinv x Hx) as [Hle Hbit]. fold R W in Hle, Hbit.
        split; [lia|]. intros Hnear.
        rewrite Hsame; [apply Hbit; lia|apply Z.mod_pos_bound; lia|].
        intros u Hu. replace u with (x + (u - x)) by lia. apply mod_shift_ne. lia.
    + (* beyond the window: the bitmap is reset *)
      rewrite check_sequence_number_arms in Hchk by (fold W R; lia). fold R W in Hchk.
      replace (s =? R + 1) with false in Hchk by (symmetry; apply Z.eqb_neq; lia).
      replace (R + W <=? s) with true in Hchk by (symmetry; apply Z.leb_le; lia).
      injection Hchk as <-. rewrite late_and_not_zero.
      split; [|split; [unfold sizeof_late; simpl; rewrite repeat_length; reflexivity
                      |simpl; lia]].
      intros x Hx. simpl. split.
      * destruct Hx as [<-|Hx]; [lia|]. destruct (Hinv x Hx) as [Hle _]. fold R in Hle. lia.
      * intros _. apply late_bit_repeat_zero.
  - (* at or behind the last one *)
    rewrite check_sequence_number_arms in Hchk by (fold W R; lia). fold R W in Hchk.
    replace (s =? R + 1) with false in Hchk by (symmetry; apply Z.eqb_neq; lia).
    replace (R + W <=? s) with false in Hchk by (symmetry; apply Z.leb_gt; lia).
    replace (s <=? R) with true in Hchk by (symmetry; apply Z.leb_le; lia).
    destruct ((W <=? R) && (s <=? R - W) || negb (late_bit (late n) (s mod W)));
      [discriminate|].
    injection Hchk as <-.
    assert (Hsize : sizeof_late
                      (set_received_seqno R
                         (set_late (late_and_not (late n)
                                      (size_t (s / 8) mod sizeof_late n) (s mod 8)) n))
                    = sizeof_late n).
    { unfold sizeof_late. simpl. rewrite length_late_and_not. reflexivity. }
    split; [|split; [exact Hsize|simpl; lia]].
    intros x Hx. rewrite Hsize. simpl received_seqno. simpl late. fold R W.
    assert (Hxr : 0 <= x <= R).
    { destruct Hx as [<-|Hx]; [lia|]. destruct (Hinv x Hx) as [Hle _]. exact Hle. }
    split; [exact Hxr|]. intros Hnear.
    assert (0 <= x mod W < W) by (apply Z.mod_pos_bound; lia).
    rewrite late_bit_cleared by (unfold W, sizeof_late in *; lia). fold W.
    destruct (x mod W =? s mod W) eqn:E; [reflexivity|].
    destruct Hx as [<-|Hx]; [rewrite Z.eqb_refl in E; discriminate|].
    apply (Hinv x Hx). exact Hnear.
Qed.

Lemma accepted_fresh (seqnos : list Z) (n : node_t) (seen : list Z) :
  0 < sizeof_late n -> 8 * sizeof_late n < 2 ^ 31 -> 0 <= received_seqno n < 2 ^ 31 ->
  Forall (fun s => 0 <= s < 2 ^ 31) seqnos ->
  seen_once n seen ->
  NoDup (accepted n seqnos) /\ forall x, In x (accepted n seqnos) -> ~ In x seen.
Proof.
  revert n seen. induction seqnos as [|s rest IH]; intros n seen HB HW HR Hall Hinv; simpl.
  - split; [constructor|intros x []].
  - inversion Hall as [|? ? Hs Hrest]; subst.
    destruct (check_sequence_number n s) as [n1|] eqn:Hchk.
    + destruct (check_keeps_seen n n1 seen s HB HW HR Hs Hinv Hchk) as (Hinv1 & Hsize & HR1).
      destruct (IH n1 (s :: seen)) as [Hnd Hfresh]; try rewrite Hsize; auto.
      split.
      * constructor; [|exact Hnd]. rewrite list_elem_of_In. intros Hin.
        apply (Hfresh s Hin). left. reflexivity.
      * intros x [<-|Hx].
        -- intros Hin. pose proof (check_rejects_seen n seen s HB HW HR Hs Hinv Hin) as E.
           rewrite E in Hchk. discriminate.
        -- intros Hin. apply (Hfresh x Hx). right. exact Hin.
    + apply IH; auto.
Qed.

(** X2.  Whatever the order in which sequence numbers below 2^31 arrive at
    a peer, with repetitions or without: no sequence number passes the
    check twice. *)
Theorem replay_no_duplicates (n : node_t) (seqnos : list Z) :
  0 < sizeof_late n -> 8 * sizeof_late n < 2 ^ 31 -> 0 <= received_seqno n < 2 ^ 31 ->
  Forall (fun s => 0 <= s < 2 ^ 31) seqnos ->
  NoDup (accepted n seqnos).
Proof.
  intros HB HW HR Hall.
  apply (accepted_fresh seqnos n [] HB HW HR Hall). intros x [].
Qed.

(** X3.  Reordering within the window.  When [s] has passed the check and
    was less than a window ahead, a number [u] that was skipped on the way
    ([R < u < s]) still passes when it arrives right after, and the last
    sequence number received stays [s]. *)
Theorem replay_window_reordered (n n' : node_t) (s u : Z) :
  let R := received_seqno n in
  let W := 8 * sizeof_late n in
  0 < sizeof_late n -> W < 2 ^ 31 -> 0 <= R ->
  R < u < s -> s < R + W -> s < 2 ^ 31 ->
  check_sequence_number n s = Some n' ->
  exists n'', check_sequence_number n' u = Some n'' /\ received_seqno n'' = s.
Proof.
  intros R W HB HW HR Hu Hs Hs31 Hchk.
  destruct (check_ahead n s HB HW HR ltac:(fold R W; lia) Hs31)
    as (n1 & Hn1 & HR1 & _ & Hmarked & _).
  fold R W in Hmarked. rewrite Hn1 in Hchk. injection Hchk as <-.
  destruct (check_keeps_seen n n1 [] s HB HW ltac:(fold R; lia) ltac:(lia)
              ltac:(intros x []) Hn1) as (_ & Hsize & _).
  rewrite check_sequence_number_arms by (rewrite ?Hsize, ?HR1; fold W; lia).
  rewrite HR1, Hsize. fold W.
  replace (u =? s + 1) with false by (symmetry; apply Z.eqb_neq; lia).
  replace (s + W <=? u) with false by (symmetry; apply Z.leb_gt; lia).
  replace (u <=? s) with true by (symmetry; apply Z.leb_le; lia).
  replace (s <=? s - W) with false by (symmetry; apply Z.leb_gt; lia).
  replace (u <=? s - W) with false by (symmetry; apply Z.leb_gt; lia).
  rewrite andb_false_r, (Hmarked u Hu). simpl. eexists. split; reflexivity.
Qed.

Section EgressMore.
Context `{Host} `{Constants} `{Crypto} `{Compression} `{Netutl}.
Variable g : globals.

Lemma transmit_wire (w : world) (n : node_id) (origlen origpriority : Z)
      (bytes : list Z) (blen : Z) (res : sendto_result) :
  let nd := heap w n in
  let ls := chosen_socket g nd in
  transmit g w n origlen origpriority bytes blen res
  = (mk_world (<[n := if ret res <? 0
                      then if errno res =? EMSGSIZE then tighten_mtu origlen nd else nd
                      else nd]> (heap w))
       (if inherits g w nd origpriority then origpriority else static_priority w),
     (if inherits g w nd origpriority then [setsockopt_IP_TOS (udp ls) origpriority] else [])
     ++ [sendto (udp ls) (bytes ++ mac_tail nd bytes)
           (blen + (if digest_active (outdigest nd) then digest_length (outdigest nd) else 0))
           (address nd)]).
Proof.
  intros nd ls. unfold transmit, mac_tail, inherits. fold nd. fold (chosen_socket g nd).
  fold ls. destruct (digest_active (outdigest nd)); cbv zeta.
  - destruct (have_IP_TOS && priorityinheritance g && negb (origpriority =? static_priority w)
              && (sa_family (sa ls) =? AF_INET)); reflexivity.
  - rewrite app_nil_r, Z.add_0_r.
    destruct (have_IP_TOS && priorityinheritance g && negb (origpriority =? static_priority w)
              && (sa_family (sa ls) =? AF_INET)); reflexivity.
Qed.

(** send_udppacket past its two gates, stage by stage. *)
Lemma send_udppacket_stages (w : world) (n : node_id) (origpkt : vpn_packet_t)
      (res : sendto_result) :
  let nd := heap w n in
  let s := uint32_t (sent_seqno nd + 1) in
  let nd1 := set_sent_seqno s nd in
  let w1 := set_node n nd1 w in
  let plen := fst (udp_payload nd origpkt) in
  let plain := numbered s plen (snd (udp_payload nd origpkt)) in
  let restored :=
    if outcompression nd =? 0 then set_seqno (htonl s) origpkt else origpkt in
  passes_gates nd origpkt = true ->
  send_udppacket g w n origpkt res =
  if negb (outcompression nd =? 0) && (plen <? 0)
  then mk_udp_result w origpkt [] exit_compress_error
  else
    match (if cipher_active (outcipher nd)
           then match cipher_encrypt (outcipher nd) plain with
                | Some out => Some (out, Z.of_nat (length out))
                | None => None
                end
           else Some (plain, plen + 4)) with
    | None => mk_udp_result w1 restored [] exit_encrypt_error
    | Some (bytes, blen) =>
        mk_udp_result
          (fst (transmit g w1 n (len origpkt) (priority origpkt) bytes blen res))
          restored
          (snd (transmit g w1 n (len origpkt) (priority origpkt) bytes blen res))
          exit_sendto
    end.
Proof.
  intros nd s nd1 w1 plen plain restored Hgate.
  unfold passes_gates in Hgate. apply andb_true_iff in Hgate as [Hkey Hgate].
  apply negb_true_iff in Hgate.
  unfold send_udppacket. fold nd. rewrite Hkey, Hgate. simpl negb. cbv iota.
  subst plen plain restored. unfold udp_payload. cbv zeta. fold s. simpl sent_seqno.
  simpl outcipher. fold nd1 w1.
  destruct (outcompression nd =? 0) eqn:Hc.
  - simpl. rewrite region_numbered. simpl len.
    assert (E : set_len (len origpkt) (set_len (len origpkt + 4) (set_seqno (htonl s) origpkt))
                = set_seqno (htonl s) origpkt) by (destruct origpkt; reflexivity).
    rewrite E.
    destruct (cipher_active (outcipher nd)).
    + destruct (cipher_encrypt (outcipher nd) (numbered s (len origpkt) (data origpkt)));
        [|reflexivity].
      destruct (transmit _ _ _ _ _ _ _ _); reflexivity.
    + destruct (transmit _ _ _ _ _ _ _ _); reflexivity.
  - simpl negb. rewrite andb_true_l.
    destruct (compress_packet (data origpkt) (len origpkt) (outcompression nd)) as [l d].
    simpl fst. simpl snd. destruct (l <? 0); [reflexivity|].
    pose proof (region_numbered s (mk_packet l 0 0 d)) as Hreg.
    assert (E : set_len (len origpkt) origpkt = origpkt) by (destruct origpkt; reflexivity).
    rewrite Hreg, ?E. simpl len. simpl data.
    destruct (cipher_active (outcipher nd)).
    + destruct (cipher_encrypt (outcipher nd) (numbered s l d)); [|reflexivity].
      destruct (transmit _ _ _ _ _ _ _ _); reflexivity.
    + destruct (transmit _ _ _ _ _ _ _ _); reflexivity.
Qed.

Lemma send_udppacket_gated (w : world) (n : node_id) (origpkt : vpn_packet_t)
      (res : sendto_result) :
  let r := send_udppacket g w n origpkt res in
  passes_gates (heap w n) origpkt = false ->
  (forall c, In c (u_calls r) -> tcp_call c)
  /\ static_priority (u_world r) = static_priority w
  /\ u_origpkt r = origpkt
  /\ (u_exit r = exit_no_valid_key \/ u_exit r = exit_no_minmtu).
Proof.
  intros r Hgate. subst r. unfold passes_gates in Hgate. unfold send_udppacket.
  destruct (validkey (status (heap w n))); simpl negb; cbv iota.
  - simpl in Hgate. apply negb_false_iff in Hgate. rewrite Hgate. simpl.
    split; [intros c [<-|[]]; exact I|auto].
  - simpl. split; [|auto].
    intros c Hin. apply in_app_or in Hin. destruct Hin as [Hin|[<-|[]]]; [|exact I].
    destruct (waitingforkey (status (heap w n))); [destruct Hin|].
    destruct Hin as [<-|[]]. exact I.
Qed.

(** Past the gates the calls are at most one setsockopt, then one sendto. *)
Lemma send_udppacket_udp_path (w : world) (n : node_id) (origpkt : vpn_packet_t)
      (res : sendto_result) :
  let r := send_udppacket g w n origpkt res in
  let nd := heap w n in
  let ls := chosen_socket g nd in
  passes_gates nd origpkt = true ->
  (u_calls r = [] /\ static_priority (u_world r) = static_priority w
   /\ u_exit r <> exit_sendto)
  \/ (exists bytes blen,
        u_calls r =
        (if inherits g w nd (priority origpkt)
         then [setsockopt_IP_TOS (udp ls) (priority origpkt)] else [])
        ++ [sendto (udp ls) bytes blen (address nd)]
        /\ static_priority (u_world r) =
           (if inherits g w nd (priority origpkt)
            then priority origpkt else static_priority w)
        /\ u_exit r = exit_sendto).
Proof.
  intros r nd ls Hgate. subst r. rewrite send_udppacket_stages by exact Hgate. fold nd.
  destruct (negb (outcompression nd =? 0) && (fst (udp_payload nd origpkt) <? 0)).
  { left. simpl. split; [reflexivity|]. split; [reflexivity|discriminate]. }
  match goal with
  | |- context [match ?c with Some _ => _ | None => _ end] => destruct c as [[bytes blen]|]
  end.
  2: { left. simpl. split; [reflexivity|]. split; [reflexivity|discriminate]. }
  right. rewrite transmit_wire. cbv zeta. rewrite heap_set_node_eq.
  cbn [fst snd u_calls u_world u_exit static_priority].
  assert (Hsock : chosen_socket g (set_sent_seqno (uint32_t (sent_seqno nd + 1)) nd) = ls)
    by reflexivity.
  assert (Hinh : inherits g (set_node n (set_sent_seqno (uint32_t (sent_seqno nd + 1)) nd) w)
                   (set_sent_seqno (uint32_t (sent_seqno nd + 1)) nd) (priority origpkt)
                 = inherits g w nd (priority origpkt)) by reflexivity.
  rewrite Hsock, Hinh. eexists _, _. split; [reflexivity|]. split; reflexivity.
Qed.

Lemma lor_zero (a b : Z) : Z.lor a b = 0 <-> a = 0 /\ b = 0.
Proof. apply Z.lor_eq_0_iff. Qed.

(** X4.  Path MTU discovery is on for a peer with a valid key and no probe
    has been answered yet ([minmtu] is 0).  Then an MTU probe (payload bytes
    12 and 13 both zero) makes calls of the UDP path only, and any other
    frame is handed to send_tcppacket on the connection of nexthop, as it
    is, and nothing else happens: no field of the peer changes, no
    sequence number is spent. *)
Theorem pmtu_discovery_gate (w : world) (n : node_id) (origpkt : vpn_packet_t)
        (res : sendto_result) :
  let r := send_udppacket g w n origpkt res in
  let nd := heap w n in
  validkey (status nd) = true ->
  Z.land (options nd) OPTION_PMTU_DISCOVERY <> 0 ->
  minmtu nd = 0 ->
  (get (data origpkt) 12 = 0 /\ get (data origpkt) 13 = 0 ->
   forall c, In c (u_calls r) -> udp_call c)
  /\ (~ (get (data origpkt) 12 = 0 /\ get (data origpkt) 13 = 0) ->
      r = mk_udp_result w origpkt
            [send_tcppacket (connection (heap w (nexthop nd))) origpkt] exit_no_minmtu).
Proof.
  intros r nd Hkey Hopt Hmin. split.
  - intros [H12 H13].
    assert (Hgate : passes_gates nd origpkt = true).
    { unfold passes_gates. rewrite Hkey, H12, H13. simpl. rewrite andb_false_r. reflexivity. }
    destruct (send_udppacket_udp_path w n origpkt res Hgate)
      as [(E & _)|(bytes & blen & E & _)]; fold r in E; rewrite E.
    + intros c [].
    + intros c Hin. apply in_app_or in Hin. destruct Hin as [Hin|[<-|[]]]; [|exact I].
      destruct (inherits g w (heap w n) (priority origpkt)); [|destruct Hin].
      destruct Hin as [<-|[]]. exact I.
  - intros Hdata. subst r. unfold send_udppacket. fold nd. rewrite Hkey. simpl negb. cbv iota.
    replace (Z.land (options nd) OPTION_PMTU_DISCOVERY =? 0) with false
      by (symmetry; apply Z.eqb_neq; exact Hopt).
    replace (minmtu nd =? 0) with true by (symmetry; apply Z.eqb_eq; exact Hmin).
    replace (Z.lor (get (data origpkt) 12) (get (data origpkt) 13) =? 0) with false.
    + reflexivity.
    + symmetry. apply Z.eqb_neq. intros E. apply Hdata. apply lor_zero. exact E.
Qed.

(** The frame of the caller when no MAC is stored: with an active digest
    and neither compression nor cipher the MAC would be stored through the
    caller's pointer. *)
Lemma send_udppacket_frame (w : world) (n : node_id) (origpkt : vpn_packet_t)
      (res : sendto_result) :
  let r := send_udppacket g w n origpkt res in
  let nd := heap w n in
  digest_active (outdigest nd) = false ->
  len (u_origpkt r) = len origpkt
  /\ priority (u_origpkt r) = priority origpkt
  /\ data (u_origpkt r) = data origpkt
  /\ (seqno (u_origpkt r) = seqno origpkt
      \/ outcompression nd = 0 /\ validkey (status nd) = true
         /\ seqno (u_origpkt r) = htonl (uint32_t (sent_seqno nd + 1))).
Proof.
  intros r nd _. destruct (passes_gates nd origpkt) eqn:Hgate.
  - subst r. rewrite send_udppacket_stages by exact Hgate. fold nd.
    assert (Hkey : validkey (status nd) = true).
    { unfold passes_gates in Hgate. apply andb_true_iff in Hgate. tauto. }
    destruct (negb (outcompression nd =? 0) && (fst (udp_payload nd origpkt) <? 0));
      [simpl; auto|].
    assert (Hres : forall p, p = (if outcompression nd =? 0
                                    then set_seqno (htonl (uint32_t (sent_seqno nd + 1))) origpkt
                                    else origpkt) ->
              len p = len origpkt /\ priority p = priority origpkt /\ data p = data origpkt
              /\ (seqno p = seqno origpkt
                  \/ outcompression nd = 0 /\ validkey (status nd) = true
                     /\ seqno p = htonl (uint32_t (sent_seqno nd + 1)))).
    { intros p ->. destruct (outcompression nd =? 0) eqn:E; simpl; [|auto].
      apply Z.eqb_eq in E. split; [reflexivity|]. split; [reflexivity|].
      split; [reflexivity|]. right. split; [exact E|]. split; [exact Hkey|reflexivity]. }
    match goal with
    | |- context [match ?c with Some _ => _ | None => _ end] => destruct c as [[bytes blen]|]
    end; simpl; apply Hres; reflexivity.
  - destruct (send_udppacket_gated w n origpkt res Hgate) as (_ & _ & E & _).
    fold r in E. rewrite E. auto.
Qed.

(** X5.  What send_udppacket leaves of the caller's frame when the peer
    has no outbound digest: its length, priority and data are as before,
    whichever way the function returns.  Its sequence number field is either
    as before or, when the peer has a valid key and no outbound compression,
    the new [sent_seqno] in network byte order. *)
Theorem send_udppacket_keeps_frame (w : world) (n : node_id) (origpkt : vpn_packet_t)
        (res : sendto_result) :
  let r := send_udppacket g w n origpkt res in
  let nd := heap w n in
  digest_active (outdigest nd) = false ->
  len (u_origpkt r) = len origpkt
  /\ priority (u_origpkt r) = priority origpkt
  /\ data (u_origpkt r) = data origpkt
  /\ (seqno (u_origpkt r) = seqno origpkt
      \/ outcompression nd = 0 /\ validkey (status nd) = true
         /\ seqno (u_origpkt r) = htonl (uint32_t (sent_seqno nd + 1))).
Proof. exact (send_udppacket_frame w n origpkt res). Qed.

(** The frame of the TCP fallback is the caller's. *)
Lemma send_udppacket_tcp_frame (w : world) (n : node_id) (origpkt : vpn_packet_t)
      (res : sendto_result) :
  forall c p, In (send_tcppacket c p) (u_calls (send_udppacket g w n origpkt res)) ->
              p = origpkt.
Proof.
  intros c p Hin. destruct (passes_gates (heap w n) origpkt) eqn:Hgate.
  - destruct (send_udppacket_udp_path w n origpkt res Hgate)
      as [(E & _)|(bytes & blen & E & _)]; rewrite E in Hin; [destruct Hin|].
    apply in_app_or in Hin. destruct Hin as [Hin|[Hin|[]]]; [|discriminate].
    destruct (inherits g w (heap w n) (priority origpkt)); [|destruct Hin].
    destruct Hin as [Hin|[]]. discriminate.
  - revert Hin. unfold passes_gates in Hgate. unfold send_udppacket.
    destruct (validkey (status (heap w n))); simpl negb; cbv iota.
    + simpl in Hgate. apply negb_false_iff in Hgate. rewrite Hgate. simpl.
      intros [[= _ <-]|[]]. reflexivity.
    + simpl. intros Hin. apply in_app_or in Hin. destruct Hin as [Hin|[[= _ <-]|[]]];
        [|reflexivity].
      destruct (waitingforkey (status (heap w n))); [destruct Hin|].
      destruct Hin as [Hin|[]]. discriminate.
Qed.

(** X6.  The two failures between the gates and sendto.  When the
    compressor fails, nothing has happened: no call, no change of the peer
    or of the frame.  When the cipher fails, no call is made either, but
    the sequence number is spent: [sent_seqno] has advanced by one. *)
Theorem send_udppacket_failures (w : world) (n : node_id) (origpkt : vpn_packet_t)
        (res : sendto_result) :
  let r := send_udppacket g w n origpkt res in
  let nd := heap w n in
  let s := uint32_t (sent_seqno nd + 1) in
  passes_gates nd origpkt = true ->
  (outcompression nd <> 0 ->
   fst (compress_packet (data origpkt) (len origpkt) (outcompression nd)) < 0 ->
   u_world r = w /\ u_calls r = [] /\ u_origpkt r = origpkt)
  /\ (~ (outcompression nd <> 0
         /\ fst (compress_packet (data origpkt) (len origpkt) (outcompression nd)) < 0) ->
      cipher_active (outcipher nd) = true ->
      cipher_encrypt (outcipher nd)
        (numbered s (fst (udp_payload nd origpkt)) (snd (udp_payload nd origpkt))) = None ->
      u_world r = set_node n (set_sent_seqno s nd) w /\ u_calls r = []).
Proof.
  intros r nd s Hgate. subst r. rewrite send_udppacket_stages by exact Hgate. fold nd s.
  split.
  - intros Hc Hneg. unfold udp_payload.
    replace (outcompression nd =? 0) with false by (symmetry; apply Z.eqb_neq; exact Hc).
    replace (_ <? 0) with true by (symmetry; apply Z.ltb_lt; exact Hneg).
    simpl. auto.
  - intros Hok Hact Henc.
    replace (negb (outcompression nd =? 0) && (fst (udp_payload nd origpkt) <? 0)) with false.
    + rewrite Hact, Henc. simpl. auto.
    + symmetry. apply not_true_iff_false. intros E. apply Hok.
      apply andb_true_iff in E as [E1 E2]. apply negb_true_iff, Z.eqb_neq in E1.
      apply Z.ltb_lt in E2. unfold udp_payload in E2.
      replace (outcompression nd =? 0) with false in E2
        by (symmetry; apply Z.eqb_neq; exact E1).
      auto.
Qed.

Lemma matching_socket_first (family : Z) (pre post : list listen_socket_t)
      (ls : listen_socket_t) (i : Z) :
  sa_family (sa ls) = family ->
  (forall x, In x pre -> sa_family (sa x) <> family) ->
  matching_socket family (pre ++ ls :: post) i = i + Z.of_nat (length pre).
Proof.
  intros Hls. revert i. induction pre as [|x pre IH]; intros i Hpre; simpl.
  - rewrite Hls, Z.eqb_refl. lia.
  - replace (family =? sa_family (sa x)) with false.
    + rewrite IH by (intros y Hy; apply Hpre; right; exact Hy). lia.
    + symmetry. apply Z.eqb_neq. intros E. apply (Hpre x); [left; reflexivity|auto].
Qed.

Lemma matching_socket_none (family : Z) (socks : list listen_socket_t) (i : Z) :
  (forall x, In x socks -> sa_family (sa x) <> family) ->
  matching_socket family socks i = i + Z.of_nat (length socks).
Proof.
  revert i. induction socks as [|x socks IH]; intros i Hall; simpl.
  - lia.
  - replace (family =? sa_family (sa x)) with false.
    + rewrite IH by (intros y Hy; apply Hall; right; exact Hy). lia.
    + symmetry. apply Z.eqb_neq. intros E. apply (Hall x); [left; reflexivity|auto].
Qed.

Lemma sendto_in_calls (w : world) (n : node_id) (origpkt : vpn_packet_t)
      (res : sendto_result) (fd : Z) (buf : list Z) (blen : Z) (dest : sockaddr_t) :
  In (sendto fd buf blen dest) (u_calls (send_udppacket g w n origpkt res)) ->
  passes_gates (heap w n) origpkt = true
  /\ fd = udp (chosen_socket g (heap w n)) /\ dest = address (heap w n).
Proof.
  intros Hin. destruct (passes_gates (heap w n) origpkt) eqn:Hgate.
  - split; [reflexivity|].
    destruct (send_udppacket_udp_path w n origpkt res Hgate)
      as [(E & _)|(bytes & blen' & E & _)]; rewrite E in Hin; [destruct Hin|].
    apply in_app_or in Hin. destruct Hin as [Hin|[[= <- <- <- <-]|[]]]; [|auto].
    destruct (inherits g w (heap w n) (priority origpkt)); [|destruct Hin].
    destruct Hin as [?|[]]. discriminate.
  - destruct (send_udppacket_gated w n origpkt res Hgate) as (Hcalls & _).
    destruct (Hcalls _ Hin).
Qed.

(** X7.  Every datagram is sent to the recorded address of the peer,
    through the first listening socket of the address family of that
    address, and through the first listening socket of all when none has
    that family. *)
Theorem sendto_socket (w : world) (n : node_id) (origpkt : vpn_packet_t)
        (res : sendto_result) (fd : Z) (buf : list Z) (blen : Z) (dest : sockaddr_t) :
  let family := sa_family (address (heap w n)) in
  In (sendto fd buf blen dest) (u_calls (send_udppacket g w n origpkt res)) ->
  dest = address (heap w n)
  /\ (forall pre ls post,
        listen_socket g = pre ++ ls :: post ->
        sa_family (sa ls) = family ->
        (forall x, In x pre -> sa_family (sa x) <> family) ->
        fd = udp ls)
  /\ ((forall x, In x (listen_socket g) -> sa_family (sa x) <> family) ->
      fd = udp (nth 0 (listen_socket g) no_socket)).
Proof.
  intros family Hin. destruct (sendto_in_calls _ _ _ _ _ _ _ _ Hin) as (_ & -> & ->).
  split; [reflexivity|]. unfold chosen_socket. fold family. split.
  - intros pre ls post E Hls Hpre. rewrite E.
    rewrite matching_socket_first by assumption.
    unfold listen_sockets. rewrite E, length_app. simpl length.
    replace (Z.of_nat (length pre + S (length post)) <=? 0 + Z.of_nat (length pre))
      with false by (symmetry; apply Z.leb_gt; lia).
    replace (Z.to_nat (0 + Z.of_nat (length pre))) with (length pre + 0)%nat by lia.
    rewrite app_nth2_plus. reflexivity.
  - intros Hnone. rewrite matching_socket_none by assumption. unfold listen_sockets.
    replace (Z.of_nat (length (listen_socket g)) <=? 0 + Z.of_nat (length (listen_socket g)))
      with true by (symmetry; apply Z.leb_le; lia).
    reflexivity.
Qed.

Lemma setsockopt_in_calls (w : world) (n : node_id) (origpkt : vpn_packet_t)
      (res : sendto_result) (fd v : Z) :
  let r := send_udppacket g w n origpkt res in
  In (setsockopt_IP_TOS fd v) (u_calls r) ->
  v = priority origpkt /\ v <> static_priority w /\ static_priority (u_world r) = v
  /\ have_IP_TOS = true /\ priorityinheritance g = true.
Proof.
  intros r Hin. destruct (passes_gates (heap w n) origpkt) eqn:Hgate.
  - destruct (send_udppacket_udp_path w n origpkt res Hgate)
      as [(E & _)|(bytes & blen' & E & Hstatic & _)]; fold r in E; rewrite E in Hin;
      [destruct Hin|].
    fold r in Hstatic. apply in_app_or in Hin. destruct Hin as [Hin|[?|[]]]; [|discriminate].
    destruct (inherits g w (heap w n) (priority origpkt)) eqn:Hinh; [|destruct Hin].
    destruct Hin as [[= <- <-]|[]]. split; [reflexivity|].
    unfold inherits in Hinh. apply andb_true_iff in Hinh as [Hinh _].
    apply andb_true_iff in Hinh as [Hinh Hne]. apply andb_true_iff in Hinh as [Htos Hpi].
    apply negb_true_iff, Z.eqb_neq in Hne. auto.
  - destruct (send_udppacket_gated w n origpkt res Hgate) as (Hcalls & _).
    destruct (Hcalls _ Hin).
Qed.

Lemma setsockopt_not_repeated (w : world) (n : node_id) (origpkt : vpn_packet_t)
      (res : sendto_result) :
  static_priority w = priority origpkt ->
  forall fd v, ~ In (setsockopt_IP_TOS fd v) (u_calls (send_udppacket g w n origpkt res)).
Proof.
  intros Hsame fd v Hin.
  destruct (setsockopt_in_calls w n origpkt res fd v Hin) as (-> & Hne & _). auto.
Qed.

(** X8.  IP_TOS is set to the priority of the frame, and only when that
    differs from the priority of the last time it was set; a frame of the
    same priority sent next, to whatever peer, sets nothing. *)
Theorem tos_set_on_change (w : world) (n1 n2 : node_id) (p1 p2 : vpn_packet_t)
        (res1 res2 : sendto_result) (fd v : Z) :
  let r1 := send_udppacket g w n1 p1 res1 in
  let r2 := send_udppacket g (u_world r1) n2 p2 res2 in
  In (setsockopt_IP_TOS fd v) (u_calls r1) ->
  v = priority p1 /\ v <> static_priority w
  /\ (priority p2 = priority p1 ->
      forall fd' v', ~ In (setsockopt_IP_TOS fd' v') (u_calls r2)).
Proof.
  intros r1 r2 Hin.
  destruct (setsockopt_in_calls w n1 p1 res1 fd v Hin) as (Hv & Hne & Hstatic & _).
  split; [exact Hv|]. split; [exact Hne|].
  intros Hsame. apply setsockopt_not_repeated. subst r1. rewrite Hstatic, Hv. auto.
Qed.

Lemma land_lor_nonzero (a b t : Z) :
  Z.land a t <> 0 \/ Z.land b t <> 0 -> Z.land (Z.lor a b) t <> 0.
Proof.
  intros Hor E. rewrite Z.land_lor_distr_l in E. apply lor_zero in E. tauto.
Qed.

(** X9.  A frame of priority -1 (one that came in over TCP), and every
    frame when the local node has the TCP-only option, never goes over UDP:
    send_packet changes nothing and makes no call of the UDP path.  For a
    reachable peer other than the local node it calls send_tcppacket with the
    frame, and terminate_connection when that fails; with priority -1 the
    connection is that of nexthop. *)
Theorem send_packet_never_udp (w : world) (n : node_id) (packet : vpn_packet_t)
        (tcp_ok : bool) (res : sendto_result) :
  priority packet = -1
  \/ Z.land (options (heap w (myself g))) OPTION_TCPONLY <> 0 ->
  fst (send_packet g w n packet tcp_ok res) = w
  /\ (forall c, In c (snd (send_packet g w n packet tcp_ok res)) -> ~ udp_call c)
  /\ (n <> myself g -> reachable (status (heap w n)) = true ->
      exists v,
        snd (send_packet g w n packet tcp_ok res)
        = send_tcppacket (connection (heap w v)) packet
            :: (if tcp_ok then [] else [terminate_connection (connection (heap w v)) true])
        /\ (priority packet = -1 -> v = nexthop (heap w n))).
Proof.
  intros Hforced. unfold send_packet.
  destruct (Nat.eqb n (myself g)) eqn:Hme.
  { simpl. split; [reflexivity|]. split.
    - intros c [<-|[]]. auto.
    - apply Nat.eqb_eq in Hme. intros Hne. contradiction. }
  destruct (negb (reachable (status (heap w n)))) eqn:Hreach.
  { simpl. split; [reflexivity|]. split; [intros c []|].
    intros _ Hr. rewrite Hr in Hreach. discriminate. }
  cbv zeta.
  set (v := if (priority packet =? -1) || Nat.eqb (via (heap w n)) (myself g)
            then nexthop (heap w n) else via (heap w n)).
  assert (Htcp : (priority packet =? -1)
                 || negb (Z.land (Z.lor (options (heap w (myself g))) (options (heap w v)))
                            OPTION_TCPONLY =? 0) = true).
  { destruct Hforced as [Hp|Ho].
    - rewrite Hp. reflexivity.
    - apply orb_true_iff. right. apply negb_true_iff, Z.eqb_neq.
      apply land_lor_nonzero. left. exact Ho. }
  rewrite Htcp. simpl. split; [reflexivity|]. split.
  - intros c [<-|Hin]; [auto|]. destruct tcp_ok; [destruct Hin|].
    destruct Hin as [<-|[]]. auto.
  - intros _ _. exists v. split; [reflexivity|].
    intros Hp. subst v. rewrite Hp. reflexivity.
Qed.
End EgressMore.

(** What two states of a peer have in common when only send_udppacket ran
    in between. *)
Lemma tighten_mtu_same (origlen : Z) (n : node_t) :
  let n' := tighten_mtu origlen n in
  minmtu n' = minmtu n /\ maxmtu n' <= maxmtu n /\ mtu n' <= mtu n
  /\ mtuprobes n' = mtuprobes n /\ status n' = status n /\ options n' = options n
  /\ received_seqno n' = received_seqno n /\ late n' = late n
  /\ nexthop n' = nexthop n /\ via n' = via n /\ connection n' = connection n
  /\ sent_seqno n' = sent_seqno n.
Proof.
  unfold tighten_mtu. destruct n as [? ? ? ? ? ? ? ? ? ? ? ? ? ? ? ? m mi ma ?]. simpl.
  destruct (origlen <=? ma) eqn:E1; simpl; destruct (origlen <=? m) eqn:E2; simpl;
    try apply Z.leb_le in E1; try apply Z.leb_le in E2; repeat split; lia.
Qed.

Section Prober.
Context `{Host} `{Constants} `{Crypto} `{Compression} `{Netutl}.
Variable g : globals.

Lemma send_udppacket_quiet (w : world) (n : node_id) (origpkt : vpn_packet_t)
      (res : sendto_result) (m : node_id) :
  let nd := heap w m in
  let nd' := heap (u_world (send_udppacket g w n origpkt res)) m in
  minmtu nd' = minmtu nd /\ maxmtu nd' <= maxmtu nd /\ mtu nd' <= mtu nd
  /\ mtuprobes nd' = mtuprobes nd /\ validkey (status nd') = validkey (status nd)
  /\ reachable (status nd') = reachable (status nd) /\ options nd' = options nd
  /\ received_seqno nd' = received_seqno nd /\ late nd' = late nd
  /\ nexthop nd' = nexthop nd /\ via nd' = via nd /\ connection nd' = connection nd.
Proof.
  intros nd nd'. subst nd nd'.
  pose proof (send_udppacket_exits g w n origpkt res) as [Hother Hex]. cbv zeta in Hex.
  destruct (Nat.eq_dec m n) as [->|Hne].
  2: { rewrite Hother by exact Hne. repeat split; lia. }
  destruct (u_exit (send_udppacket g w n origpkt res)).
  - rewrite Hex. simpl. repeat split; lia.
  - rewrite Hex. repeat split; lia.
  - destruct Hex as [-> _]. repeat split; lia.
  - destruct Hex as [-> _]. simpl. repeat split; lia.
  - rewrite Hex. destruct ((ret res <? 0) && (errno res =? EMSGSIZE)).
    + pose proof (tighten_mtu_same (len origpkt)
                    (set_sent_seqno (uint32_t (sent_seqno (heap w n) + 1)) (heap w n))) as Ht.
      cbv zeta in Ht. simpl in Ht.
      destruct Ht as (T1 & T2 & T3 & T4 & T5 & T6 & T7 & T8 & T9 & T10 & T11 & _).
      rewrite T1, T4, T5, T6, T7, T8, T9, T10, T11. repeat split; lia.
    + simpl. repeat split; lia.
Qed.

(** X10.  When the prober stops.  After the count of rounds is advanced:
    at 10 rounds or more with no probe answered ([minmtu] 0) the handler
    returns at once; otherwise, at 30 rounds or when [minmtu] has reached
    [maxmtu], it fixes [mtu] at [minmtu].  In both cases no probe is sent,
    the timer is not set again and no other peer changes. *)
Theorem send_mtu_probe_handler_stops (w : world) (n : node_id) (packet : vpn_packet_t)
        (rnd : Z -> N) (rbytes : Z -> list Z) (res : Z -> sendto_result) :
  let nd := heap w n in
  let probes := mtuprobes nd + 1 in
  let r := send_mtu_probe_handler g w n packet rnd rbytes res in
  (10 <= probes /\ minmtu nd = 0 \/ 30 <= probes \/ maxmtu nd <= minmtu nd) ->
  snd r = []
  /\ (forall m, m <> n -> heap (fst r) m = heap w m)
  /\ heap (fst r) n =
     if (10 <=? probes) && (minmtu nd =? 0)
     then set_mtuprobes probes nd
     else set_mtu (minmtu nd) (set_mtuprobes probes nd).
Proof.
  intros nd probes r Hstop. subst r. unfold send_mtu_probe_handler. fold nd. cbv zeta.
  change (mtuprobes (set_mtuprobes (mtuprobes nd + 1) nd)) with probes.
  change (minmtu (set_mtuprobes (mtuprobes nd + 1) nd)) with (minmtu nd).
  fold probes.
  destruct ((10 <=? probes) && (minmtu nd =? 0)) eqn:Hgive.
  - simpl fst. simpl snd. split; [reflexivity|]. split; [|apply heap_set_node_eq].
    intros m Hm. apply heap_set_node_ne. exact Hm.
  - unfold probe_rounds. rewrite heap_set_node_eq.
    change (mtuprobes (set_mtuprobes probes nd)) with probes.
    change (minmtu (set_mtuprobes probes nd)) with (minmtu nd).
    change (maxmtu (set_mtuprobes probes nd)) with (maxmtu nd).
    replace ((30 <=? probes) || (maxmtu nd <=? minmtu nd)) with true.
    + simpl fst. simpl snd. split; [reflexivity|]. split.
      * intros m Hm. rewrite !heap_set_node_ne by exact Hm. reflexivity.
      * rewrite heap_set_node_eq. reflexivity.
    + symmetry. apply orb_true_iff.
      destruct Hstop as [[H10 Hmin]|[H30|Hmax]].
      * apply andb_false_iff in Hgive as [E|E];
          [apply Z.leb_gt in E; lia|apply Z.eqb_neq in E; lia].
      * left. apply Z.leb_le. exact H30.
      * right. apply Z.leb_le. exact Hmax.
Qed.

Lemma probe_rounds_udp (k : nat) (i : Z) (w : world) (n : node_id) (packet : vpn_packet_t)
      (rnd : Z -> N) (rbytes : Z -> list Z) (res : Z -> sendto_result) :
  let r := probe_rounds g k i w n packet rnd rbytes res in
  validkey (status (heap w n)) = true ->
  (forall c, In c (snd r) -> udp_call c \/ c = event_add n)
  /\ (length (List.filter is_sendto (snd r)) <= k)%nat
  /\ (forall m, minmtu (heap (fst r) m) = minmtu (heap w m)
                /\ maxmtu (heap (fst r) m) <= maxmtu (heap w m)
                /\ mtuprobes (heap (fst r) m) = mtuprobes (heap w m)).
Proof.
  revert i w packet. induction k as [|k IH]; intros i w packet r Hkey; subst r; simpl.
  - split; [intros c [<-|[]]; right; reflexivity|]. split; [lia|]. intros m. lia.
  - destruct ((30 <=? mtuprobes (heap w n)) || (maxmtu (heap w n) <=? minmtu (heap w n))).
    + simpl. split; [intros c []|]. split; [lia|]. intros m.
      destruct (Nat.eq_dec m n) as [->|Hne].
      * rewrite fn_lookup_insert. simpl. lia.
      * rewrite fn_lookup_insert_ne by congruence. lia.
    + match goal with
      | |- context [send_udppacket g w n ?p ?r] =>
          set (probe := p);
          pose proof (send_udppacket_quiet w n probe r) as Hquiet;
          assert (Hgate : passes_gates (heap w n) probe = true);
          [|pose proof (send_udppacket_udp_path g w n probe r Hgate) as Hpath;
            set (sent := send_udppacket g w n probe r) in *]
      end.
      { unfold passes_gates. rewrite Hkey. simpl data. unfold get. simpl nth.
        rewrite !andb_false_r. reflexivity. }
      cbv zeta in Hquiet.
      assert (Hkey' : validkey (status (heap (u_world sent) n)) = true).
      { destruct (Hquiet n) as (_ & _ & _ & _ & E & _). rewrite E. exact Hkey. }
      specialize (IH (i + 1) (u_world sent) (u_origpkt sent) Hkey').
      destruct (probe_rounds g k (i + 1) (u_world sent) n (u_origpkt sent) rnd rbytes res)
        as [w' calls].
      simpl in IH |- *. destruct IH as (IHc & IHn & IHm).
      assert (Hsent : (forall c, In c (u_calls sent) -> udp_call c)
                      /\ (length (List.filter is_sendto (u_calls sent)) <= 1)%nat).
      { destruct Hpath as [(E & _)|(bytes & blen & E & _)]; rewrite E.
        - split; [intros c []|simpl; lia].
        - destruct (inherits g w (heap w n) (priority probe)); simpl.
          + split; [|lia]. intros c [<-|[<-|[]]]; exact I.
          + split; [|lia]. intros c [<-|[]]; exact I. }
      destruct Hsent as [Hsc Hsn].
      split; [|split].
      * intros c Hin. apply in_app_or in Hin. destruct Hin as [Hin|Hin];
          [left; apply Hsc; exact Hin|apply IHc; exact Hin].
      * rewrite List.filter_app, length_app. lia.
      * intros m. destruct (IHm m) as (E1 & E2 & E3).
        destruct (Hquiet m) as (Q1 & Q2 & _ & Q4 & _). lia.
Qed.

(** X11.  For a peer with a valid key, a round of the prober makes calls
    of the UDP path and at most one event_add, sends at most three
    datagrams, raises no [maxmtu], leaves every [minmtu] as it is, and
    advances the count of rounds of this peer by one and that of no other. *)
Theorem probes_stay_on_udp (w : world) (n : node_id) (packet : vpn_packet_t)
        (rnd : Z -> N) (rbytes : Z -> list Z) (res : Z -> sendto_result) :
  let r := send_mtu_probe_handler g w n packet rnd rbytes res in
  validkey (status (heap w n)) = true ->
  (forall c, In c (snd r) -> udp_call c \/ c = event_add n)
  /\ (length (List.filter is_sendto (snd r)) <= 3)%nat
  /\ (forall m, minmtu (heap (fst r) m) = minmtu (heap w m)
                /\ maxmtu (heap (fst r) m) <= maxmtu (heap w m))
  /\ mtuprobes (heap (fst r) n) = mtuprobes (heap w n) + 1
  /\ (forall m, m <> n -> mtuprobes (heap (fst r) m) = mtuprobes (heap w m)).
Proof.
  intros r Hkey. subst r. unfold send_mtu_probe_handler. cbv zeta.
  set (nd1 := set_mtuprobes (mtuprobes (heap w n) + 1) (heap w n)).
  assert (Hset : forall m, minmtu (heap (set_node n nd1 w) m) = minmtu (heap w m)
                         /\ maxmtu (heap (set_node n nd1 w) m) = maxmtu (heap w m)).
  { intros m. destruct (Nat.eq_dec m n) as [->|Hne].
    - rewrite heap_set_node_eq. split; reflexivity.
    - rewrite heap_set_node_ne by exact Hne. split; reflexivity. }
  destruct ((10 <=? mtuprobes nd1) && (minmtu nd1 =? 0)).
  - simpl fst. simpl snd. split; [intros c []|]. split; [simpl; lia|].
    split; [intros m; destruct (Hset m); lia|].
    split; [rewrite heap_set_node_eq; reflexivity|].
    intros m Hm. rewrite heap_set_node_ne by exact Hm. reflexivity.
  - assert (Hkey1 : validkey (status (heap (set_node n nd1 w) n)) = true)
      by (rewrite heap_set_node_eq; exact Hkey).
    destruct (probe_rounds_udp 3 0 (set_node n nd1 w) n packet rnd rbytes res Hkey1)
      as (Hc & Hn & Hm).
    split; [exact Hc|]. split; [exact Hn|].
    split; [intros m; destruct (Hm m) as (E1 & E2 & _); destruct (Hset m); lia|].
    split.
    + destruct (Hm n) as (_ & _ & E). rewrite E, heap_set_node_eq. reflexivity.
    + intros m Hne. destruct (Hm m) as (_ & _ & E). rewrite E.
      rewrite heap_set_node_ne by exact Hne. reflexivity.
Qed.
End Prober.

Lemma tighten_mtu_touches (origlen : Z) (n : node_t) :
  exists ma mt, tighten_mtu origlen n = set_mtu mt (set_maxmtu ma n).
Proof.
  exists (maxmtu (tighten_mtu origlen n)), (mtu (tighten_mtu origlen n)).
  unfold tighten_mtu. destruct n as [? ? ? ? ? ? ? ? ? ? ? ? ? ? ? ? m mi ma ?]. simpl.
  destruct (origlen <=? ma); simpl; destruct (origlen <=? m); reflexivity.
Qed.

(** The replay state only moves forward. *)
Lemma check_sequence_number_forward (n n1 : node_t) (s : Z) :
  check_sequence_number n s = Some n1 ->
  received_seqno n <= received_seqno n1
  /\ received_seqno n1 = (if received_seqno n <? s then s else received_seqno n).
Proof.
  unfold check_sequence_number.
  match goal with |- context [match ?c with Some _ => _ | None => _ end] => destruct c end;
    [|discriminate].
  intros [= <-]. simpl. destruct (received_seqno n <? s) eqn:E; [apply Z.ltb_lt in E|]; lia.
Qed.


Section IngressMore.
Context `{Host} `{Constants} `{Crypto} `{Compression} `{Netutl}.
Variable g : globals.

(** send_udppacket writes four fields of the peer and no other. *)
Lemma send_udppacket_touches (w : world) (n : node_id) (origpkt : vpn_packet_t)
      (res : sendto_result) (m : node_id) :
  exists wk s ma mt,
    heap (u_world (send_udppacket g w n origpkt res)) m =
    set_mtu mt (set_maxmtu ma (set_sent_seqno s (set_waitingforkey wk (heap w m)))).
Proof.
  assert (Hid : forall x : node_t,
             x = set_mtu (mtu x) (set_maxmtu (maxmtu x) (set_sent_seqno (sent_seqno x)
                   (set_waitingforkey (waitingforkey (status x)) x)))).
  { intros [? [? ? ?] ? ? ? ? ? ? ? ? ? ? ? ? ? ? ? ? ? ?]. reflexivity. }
  assert (Hs : forall (x : node_t) s,
             set_sent_seqno s x = set_mtu (mtu x) (set_maxmtu (maxmtu x) (set_sent_seqno s
                   (set_waitingforkey (waitingforkey (status x)) x)))).
  { intros [? [? ? ?] ? ? ? ? ? ? ? ? ? ? ? ? ? ? ? ? ? ?] s. reflexivity. }
  pose proof (send_udppacket_exits g w n origpkt res) as [Hother Hex]. cbv zeta in Hex.
  destruct (Nat.eq_dec m n) as [->|Hne].
  2: { rewrite Hother by exact Hne. eexists _, _, _, _. apply Hid. }
  destruct (u_exit (send_udppacket g w n origpkt res)).
  - rewrite Hex. exists true, (sent_seqno (heap w n)), (maxmtu (heap w n)), (mtu (heap w n)).
    destruct (heap w n) as [? [? ? ?] ? ? ? ? ? ? ? ? ? ? ? ? ? ? ? ? ? ?]. reflexivity.
  - rewrite Hex. eexists _, _, _, _. apply Hid.
  - destruct Hex as [-> _]. eexists _, _, _, _. apply Hid.
  - destruct Hex as [-> _]. eexists _, _, _, _. apply Hs.
  - rewrite Hex. destruct ((ret res <? 0) && (errno res =? EMSGSIZE)).
    + destruct (tighten_mtu_touches (len origpkt)
                  (set_sent_seqno (uint32_t (sent_seqno (heap w n) + 1)) (heap w n)))
        as (ma & mt & ->).
      exists (waitingforkey (status (heap w n))), (uint32_t (sent_seqno (heap w n) + 1)), ma, mt.
      destruct (heap w n) as [? [? ? ?] ? ? ? ? ? ? ? ? ? ? ? ? ? ? ? ? ? ?]. reflexivity.
    + eexists _, _, _, _. apply Hs.
Qed.

Lemma send_udppacket_egress (w : world) (n : node_id) (origpkt : vpn_packet_t)
      (res : sendto_result) :
  forall c, In c (u_calls (send_udppacket g w n origpkt res)) -> egress_call c.
Proof.
  intros c Hin. destruct (passes_gates (heap w n) origpkt) eqn:Hg.
  - destruct (send_udppacket_udp_path g w n origpkt res Hg)
      as [(E & _)|(bytes & blen & E & _)]; rewrite E in Hin; [destruct Hin|].
    apply in_app_or in Hin. destruct Hin as [Hin|[<-|[]]]; [|exact I].
    destruct (inherits g w (heap w n) (priority origpkt)); [|destruct Hin].
    destruct Hin as [<-|[]]. exact I.
  - destruct (send_udppacket_gated g w n origpkt res Hg) as (Hc & _).
    specialize (Hc c Hin). destruct c; try destruct Hc; exact I.
Qed.


Lemma send_packet_touches (w : world) (n : node_id) (packet : vpn_packet_t)
      (tcp_ok : bool) (res : sendto_result) (m : node_id) :
  exists wk s ma mt,
    heap (fst (send_packet g w n packet tcp_ok res)) m =
    set_mtu mt (set_maxmtu ma (set_sent_seqno s (set_waitingforkey wk (heap w m)))).
Proof.
  assert (Hid : exists wk s ma mt,
             heap w m = set_mtu mt (set_maxmtu ma (set_sent_seqno s
                          (set_waitingforkey wk (heap w m))))).
  { exists (waitingforkey (status (heap w m))), (sent_seqno (heap w m)),
      (maxmtu (heap w m)), (mtu (heap w m)).
    destruct (heap w m) as [? [? ? ?] ? ? ? ? ? ? ? ? ? ? ? ? ? ? ? ? ? ?]. reflexivity. }
  unfold send_packet.
  destruct (Nat.eqb n (myself g)); [exact Hid|].
  destruct (negb (reachable (status (heap w n)))); [exact Hid|]. cbv zeta.
  match goal with |- context [if ?b then (w, _) else _] => destruct b end; [exact Hid|].
  simpl fst. apply send_udppacket_touches.
Qed.

(** What a reception leaves of a peer: the fields the inbound checks read
    are those the replay check left, the estimates move one way. *)
Lemma mtu_probe_h_inbound (w : world) (n : node_id) (packet : vpn_packet_t) (l : Z)
      (tcp_ok : bool) (res : sendto_result) (m : node_id) :
  let nd := heap w m in
  let nd' := heap (fst (mtu_probe_h g w n packet l tcp_ok res)) m in
  incipher nd' = incipher nd /\ indigest nd' = indigest nd
  /\ received_seqno nd' = received_seqno nd /\ late nd' = late nd
  /\ address nd' = address nd
  /\ minmtu nd <= minmtu nd' /\ maxmtu nd' <= maxmtu nd.
Proof.
  intros nd nd'. subst nd nd'. unfold mtu_probe_h.
  destruct (get (data packet) 0 =? 0).
  - pose proof (send_udppacket_quiet) as _.
    unfold send_packet.
    assert (Hid : incipher (heap w m) = incipher (heap w m)
                  /\ indigest (heap w m) = indigest (heap w m)
                  /\ received_seqno (heap w m) = received_seqno (heap w m)
                  /\ late (heap w m) = late (heap w m)
                  /\ address (heap w m) = address (heap w m)
                  /\ minmtu (heap w m) <= minmtu (heap w m)
                  /\ maxmtu (heap w m) <= maxmtu (heap w m)) by (repeat split; lia).
    destruct (Nat.eqb n (myself g)); [exact Hid|].
    destruct (negb (reachable (status (heap w n)))); [exact Hid|]. cbv zeta.
    match goal with |- context [if ?b then (w, _) else _] => destruct b end; [exact Hid|].
    simpl fst.
    match goal with
    | |- context [send_udppacket g w ?v ?p res] =>
        destruct (send_udppacket_touches w v p res m) as (wk & s & ma & mt & E);
        pose proof (send_udppacket_quiet g w v p res m) as Hq
    end.
    cbv zeta in Hq. destruct Hq as (Q1 & Q2 & _).
    rewrite E in *. simpl in *. repeat split; lia.
  - simpl fst. destruct (minmtu (heap w n) <? l) eqn:El; [|repeat split; lia].
    apply Z.ltb_lt in El.
    destruct (Nat.eq_dec m n) as [->|Hne].
    + rewrite heap_set_node_eq. simpl. repeat split; lia.
    + rewrite heap_set_node_ne by exact Hne. repeat split; lia.
Qed.


(** The stages of receive_udppacket after the decryption. *)
Lemma receive_udppacket_checked (w : world) (n : node_id) (inpkt pkt2 : vpn_packet_t)
      (tcp_ok : bool) (res : sendto_result) (out : list Z) :
  let nd := heap w n in
  cipher_active (incipher nd) = true ->
  4 + digest_length (indigest nd) <= len inpkt ->
  (digest_active (indigest nd) = true -> digest_verify (indigest nd) inpkt = true) ->
  cipher_decrypt (incipher nd) (region inpkt) = Some out ->
  match check_sequence_number nd (seqno_of out) with
  | None => receive_udppacket g w n inpkt pkt2 tcp_ok res = (w, [])
  | Some nd1 =>
      let w1 := set_node n nd1 w in
      let rekey := if MAX_SEQNO <? received_seqno nd1 then [regenerate_key] else [] in
      let r := receive_udppacket g w n inpkt pkt2 tcp_ok res in
      (fst r = w1 /\ (snd r = rekey \/ exists p, snd r = rekey ++ [route n p]))
      \/ (exists p l, fst r = fst (mtu_probe_h g w1 n p l tcp_ok res)
                      /\ snd r = rekey ++ snd (mtu_probe_h g w1 n p l tcp_ok res))
  end.
Proof.
  intros nd Hc Hl Hd Hdec. unfold receive_udppacket. fold nd. rewrite Hc. simpl negb. cbv iota.
  replace (len inpkt <? 4 + digest_length (indigest nd)) with false
    by (symmetry; apply Z.ltb_ge; exact Hl).
  replace (digest_active (indigest nd) && negb (digest_verify (indigest nd) inpkt)) with false.
  2: { destruct (digest_active (indigest nd)); [rewrite Hd by reflexivity|]; reflexivity. }
  rewrite Hdec. cbv zeta. unfold seqno_of.
  change (seqno (set_seqno ?a ?b)) with a.
  change (seqno (set_len ?a ?b)) with (seqno b).
  change (seqno (stored ?a ?b)) with (of_image32 (firstn 4 b)).
  destruct (check_sequence_number nd (ntohl (of_image32 (firstn 4 out)))) as [nd1|];
    [|reflexivity].
  match goal with
  | |- context [match ?d with Some _ => _ | None => _ end] => destruct d as [[inpkt2 origlen2]|]
  end.
  2: { left. simpl. split; [reflexivity|left; reflexivity]. }
  match goal with |- context [if ?b then _ else _] => destruct b end.
  - right. exists (set_priority 0 inpkt2), origlen2.
    destruct (mtu_probe_h g _ n _ origlen2 tcp_ok res) as [w2 calls] eqn:E.
    simpl. split; reflexivity.
  - left. simpl. split; [reflexivity|right]. eexists. reflexivity.
Qed.
End IngressMore.


Lemma check_sequence_number_inbound (n n1 : node_t) (s : Z) :
  check_sequence_number n s = Some n1 ->
  incipher n1 = incipher n /\ indigest n1 = indigest n /\ address n1 = address n
  /\ minmtu n1 = minmtu n /\ maxmtu n1 = maxmtu n.
Proof.
  intros Hc. apply check_sequence_number_fields in Hc. rewrite <- Hc. repeat split.
Qed.

Section IngressTheorems.
Context `{Host} `{Constants} `{Crypto} `{Compression} `{Netutl}.
Variable g : globals.

Lemma receive_udppacket_unchecked (w : world) (n : node_id) (inpkt pkt2 : vpn_packet_t)
      (tcp_ok : bool) (res : sendto_result) :
  let nd := heap w n in
  cipher_active (incipher nd) = false
  \/ len inpkt < 4 + digest_length (indigest nd)
  \/ (digest_active (indigest nd) = true /\ digest_verify (indigest nd) inpkt = false)
  \/ cipher_decrypt (incipher nd) (region inpkt) = None
  \/ (exists out, cipher_decrypt (incipher nd) (region inpkt) = Some out
                  /\ check_sequence_number nd (seqno_of out) = None) ->
  receive_udppacket g w n inpkt pkt2 tcp_ok res = (w, []).
Proof.
  intros nd Hdrop. unfold receive_udppacket. fold nd.
  destruct (cipher_active (incipher nd)) eqn:Hc; [|reflexivity]. simpl negb. cbv iota.
  destruct (len inpkt <? 4 + digest_length (indigest nd)) eqn:Hl; [reflexivity|].
  apply Z.ltb_ge in Hl.
  destruct (digest_active (indigest nd) && negb (digest_verify (indigest nd) inpkt)) eqn:Hd;
    [reflexivity|].
  destruct Hdrop as [E|[E|[[E1 E2]|[E|(out & E1 & E2)]]]].
  - discriminate.
  - lia.
  - rewrite E1, E2 in Hd. discriminate.
  - rewrite E. reflexivity.
  - rewrite E1. cbv zeta. unfold seqno_of in E2.
    change (seqno (set_seqno ?a ?b)) with a.
    change (seqno (set_len ?a ?b)) with (seqno b).
    change (seqno (stored ?a ?b)) with (of_image32 (firstn 4 b)).
    rewrite E2. reflexivity.
Qed.

Lemma checks_cases (nd : node_t) (inpkt : vpn_packet_t) :
  (cipher_active (incipher nd) = false
   \/ len inpkt < 4 + digest_length (indigest nd)
   \/ (digest_active (indigest nd) = true /\ digest_verify (indigest nd) inpkt = false)
   \/ cipher_decrypt (incipher nd) (region inpkt) = None)
  \/ (passes_checks nd inpkt
      /\ exists out, cipher_decrypt (incipher nd) (region inpkt) = Some out).
Proof.
  unfold passes_checks.
  destruct (cipher_active (incipher nd)) eqn:Hc; [|left; left; reflexivity].
  destruct (Z_lt_dec (len inpkt) (4 + digest_length (indigest nd))) as [Hl|Hl];
    [left; right; left; exact Hl|].
  destruct (digest_active (indigest nd)) eqn:Hda;
    [destruct (digest_verify (indigest nd) inpkt) eqn:Hdv;
     [|left; right; right; left; split; reflexivity]|].
  all: destruct (cipher_decrypt (incipher nd) (region inpkt)) as [out|] eqn:Hdec;
    [|left; right; right; right; reflexivity].
  all: right; split; [split; [reflexivity|split; [lia|congruence]]|exists out; reflexivity].
Qed.

Lemma receive_udppacket_cases (w : world) (n : node_id) (inpkt pkt2 : vpn_packet_t)
      (tcp_ok : bool) (res : sendto_result) :
  let nd := heap w n in
  let r := receive_udppacket g w n inpkt pkt2 tcp_ok res in
  r = (w, [])
  \/ exists out nd1,
       passes_checks nd inpkt
       /\ cipher_decrypt (incipher nd) (region inpkt) = Some out
       /\ check_sequence_number nd (seqno_of out) = Some nd1
       /\ let w1 := set_node n nd1 w in
          let rekey := if MAX_SEQNO <? received_seqno nd1 then [regenerate_key] else [] in
          (fst r = w1 /\ (snd r = rekey \/ exists p, snd r = rekey ++ [route n p]))
          \/ (exists p l, fst r = fst (mtu_probe_h g w1 n p l tcp_ok res)
                          /\ snd r = rekey ++ snd (mtu_probe_h g w1 n p l tcp_ok res)).
Proof.
  intros nd r. subst r.
  destruct (checks_cases nd inpkt) as [Hdrop|[(P1 & P2 & P3) [out Hdec]]].
  { left. apply receive_udppacket_unchecked. fold nd. tauto. }
  pose proof (receive_udppacket_checked g w n inpkt pkt2 tcp_ok res out P1 P2 P3 Hdec) as Hst.
  fold nd in Hst.
  destruct (check_sequence_number nd (seqno_of out)) as [nd1|] eqn:Hchk;
    [right; exists out, nd1; repeat split; auto|left; exact Hst].
Qed.

(** What a reception leaves of each peer. *)
Lemma receive_udppacket_inbound (w : world) (n : node_id) (inpkt pkt2 : vpn_packet_t)
      (tcp_ok : bool) (res : sendto_result) (m : node_id) :
  let nd := heap w m in
  let nd' := heap (fst (receive_udppacket g w n inpkt pkt2 tcp_ok res)) m in
  incipher nd' = incipher nd /\ indigest nd' = indigest nd /\ address nd' = address nd
  /\ minmtu nd <= minmtu nd' /\ maxmtu nd' <= maxmtu nd
  /\ received_seqno nd <= received_seqno nd'.
Proof.
  intros nd nd'. subst nd nd'.
  destruct (receive_udppacket_cases w n inpkt pkt2 tcp_ok res)
    as [->|(out & nd1 & _ & _ & Hchk & Hst)].
  { simpl. repeat split; lia. }
  cbv zeta in Hst.
  destruct (check_sequence_number_inbound _ _ _ Hchk) as (C1 & C2 & C3 & C4 & C5).
  destruct (check_sequence_number_forward _ _ _ Hchk) as (C6 & _).
  assert (Hw1 : let x := heap (set_node n nd1 w) m in
                incipher x = incipher (heap w m) /\ indigest x = indigest (heap w m)
                /\ address x = address (heap w m)
                /\ minmtu (heap w m) <= minmtu x /\ maxmtu x <= maxmtu (heap w m)
                /\ received_seqno (heap w m) <= received_seqno x).
  { cbv zeta. destruct (Nat.eq_dec m n) as [->|Hne].
    - rewrite heap_set_node_eq. repeat split; auto; lia.
    - rewrite heap_set_node_ne by exact Hne. repeat split; lia. }
  cbv zeta in Hw1.
  destruct Hst as [(-> & _)|(p & l & -> & _)]; [exact Hw1|].
  pose proof (mtu_probe_h_inbound g (set_node n nd1 w) n p l tcp_ok res m) as Hm.
  cbv zeta in Hm. destruct Hm as (M1 & M2 & M3 & M4 & M5 & M6 & M7).
  destruct Hw1 as (W1 & W2 & W3 & W4 & W5 & W6).
  rewrite M1, M2, M3, M5. repeat split; auto; lia.
Qed.






Lemma try_harder_from_none (w : world) (edges : list edge_t) (from : sockaddr_t)
      (pkt : vpn_packet_t) :
  Forall (fun e => ~ matches from e) edges ->
  try_harder_from w edges from pkt None = None.
Proof.
  induction 1 as [|e rest He _ IH]; [reflexivity|]. simpl.
  unfold matches in He. apply Z.eqb_neq in He. rewrite He. simpl. exact IH.
Qed.

(** X16.  handle_incoming_vpn_data does nothing, no change and no call,
    when recvfrom failed, and when the source address is that of no peer and
    no edge has an address that agrees with it up to the port. *)
Theorem handle_incoming_vpn_data_ignores (w : world) (pkt pkt2 : vpn_packet_t)
        (rlen : Z) (buf : list Z) (from : sockaddr_t)
        (tcp_ok : bool) (res : sendto_result) :
  rlen < 0
  \/ (lookup_node_udp (sockaddrunmap from) = None
      /\ Forall (fun e => ~ matches (sockaddrunmap from) e) (edge_weight_tree g)) ->
  handle_incoming_vpn_data g w pkt pkt2 rlen buf from tcp_ok res = (w, []).
Proof.
  intros Hign. unfold handle_incoming_vpn_data.
  destruct (rlen <? 0) eqn:E; [reflexivity|]. apply Z.ltb_ge in E.
  destruct Hign as [Hneg|[Hlook Hedges]]; [lia|].
  rewrite Hlook. unfold try_harder. rewrite try_harder_from_none by exact Hedges.
  reflexivity.
Qed.

(** X17.  Whatever datagram comes in, for every peer: [minmtu] does not
    fall, [maxmtu] does not rise, the last sequence number received does not
    fall, and the inbound cipher and digest stay as they are.
    (update_node_udp, defined elsewhere, is taken to write the address
    only.) *)
Theorem ingress_moves_one_way (w : world) (pkt pkt2 : vpn_packet_t)
        (rlen : Z) (buf : list Z) (from : sockaddr_t)
        (tcp_ok : bool) (res : sendto_result) (m : node_id) :
  let nd := heap w m in
  let nd' := heap (fst (handle_incoming_vpn_data g w pkt pkt2 rlen buf from tcp_ok res)) m in
  minmtu nd <= minmtu nd' /\ maxmtu nd' <= maxmtu nd
  /\ received_seqno nd <= received_seqno nd'
  /\ incipher nd' = incipher nd /\ indigest nd' = indigest nd.
Proof.
  intros nd nd'. subst nd nd'. unfold handle_incoming_vpn_data.
  destruct (rlen <? 0); [simpl; repeat split; lia|]. cbv zeta.
  destruct (lookup_node_udp (sockaddrunmap from)) as [n|].
  - pose proof (receive_udppacket_inbound w n (set_len rlen (stored pkt buf)) pkt2 tcp_ok res m)
      as Hr. cbv zeta in Hr. tauto.
  - destruct (try_harder g w (sockaddrunmap from) (set_len rlen (stored pkt buf))) as [n|];
      [|simpl; repeat split; lia].
    pose proof (receive_udppacket_inbound (do_update_node_udp w n (sockaddrunmap from)) n
                  (set_len rlen (stored pkt buf)) pkt2 tcp_ok res m) as Hr.
    cbv zeta in Hr.
    destruct (receive_udppacket g (do_update_node_udp w n (sockaddrunmap from)) n
                (set_len rlen (stored pkt buf)) pkt2 tcp_ok res) as [w2 calls].
    simpl fst in *.
    assert (Hu : forall f : node_t -> Z,
               (forall a x, f (set_address a x) = f x) ->
               f (heap (do_update_node_udp w n (sockaddrunmap from)) m) = f (heap w m)).
    { intros f Hf. unfold do_update_node_udp. destruct (Nat.eq_dec m n) as [->|Hne].
      - rewrite heap_set_node_eq. apply Hf.
      - rewrite heap_set_node_ne by exact Hne. reflexivity. }
    rewrite <- (Hu minmtu), <- (Hu maxmtu), <- (Hu received_seqno) by reflexivity.
    assert (Hc : incipher (heap (do_update_node_udp w n (sockaddrunmap from)) m)
                 = incipher (heap w m)
                 /\ indigest (heap (do_update_node_udp w n (sockaddrunmap from)) m)
                    = indigest (heap w m)).
    { unfold do_update_node_udp. destruct (Nat.eq_dec m n) as [->|Hne].
      - rewrite heap_set_node_eq. split; reflexivity.
      - rewrite heap_set_node_ne by exact Hne. split; reflexivity. }
    destruct Hc as [<- <-]. tauto.
Qed.

(** X18.  A datagram from the address of a known peer moves no address:
    every peer keeps its recorded address, update_node_udp is not called,
    and only that peer can have a frame routed. *)
Theorem known_source_keeps_addresses (w : world) (pkt pkt2 : vpn_packet_t)
        (rlen : Z) (buf : list Z) (from : sockaddr_t)
        (tcp_ok : bool) (res : sendto_result) (n : node_id) :
  let r := handle_incoming_vpn_data g w pkt pkt2 rlen buf from tcp_ok res in
  lookup_node_udp (sockaddrunmap from) = Some n ->
  (forall m, address (heap (fst r) m) = address (heap w m))
  /\ (forall c, In c (snd r) ->
        match c with
        | update_node_udp _ _ => False
        | route m _ => m = n
        | _ => True
        end).
Proof.
  intros r Hlook. subst r. unfold handle_incoming_vpn_data.
  destruct (rlen <? 0); [split; [reflexivity|intros c []]|]. cbv zeta. rewrite Hlook.
  split.
  - intros m.
    pose proof (receive_udppacket_inbound w n (set_len rlen (stored pkt buf)) pkt2 tcp_ok res m)
      as Hr. cbv zeta in Hr. tauto.
  - intros c Hin. apply receive_udppacket_calls in Hin. destruct c; tauto.
Qed.
End IngressTheorems.

Section BroadcastFacts.
Context `{Host} `{Constants} `{Crypto} `{Compression} `{Netutl}.
Variable g : globals.

Lemma broadcast_loop_passes (tree : list (connection_id * connection_status_t * connection_t))
      (i : nat) (w : world) (from : node_id) (packet : vpn_packet_t)
      (tcp_ok : nat -> bool) (res : nat -> sendto_result) :
  Forall (passed_over w from) tree ->
  broadcast_loop g tree i w from packet tcp_ok res = (w, []).
Proof.
  intros Hall. revert i. induction Hall as [|[[c st] conn] rest Hskip _ IH]; intros i;
    [reflexivity|].
  simpl. unfold passed_over in Hskip. simpl in Hskip.
  replace (active st && mst st
           && negb (Nat.eqb c (connection (heap w (nexthop (heap w from)))))) with false.
  - apply IH.
  - symmetry. destruct Hskip as [->| ->]; [reflexivity|].
    rewrite Nat.eqb_refl. apply andb_false_r.
Qed.

Lemma send_packet_myself (w : world) (packet : vpn_packet_t)
      (tcp_ok : bool) (res : sendto_result) :
  send_packet g w (myself g) packet tcp_ok res = (w, [write_packet (delivered g packet)]).
Proof. unfold send_packet, delivered. rewrite Nat.eqb_refl. reflexivity. Qed.

(** X19.  In tunnel server mode a broadcast from another node is delivered
    to the local device and forwarded to nobody; the same holds in any mode
    when every connection is inactive, off the spanning tree, or the one
    the frame came in by.  A broadcast of the local node itself is then
    sent nowhere at all.  Nothing changes. *)
Theorem broadcast_packet_local_only (tunnelserver : bool)
        (tree : list (connection_id * connection_status_t * connection_t))
        (w : world) (from : node_id) (packet : vpn_packet_t)
        (tcp_ok : nat -> bool) (res : nat -> sendto_result) :
  tunnelserver = true /\ from <> myself g \/ Forall (passed_over w from) tree ->
  broadcast_packet g tunnelserver tree w from packet tcp_ok res
  = (w, if Nat.eqb from (myself g) then [] else [write_packet (delivered g packet)]).
Proof.
  intros Hlocal. unfold broadcast_packet.
  destruct (Nat.eqb from (myself g)) eqn:Hfrom; simpl negb; cbv iota.
  - destruct Hlocal as [[_ Hne]|Hall].
    + apply Nat.eqb_eq in Hfrom. contradiction.
    + apply broadcast_loop_passes. exact Hall.
  - rewrite send_packet_myself.
    destruct tunnelserver; [reflexivity|].
    destruct Hlocal as [[Ht _]|Hall]; [discriminate|].
    rewrite broadcast_loop_passes by exact Hall. reflexivity.
Qed.

(** The frames send_packet passes on. *)
Lemma send_packet_frames (w : world) (n : node_id) (packet : vpn_packet_t)
      (tcp_ok : bool) (res : sendto_result) :
  forall c, In c (snd (send_packet g w n packet tcp_ok res)) ->
    match c with
    | send_tcppacket _ p => p = packet
    | write_packet p => p = delivered g packet
    | _ => True
    end.
Proof.
  intros c. unfold send_packet, delivered.
  destruct (Nat.eqb n (myself g)); [intros [<-|[]]; reflexivity|].
  destruct (negb (reachable (status (heap w n)))); [intros []|]. cbv zeta.
  match goal with |- context [if ?b then (w, _) else _] => destruct b end.
  - simpl. intros [<-|Hin]; [reflexivity|]. destruct tcp_ok; [destruct Hin|].
    destruct Hin as [<-|[]]. exact I.
  - match goal with |- context [send_udppacket g w ?x packet res] => set (v := x) end.
    simpl. intros Hin. pose proof (send_udppacket_egress g _ _ _ _ c Hin) as Heg.
    destruct c; try exact I; try destruct Heg.
    + apply (send_udppacket_tcp_frame g _ _ _ _ _ _ Hin).
    + exfalso. destruct (passes_gates (heap w v) packet) eqn:Hgate.
      * destruct (send_udppacket_udp_path g w v packet res Hgate)
          as [(E & _)|(bytes & blen & E & _)]; rewrite E in Hin; [destruct Hin|].
        apply in_app_or in Hin. destruct Hin as [Hin|[Hin|[]]]; [|discriminate].
        match type of Hin with In _ (if ?b then _ else _) => destruct b end;
          [destruct Hin as [Hin|[]]; discriminate|destruct Hin].
      * destruct (send_udppacket_gated g w v packet res Hgate) as (Hc & _).
        apply Hc in Hin. destruct Hin.
Qed.

Lemma sent_packet_frame (w : world) (n : node_id) (packet : vpn_packet_t)
      (res : sendto_result) :
  let p := sent_packet g w n packet res in
  (forall m, digest_active (outdigest (heap w m)) = false) ->
  len p = len packet /\ priority p = priority packet
  /\ (data p = data packet \/ data p = data (delivered g packet)).
Proof.
  intros p Hoff. subst p. unfold sent_packet, delivered.
  destruct (Nat.eqb n (myself g)).
  { destruct (overwrite_mac g); simpl; auto. }
  destruct (negb (reachable (status (heap w n)))); [auto|]. cbv zeta.
  match goal with |- context [if ?b then packet else _] => destruct b end; [auto|].
  match goal with
  | |- context [send_udppacket g w ?v packet res] =>
      destruct (send_udppacket_frame g w v packet res (Hoff v)) as (E1 & E2 & E3 & _)
  end.
  auto.
Qed.

Lemma delivered_twice (packet : vpn_packet_t) :
  length (mymac g) = Z.to_nat ETH_ALEN ->
  data (delivered g (delivered g packet)) = data (delivered g packet).
Proof.
  intros Hlen. unfold delivered. destruct (overwrite_mac g); [|reflexivity]. simpl data.
  f_equal. rewrite firstn_all2 by lia. rewrite skipn_app, skipn_all2 by lia.
  rewrite Hlen, Nat.sub_diag. reflexivity.
Qed.

Lemma broadcast_loop_frames (tree : list (connection_id * connection_status_t * connection_t))
      (i : nat) (w : world) (from : node_id) (packet : vpn_packet_t)
      (tcp_ok : nat -> bool) (res : nat -> sendto_result) :
  (forall m, digest_active (outdigest (heap w m)) = false) ->
  data (delivered g packet) = data packet ->
  forall c, In c (snd (broadcast_loop g tree i w from packet tcp_ok res)) ->
    match c with
    | send_tcppacket _ p | write_packet p =>
        data p = data packet /\ len p = len packet /\ priority p = priority packet
    | _ => True
    end.
Proof.
  revert i w packet.
  induction tree as [|[[c0 st] conn] rest IH]; intros i w packet Hoff Hfix c;
    [intros []|].
  simpl.
  destruct (active st && mst st
            && negb (Nat.eqb c0 (connection (heap w (nexthop (heap w from)))))).
  2: { apply IH; assumption. }
  pose proof (send_packet_frames w (c_node conn) packet (tcp_ok i) (res i)) as Hsend.
  assert (Hoff1 : forall m,
             digest_active
               (outdigest (heap (fst (send_packet g w (c_node conn) packet (tcp_ok i) (res i)))
                             m)) = false).
  { intros m.
    destruct (send_packet_touches g w (c_node conn) packet (tcp_ok i) (res i) m)
      as (wk & s & ma & mt & ->).
    exact (Hoff m). }
  destruct (send_packet g w (c_node conn) packet (tcp_ok i) (res i)) as [w1 calls1].
  cbn [fst] in Hoff1.
  destruct (sent_packet_frame w (c_node conn) packet (res i) Hoff) as (S1 & S2 & S3).
  set (packet1 := sent_packet g w (c_node conn) packet (res i)) in *.
  assert (Hdata : data packet1 = data packet) by (destruct S3; congruence).
  assert (Hfix1 : data (delivered g packet1) = data packet1).
  { revert Hfix. unfold delivered. destruct (overwrite_mac g); [|reflexivity].
    simpl data. rewrite Hdata. congruence. }
  specialize (IH (S i) w1 packet1 Hoff1 Hfix1 c).
  destruct (broadcast_loop g rest (S i) w1 from packet1 tcp_ok res) as [w2 calls2].
  simpl in *. intros Hin. apply in_app_or in Hin. destruct Hin as [Hin|Hin].
  - apply Hsend in Hin. destruct c; try exact I; subst; [auto|].
    split; [exact Hfix|]. unfold delivered. destruct (overwrite_mac g); auto.
  - apply IH in Hin. destruct c; try exact I; rewrite <- Hdata, <- S1, <- S2; exact Hin.
Qed.

(** X20.  When no peer has an outbound digest, the broadcast of a frame
    from another node passes one frame along: what is handed to the device
    and to send_tcppacket has the length and priority of the frame and the
    data as the device got them.  With overwrite_mac, the local MAC address
    written into the first six bytes for the device is thus forwarded to
    the peers as well.  (write_packet and send_tcppacket are taken to leave
    the frame as it is.) *)
Theorem broadcast_forwards_delivered_frame (tunnelserver : bool)
        (tree : list (connection_id * connection_status_t * connection_t))
        (w : world) (from : node_id) (packet : vpn_packet_t)
        (tcp_ok : nat -> bool) (res : nat -> sendto_result) :
  from <> myself g ->
  length (mymac g) = Z.to_nat ETH_ALEN ->
  (forall m, digest_active (outdigest (heap w m)) = false) ->
  forall c, In c (snd (broadcast_packet g tunnelserver tree w from packet tcp_ok res)) ->
    match c with
    | send_tcppacket _ p | write_packet p =>
        data p = data (delivered g packet) /\ len p = len packet
        /\ priority p = priority packet
    | _ => True
    end.
Proof.
  intros Hfrom Hlen Hoff c. unfold broadcast_packet.
  apply Nat.eqb_neq in Hfrom. rewrite Hfrom. simpl negb. cbv iota.
  rewrite send_packet_myself.
  assert (Hown : sent_packet g w (myself g) packet (res O) = delivered g packet).
  { unfold sent_packet, delivered. rewrite Nat.eqb_refl. reflexivity. }
  rewrite Hown.
  assert (Hmeta : len (delivered g packet) = len packet
                  /\ priority (delivered g packet) = priority packet).
  { unfold delivered. destruct (overwrite_mac g); split; reflexivity. }
  destruct Hmeta as [M1 M2].
  destruct tunnelserver.
  { intros [<-|[]]. auto. }
  pose proof (broadcast_loop_frames tree 1 w from (delivered g packet) tcp_ok res
                Hoff (delivered_twice packet Hlen) c) as Hloop.
  destruct (broadcast_loop g tree 1 w from (delivered g packet) tcp_ok res) as [w2 calls2].
  simpl in *. intros [<-|Hin]; [auto|].
  apply Hloop in Hin. rewrite M1, M2 in Hin. exact Hin.
Qed.
End BroadcastFacts.

Lemma be32_digits (a b c d : Z) :
  0 <= a < 256 -> 0 <= b < 256 -> 0 <= c < 256 -> 0 <= d < 256 ->
  be32 (d + 256 * c + 65536 * b + 16777216 * a) = [a; b; c; d].
Proof.
  intros Ha Hb Hc Hd. pose proof (le32_digits d c b a Hd Hc Hb Ha) as E.
  unfold le32 in E. injection E as E0 E1 E2 E3. unfold be32.
  rewrite E0, E1, E2, E3. reflexivity.
Qed.

Lemma of_be32_be32 (s : Z) : 0 <= s < 2 ^ 32 -> of_be32 (be32 s) = s.
Proof.
  intros Hs. unfold of_be32, be32, get, byte_at. simpl nth.
  change (2 ^ (8 * 0)) with 1. change (2 ^ (8 * 1)) with 256.
  change (2 ^ (8 * 2)) with 65536. change (2 ^ (8 * 3)) with 16777216.
  rewrite Z.div_1_r.
  assert (H3 : s / 16777216 < 256) by (apply Z.div_lt_upper_bound; lia).
  assert (H3' : 0 <= s / 16777216) by (apply Z.div_pos; lia).
  rewrite (Z.mod_small (s / 16777216)) by lia.
  pose proof (Z.div_mod s 256 ltac:(lia)) as D0.
  pose proof (Z.div_mod (s / 256) 256 ltac:(lia)) as D1.
  pose proof (Z.div_mod (s / 256 / 256) 256 ltac:(lia)) as D2.
  rewrite !Z.div_div in D1, D2 by lia. rewrite Z.div_div in D2 by lia.
  change (256 * 256) with 65536 in *. change (65536 * 256) with 16777216 in *.
  lia.
Qed.

Section ByteOrderMore.
Context `{Host}.

Lemma image32_of_image32 (l : list Z) :
  length l = 4%nat -> Forall is_byte l -> image32 (of_image32 l) = l.
Proof.
  intros Hlen Hb.
  destruct l as [|a [|b [|c [|d [|]]]]]; try discriminate.
  pose proof (Forall_inv Hb) as Ha. apply Forall_inv_tail in Hb.
  pose proof (Forall_inv Hb) as Hb'. apply Forall_inv_tail in Hb.
  pose proof (Forall_inv Hb) as Hc. apply Forall_inv_tail in Hb.
  pose proof (Forall_inv Hb) as Hd. clear Hb.
  unfold is_byte in *.
  unfold image32, of_image32. destruct big_endian.
  - unfold of_be32, get. simpl nth. apply be32_digits; assumption.
  - unfold of_le32, get. simpl nth. apply le32_digits; assumption.
Qed.

Lemma seqno_of_numbered (s plen : Z) (payload : list Z) :
  0 <= s < 2 ^ 32 -> 0 <= plen ->
  seqno_of (numbered s plen payload) = s.
Proof.
  intros Hs Hp. unfold seqno_of, numbered.
  rewrite firstn_firstn. replace (Nat.min 4 (Z.to_nat (plen + 4))) with 4%nat by lia.
  change (firstn 4 (be32 s ++ payload)) with (be32 s).
  unfold ntohl.
  rewrite (image32_of_image32 (be32 s)).
  - apply of_be32_be32. exact Hs.
  - reflexivity.
  - unfold be32. repeat constructor; apply byte_at_range.
Qed.

(** A datagram of at least four bytes, stored and read back. *)
Lemma region_stored (stale : vpn_packet_t) (buf : list Z) :
  (4 <= length buf)%nat -> Forall is_byte (firstn 4 buf) ->
  region (set_len (Z.of_nat (length buf)) (stored stale buf)) = buf.
Proof.
  intros Hlen Hb. unfold region, stored. simpl.
  rewrite image32_of_image32; [|rewrite length_firstn; lia|exact Hb].
  rewrite firstn_skipn, Nat2Z.id. apply firstn_all.
Qed.
End ByteOrderMore.

Section RoundTrip.
Context `{Constants} `{Crypto} `{Compression} `{Netutl}.
Variables sender_host receiver_host : Host.
Variables gs gr : globals.

(** X21.  From send_udppacket of one daemon to handle_incoming_vpn_data
    of the other, whatever the byte orders of the two hosts.  No
    compression, no digests, ciphers that fit; a data frame of at least 14
    bytes; the encryption gives [bytes] and the replay check of the
    receiver accepts the new [sent_seqno] of the sender.  Then the sender
    hands exactly [bytes] to sendto, for the recorded address of the peer,
    and the receiver, given these bytes from the address of a peer it knows,
    routes the frame with the length and the data it had at the sender,
    priority 0 and that sequence number. *)
Theorem udp_round_trip (ws wr : world) (b a : node_id) (origpkt : vpn_packet_t)
        (res : sendto_result) (bytes : list Z) (a1 : node_t)
        (pkt pkt2 : vpn_packet_t) (from : sockaddr_t) (tcp_ok : bool) (res' : sendto_result) :
  let nb := heap ws b in
  let na := heap wr a in
  let s := uint32_t (sent_seqno nb + 1) in
  let sent := send_udppacket (H := sender_host) gs ws b origpkt res in
  let frame := mk_packet (len origpkt) 0 s (firstn (Z.to_nat (len origpkt)) (data origpkt)) in
  passes_gates nb origpkt = true ->
  outcompression nb = 0 -> incompression na = 0 ->
  cipher_active (outcipher nb) = true -> cipher_active (incipher na) = true ->
  ciphers_match (outcipher nb) (incipher na) ->
  cipher_encrypt (outcipher nb) (numbered s (len origpkt) (data origpkt)) = Some bytes ->
  digest_active (outdigest nb) = false ->
  digest_active (indigest na) = false -> digest_length (indigest na) = 0 ->
  14 <= len origpkt <= Z.of_nat (length (data origpkt)) ->
  Forall is_byte (data origpkt) ->
  get (data origpkt) 12 <> 0 \/ get (data origpkt) 13 <> 0 ->
  check_sequence_number na s = Some a1 ->
  lookup_node_udp (sockaddrunmap from) = Some a ->
  (exists tos fd,
     u_calls sent = tos ++ [sendto fd bytes (Z.of_nat (length bytes)) (address nb)])
  /\ handle_incoming_vpn_data (H := receiver_host) gr wr pkt pkt2
       (Z.of_nat (length bytes)) bytes from tcp_ok res'
     = (set_node a a1 wr,
        (if MAX_SEQNO <? received_seqno a1 then [regenerate_key] else [])
        ++ [route a frame]).
Proof.
  intros nb na s sent frame Hgate Hoc Hic Hca Hcb Hmatch Henc Hdo Hdi Hdl Hlen Hbytes
         Hdata Hchk Hlook.
  destruct (Hmatch _ _ Henc) as (Hdec & Hlong & Hb).
  assert (Hs : 0 <= s < 2 ^ 32) by (apply Z.mod_pos_bound; lia).
  assert (Hplain : length (numbered s (len origpkt) (data origpkt))
                   = Z.to_nat (len origpkt + 4)).
  { unfold numbered. rewrite length_firstn, length_app. simpl length. lia. }
  assert (Hpb : Forall is_byte (numbered s (len origpkt) (data origpkt))).
  { unfold numbered. apply Forall_take. apply Forall_app. split; [|exact Hbytes].
    unfold be32. repeat constructor; apply byte_at_range. }
  specialize (Hb Hpb).
  split.
  - subst sent. rewrite (send_udppacket_stages (H := sender_host)) by exact Hgate.
    fold nb. cbv zeta. fold s. unfold udp_payload. rewrite Hoc.
    change (0 =? 0) with true. cbn [negb andb fst snd].
    rewrite Hca, Henc. rewrite transmit_wire. cbv zeta. rewrite heap_set_node_eq.
    cbn [u_calls snd]. unfold mac_tail. cbn [outdigest address set_sent_seqno].
    rewrite Hdo, app_nil_r, Z.add_0_r.
    eexists _, _. reflexivity.
  - unfold handle_incoming_vpn_data.
    replace (Z.of_nat (length bytes) <? 0) with false by (symmetry; apply Z.ltb_ge; lia).
    cbv zeta. rewrite Hlook.
    assert (Hreg : region (H := receiver_host)
                     (set_len (Z.of_nat (length bytes)) (stored pkt bytes)) = bytes).
    { apply region_stored; [lia|]. apply Forall_take. exact Hb. }
    unfold receive_udppacket. fold na. rewrite Hcb. simpl negb. cbv iota.
    rewrite Hdl, Hdi. simpl andb. cbv iota.
    replace (len (set_len (Z.of_nat (length bytes)) (stored pkt bytes)) <? 4 + 0) with false
      by (symmetry; apply Z.ltb_ge; simpl; lia).
    rewrite Hreg, Hdec. cbv zeta.
    unfold stored. cbn [seqno len data priority set_len set_seqno set_priority].
    pose proof (seqno_of_numbered (H := receiver_host) s (len origpkt) (data origpkt) Hs
                  ltac:(lia)) as Hseq.
    unfold seqno_of in Hseq. rewrite Hseq, Hchk.
    assert (Hinc : incompression a1 = incompression na).
    { apply check_sequence_number_fields in Hchk. rewrite <- Hchk. reflexivity. }
    rewrite Hinc, Hic. simpl Z.eqb. cbv iota.
    assert (Hpay : skipn 4 (numbered s (len origpkt) (data origpkt))
                   = firstn (Z.to_nat (len origpkt)) (data origpkt)).
    { unfold numbered. replace (Z.to_nat (len origpkt + 4)) with (4 + Z.to_nat (len origpkt))%nat
        by lia.
      change (be32 s ++ data origpkt)
        with (byte_at s 3 :: byte_at s 2 :: byte_at s 1 :: byte_at s 0 :: data origpkt).
      reflexivity. }
    cbn [data set_priority set_seqno set_len]. rewrite Hpay.
    assert (Hget : forall k, 0 <= k < 14 ->
               get (firstn (Z.to_nat (len origpkt)) (data origpkt)) k = get (data origpkt) k).
    { intros k Hk. unfold get. rewrite !nth_lookup, lookup_take_lt by lia. reflexivity. }
    rewrite !Hget by lia.
    replace ((get (data origpkt) 12 =? 0) && (get (data origpkt) 13 =? 0)) with false.
    2: { symmetry. apply andb_false_iff.
         destruct Hdata as [E|E]; [left|right]; apply Z.eqb_neq; exact E. }
    unfold receive_packet. subst frame. rewrite Hplain.
    replace (Z.of_nat (Z.to_nat (len origpkt + 4)) - 4) with (len origpkt) by lia.
    reflexivity.
Qed.
End RoundTrip.

(** * Further examples *)

Section MoreExamples.
#[local] Existing Instances Sample.host Sample.constants Sample.crypto
  Sample.compression Sample.netutl.

(** The sample peer has received 300 and has a window of 128: 305 passes,
    its bit is cleared and that of 303, which was skipped, is set. *)
Lemma replay_window_ahead_witness :
  exists n', check_sequence_number Sample.peer 305 = Some n'
             /\ received_seqno n' = 305
             /\ late_bit (late n') 49 = false
             /\ late_bit (late n') 47 = true.
Proof.
  assert (HB : 0 < sizeof_late Sample.peer) by (vm_compute; reflexivity).
  assert (HW : 8 * sizeof_late Sample.peer < 2 ^ 31) by (vm_compute; reflexivity).
  assert (HR : 0 <= received_seqno Sample.peer) by (vm_compute; discriminate).
  assert (Hs : received_seqno Sample.peer < 305
               < received_seqno Sample.peer + 8 * sizeof_late Sample.peer)
    by (split; vm_compute; reflexivity).
  assert (Hs' : 305 < 2 ^ 31) by (vm_compute; reflexivity).
  destruct (replay_window_ahead Sample.peer 305 HB HW HR Hs Hs')
    as (n' & Hc & Hr & Hbit & Hskipped & _).
  exists n'. split; [exact Hc|]. split; [exact Hr|]. split; [exact Hbit|].
  apply (Hskipped 303). split; vm_compute; reflexivity.
Defined.

Lemma replay_no_duplicates_witness :
  NoDup (accepted Sample.peer [301; 305; 303; 305; 301; 400; 303]).
Proof.
  apply replay_no_duplicates.
  - vm_compute; reflexivity.
  - vm_compute; reflexivity.
  - split; vm_compute; [discriminate|reflexivity].
  - repeat (apply List.Forall_cons; [lia|]). apply List.Forall_nil.
Defined.

Lemma replay_window_reordered_witness :
  exists n' n'', check_sequence_number Sample.peer 305 = Some n'
                 /\ check_sequence_number n' 303 = Some n''
                 /\ received_seqno n'' = 305.
Proof.
  destruct (check_sequence_number Sample.peer 305) as [n'|] eqn:Hc;
    [|vm_compute in Hc; discriminate].
  assert (HB : 0 < sizeof_late Sample.peer) by (vm_compute; reflexivity).
  assert (HW : 8 * sizeof_late Sample.peer < 2 ^ 31) by (vm_compute; reflexivity).
  assert (HR : 0 <= received_seqno Sample.peer) by (vm_compute; discriminate).
  assert (Hu : received_seqno Sample.peer < 303 < 305) by (split; vm_compute; reflexivity).
  assert (Hs : 305 < received_seqno Sample.peer + 8 * sizeof_late Sample.peer)
    by (vm_compute; reflexivity).
  assert (Hs' : 305 < 2 ^ 31) by (vm_compute; reflexivity).
  destruct (replay_window_reordered Sample.peer n' 305 303 HB HW HR Hu Hs Hs' Hc)
    as (n'' & Hc' & Hr).
  exists n', n''. split; [reflexivity|]. split; [exact Hc'|exact Hr].
Defined.

(** Path MTU discovery is on and no probe has been answered: a data frame
    goes over TCP and the peer is left as it was. *)
Lemma pmtu_discovery_gate_witness :
  let w := Sample.world_of Cases.discovering in
  send_udppacket Sample.g w 1%nat (Sample.frame 100) Sample.sent
  = mk_udp_result w (Sample.frame 100) [send_tcppacket 5%nat (Sample.frame 100)]
      exit_no_minmtu.
Proof.
  intros w.
  assert (Hkey : validkey (status (heap w 1%nat)) = true) by reflexivity.
  assert (Hopt : Z.land (options (heap w 1%nat)) OPTION_PMTU_DISCOVERY <> 0)
    by (vm_compute; discriminate).
  assert (Hmin : minmtu (heap w 1%nat) = 0) by reflexivity.
  destruct (pmtu_discovery_gate Sample.g w 1%nat (Sample.frame 100) Sample.sent Hkey Hopt Hmin)
    as [_ Hdata].
  apply Hdata. vm_compute. intros [E _]. discriminate.
Defined.

Lemma sendto_socket_witness :
  let calls := u_calls (send_udppacket Sample.g (Sample.world_of Sample.peer) 1%nat
                          (Sample.frame 20) Sample.sent) in
  let buf := be32 8 ++ data (Sample.frame 20) in
  In (sendto 7 buf 24 Sample.old_address) calls
  /\ 7 = udp (nth 0 (listen_socket Sample.g) no_socket).
Proof.
  intros calls buf.
  assert (Hin : In (sendto 7 buf 24 Sample.old_address) calls)
    by (vm_compute; left; reflexivity).
  split; [exact Hin|].
  destruct (sendto_socket Sample.g (Sample.world_of Sample.peer) 1%nat (Sample.frame 20)
              Sample.sent 7 buf 24 Sample.old_address Hin) as (_ & Hfirst & _).
  apply (Hfirst [] (nth 0 (listen_socket Sample.g) no_socket) []).
  - reflexivity.
  - reflexivity.
  - intros x [].
Defined.

(** A frame of priority 3 sets IP_TOS to 3; the next frame of that
    priority sets nothing. *)
Lemma tos_set_on_change_witness :
  let p := set_priority 3 (Sample.frame 20) in
  let r1 := send_udppacket Sample.g (Sample.world_of Sample.peer) 1%nat p Sample.sent in
  let r2 := send_udppacket Sample.g (u_world r1) 1%nat p Sample.sent in
  In (setsockopt_IP_TOS 7 3) (u_calls r1)
  /\ ~ In (setsockopt_IP_TOS 7 3) (u_calls r2).
Proof.
  intros p r1 r2.
  assert (Hin : In (setsockopt_IP_TOS 7 3) (u_calls r1)) by (vm_compute; left; reflexivity).
  split; [exact Hin|].
  destruct (tos_set_on_change Sample.g (Sample.world_of Sample.peer) 1%nat 1%nat p p
              Sample.sent Sample.sent 7 3 Hin) as (_ & _ & Hnext).
  apply Hnext. reflexivity.
Defined.

(** The frame of the caller after a send: the sequence number field is
    overwritten, the rest is as it was. *)
Lemma send_udppacket_keeps_frame_witness :
  let r := send_udppacket Sample.g (Sample.world_of Sample.peer) 1%nat
             (Sample.frame 20) Sample.sent in
  digest_active (outdigest (heap (Sample.world_of Sample.peer) 1%nat)) = false
  /\ data (u_origpkt r) = data (Sample.frame 20)
  /\ len (u_origpkt r) = 20
  /\ seqno (u_origpkt r) = htonl 8.
Proof.
  intros r.
  assert (Hoff : digest_active (outdigest (heap (Sample.world_of Sample.peer) 1%nat)) = false)
    by reflexivity.
  split; [exact Hoff|].
  destruct (send_udppacket_keeps_frame Sample.g (Sample.world_of Sample.peer) 1%nat
              (Sample.frame 20) Sample.sent Hoff) as (Hlen & _ & Hdata & _).
  split; [exact Hdata|]. split; [exact Hlen|]. reflexivity.
Defined.

(** A frame that came in over TCP (priority -1) goes out over TCP. *)
Lemma send_packet_never_udp_witness :
  let p := set_priority (-1) (Sample.frame 100) in
  let r := send_packet Sample.g (Sample.world_of Sample.peer) 1%nat p true Sample.sent in
  fst r = Sample.world_of Sample.peer
  /\ exists v, snd r = [send_tcppacket (connection (heap (Sample.world_of Sample.peer) v)) p].
Proof.
  intros p r.
  assert (Htcp : priority p = -1
                 \/ Z.land (options (heap (Sample.world_of Sample.peer) (myself Sample.g)))
                      OPTION_TCPONLY <> 0) by (left; reflexivity).
  destruct (send_packet_never_udp Sample.g (Sample.world_of Sample.peer) 1%nat p true
              Sample.sent Htcp) as (Hw & _ & Hcalls).
  split; [exact Hw|].
  destruct (Hcalls ltac:(discriminate) ltac:(reflexivity)) as (v & E & _).
  exists v. exact E.
Defined.

(** After 29 rounds without an end the prober settles on minmtu and sends
    nothing. *)
Lemma send_mtu_probe_handler_stops_witness :
  let nd := set_minmtu 1400 (set_mtuprobes 29 Sample.peer) in
  let r := send_mtu_probe_handler Sample.g (Sample.world_of nd) 1%nat Sample.blank
             (fun _ => 5%N) (fun _ => repeat 0 1500) (fun _ => Sample.sent) in
  snd r = [] /\ heap (fst r) 1%nat = set_mtu 1400 (set_mtuprobes 30 nd).
Proof.
  intros nd r.
  assert (Hstop : 10 <= mtuprobes (heap (Sample.world_of nd) 1%nat) + 1
                  /\ minmtu (heap (Sample.world_of nd) 1%nat) = 0
                  \/ 30 <= mtuprobes (heap (Sample.world_of nd) 1%nat) + 1
                  \/ maxmtu (heap (Sample.world_of nd) 1%nat)
                     <= minmtu (heap (Sample.world_of nd) 1%nat))
    by (right; left; vm_compute; discriminate).
  destruct (send_mtu_probe_handler_stops Sample.g (Sample.world_of nd) 1%nat Sample.blank
              (fun _ => 5%N) (fun _ => repeat 0 1500) (fun _ => Sample.sent) Hstop)
    as (Hcalls & _ & Hn).
  split; [exact Hcalls|exact Hn].
Defined.

Lemma probes_stay_on_udp_witness :
  let r := send_mtu_probe_handler Sample.g (Sample.world_of Sample.peer) 1%nat Sample.blank
             (fun _ => 5%N) (fun _ => repeat 0 1500) (fun _ => Sample.sent) in
  (length (List.filter is_sendto (snd r)) <= 3)%nat
  /\ mtuprobes (heap (fst r) 1%nat) = 1
  /\ minmtu (heap (fst r) 1%nat) = 0.
Proof.
  intros r.
  assert (Hkey : validkey (status (heap (Sample.world_of Sample.peer) 1%nat)) = true)
    by reflexivity.
  destruct (probes_stay_on_udp Sample.g (Sample.world_of Sample.peer) 1%nat Sample.blank
              (fun _ => 5%N) (fun _ => repeat 0 1500) (fun _ => Sample.sent) Hkey)
    as (_ & Hcount & Hmtu & Hprobes & _).
  split; [exact Hcount|]. split; [exact Hprobes|].
  destruct (Hmtu 1%nat) as [Hmin _]. exact Hmin.
Defined.
End MoreExamples.

Section FailureExamples.
#[local] Existing Instances Sample.host Sample.constants Cases.jammed
  Cases.broken Sample.netutl.

(** The cipher fails: the sequence number is spent and nothing is sent. *)
Lemma send_udppacket_failures_witness :
  let w := Sample.world_of Sample.peer in
  let r := send_udppacket Sample.g w 1%nat (Sample.frame 100) Sample.sent in
  u_world r = set_node 1%nat (set_sent_seqno 8 Sample.peer) w /\ u_calls r = [].
Proof.
  intros w r.
  assert (Hgate : passes_gates (heap w 1%nat) (Sample.frame 100) = true) by reflexivity.
  destruct (send_udppacket_failures Sample.g w 1%nat (Sample.frame 100) Sample.sent Hgate)
    as [_ Hcipher].
  apply Hcipher.
  - intros [Hc _]. apply Hc. reflexivity.
  - reflexivity.
  - reflexivity.
Defined.
End FailureExamples.

Section IngressExamples.
#[local] Existing Instances Sample.host Sample.constants Sample.crypto
  Sample.compression Sample.netutl.



(** A datagram from a host that no peer and no edge has. *)
Lemma handle_incoming_vpn_data_ignores_witness :
  let w := Sample.world_of Sample.peer in
  handle_incoming_vpn_data Sample.g w Sample.blank Sample.blank 64
    (be32 301 ++ data (Sample.frame 60)) Cases.elsewhere true Sample.sent = (w, []).
Proof.
  intros w. apply handle_incoming_vpn_data_ignores. right. split; [reflexivity|].
  apply List.Forall_cons; [|apply List.Forall_nil].
  unfold matches. vm_compute. discriminate.
Defined.

(** In tunnel server mode a broadcast from peer 1 reaches the device only. *)
Lemma broadcast_packet_local_only_witness :
  let w := Sample.world_of Sample.peer in
  broadcast_packet Sample.g true Cases.tree w 1%nat (Sample.frame 60)
    (fun _ => true) (fun _ => Sample.sent)
  = (w, [write_packet (Sample.frame 60)]).
Proof.
  intros w.
  apply (broadcast_packet_local_only Sample.g true Cases.tree w 1%nat (Sample.frame 60)
           (fun _ => true) (fun _ => Sample.sent)).
  left. split; [reflexivity|discriminate].
Defined.

(** With the local MAC address written into frames for the device, the
    frame a broadcast forwards to peer 1 carries that address too. *)
Lemma broadcast_forwards_delivered_frame_witness :
  let w := Sample.world_of Sample.peer in
  let packet := set_priority (-1) (Sample.frame 20) in
  let forwarded := set_data ([2; 0; 0; 0; 0; 1] ++ skipn 6 (data packet)) packet in
  In (send_tcppacket 5%nat forwarded)
     (snd (broadcast_packet Cases.g_mac false Cases.tree w 2%nat packet
             (fun _ => true) (fun _ => Sample.sent)))
  /\ data forwarded = data (delivered Cases.g_mac packet).
Proof.
  intros w packet forwarded.
  assert (Hin : In (send_tcppacket 5%nat forwarded)
                   (snd (broadcast_packet Cases.g_mac false Cases.tree w 2%nat packet
                           (fun _ => true) (fun _ => Sample.sent))))
    by (vm_compute; right; left; reflexivity).
  split; [exact Hin|].
  assert (Hfrom : 2%nat <> myself Cases.g_mac) by discriminate.
  assert (Hlen : length (mymac Cases.g_mac) = Z.to_nat ETH_ALEN) by reflexivity.
  assert (Hoff : forall m, digest_active (outdigest (heap w m)) = false)
    by (intros m; reflexivity).
  destruct (broadcast_forwards_delivered_frame Cases.g_mac false Cases.tree w 2%nat packet
              (fun _ => true) (fun _ => Sample.sent) Hfrom Hlen Hoff _ Hin) as (Hdata & _).
  exact Hdata.
Defined.
End IngressExamples.

Section DecompressionExamples.
#[local] Existing Instances Sample.host Sample.constants Sample.crypto
  Cases.broken Sample.netutl.

End DecompressionExamples.

Section DirectoryExamples.
#[local] Existing Instances Sample.constants Sample.crypto
  Sample.compression Cases.directory.

(** A datagram from the recorded address of peer 1. *)
Lemma known_source_keeps_addresses_witness :
  let w := Sample.world_of Sample.peer in
  let r := handle_incoming_vpn_data (H := Sample.host) Sample.g w Sample.blank Sample.blank 64
             (be32 301 ++ data (Sample.frame 60)) Sample.old_address true Sample.sent in
  lookup_node_udp (sockaddrunmap Sample.old_address) = Some 1%nat
  /\ address (heap (fst r) 1%nat) = Sample.old_address
  /\ ~ In (update_node_udp 1%nat Sample.old_address) (snd r).
Proof.
  intros w r.
  assert (Hlook : lookup_node_udp (sockaddrunmap Sample.old_address) = Some 1%nat)
    by reflexivity.
  split; [exact Hlook|].
  destruct (known_source_keeps_addresses (H := Sample.host) Sample.g w Sample.blank
              Sample.blank 64 (be32 301 ++ data (Sample.frame 60)) Sample.old_address
              true Sample.sent 1%nat Hlook) as (Haddr & Hcalls).
  split; [exact (Haddr 1%nat)|].
  intros Hin. exact (Hcalls _ Hin).
Defined.

(** A little-endian host sends frame 8 to a big-endian one, which routes
    the frame as it was handed to send_udppacket. *)
Lemma udp_round_trip_witness :
  let origpkt := Sample.frame 60 in
  let wire := be32 8 ++ data origpkt in
  In (sendto 7 wire 64 Sample.old_address)
     (u_calls (send_udppacket (H := Sample.host) Sample.g (Sample.world_of Sample.peer)
                 1%nat origpkt Sample.sent))
  /\ snd (handle_incoming_vpn_data (H := Cases.big_host) Sample.g
            (Sample.world_of Cases.listening) Sample.blank Sample.blank 64 wire
            Sample.old_address true Sample.sent)
     = [route 1%nat (mk_packet 60 0 8 (data origpkt))].
Proof.
  intros origpkt wire.
  destruct (check_sequence_number Cases.listening 8) as [a1|] eqn:Hchk;
    [|vm_compute in Hchk; discriminate].
  assert (Hr : received_seqno a1 = 8)
    by (vm_compute in Hchk; injection Hchk as <-; reflexivity).
  assert (Hmatch : ciphers_match 1 1).
  { intros plain bytes [= <-]. split; [reflexivity|]. split; [lia|]. intros Hb. exact Hb. }
  assert (Hbytes : Forall is_byte (data origpkt)).
  { unfold origpkt. cbn.
    repeat (apply List.Forall_cons; [unfold is_byte; lia|]). apply List.Forall_nil. }
  destruct (udp_round_trip Sample.host Cases.big_host Sample.g Sample.g
              (Sample.world_of Sample.peer) (Sample.world_of Cases.listening)
              1%nat 1%nat origpkt Sample.sent wire a1 Sample.blank Sample.blank
              Sample.old_address true Sample.sent)
    as ((tos & fd & Hsent) & Hrecv).
  - reflexivity.
  - reflexivity.
  - reflexivity.
  - reflexivity.
  - reflexivity.
  - exact Hmatch.
  - reflexivity.
  - reflexivity.
  - reflexivity.
  - reflexivity.
  - split; vm_compute; discriminate.
  - exact Hbytes.
  - left. vm_compute. discriminate.
  - exact Hchk.
  - reflexivity.
  - split.
    + vm_compute. left. reflexivity.
    + change (Z.of_nat (length wire)) with 64 in Hrecv. rewrite Hrecv.
      simpl snd. rewrite Hr. reflexivity.
Defined.
End DirectoryExamples.
